(** * zodvex: the schema-to-validator mapper and the value codec

    A shallow embedding of [src/codec.ts], [src/mapping/core.ts], the record
    handler of [src/mapping/handlers.ts] and the validation-error helpers of
    [src/utils.ts] and [src/wrappers.ts], with the properties the
    specification states about them. *)

From Stdlib Require Import ZArith Lia.
From stdpp Require Import base option list gmap strings pretty.

Set Warnings "-register-all".

Open Scope string_scope.
Open Scope Z_scope.

(** ** JavaScript values *)

(** A double: the integral ones, the other finite ones (kept with their
    truncation toward zero, which is all [new Date] looks at), the
    infinities and NaN. *)
Inductive number : Type :=
| NumInt (z : Z)
| NumFrac (trunc : Z) (frac : positive)
| NumInf (negative : bool)
| NumNaN.

(** The values the codec inspects. A [Date] is its time value, [None] for
    an invalid date; an object is the list of its own enumerable
    properties in [Object.entries] order. *)
Inductive Value : Type :=
| JUndefined
| JNull
| JBool (b : bool)
| JNum (n : number)
| JStr (s : string)
| JBigInt (z : Z)
| JDate (t : option Z)
| JArr (items : list Value)
| JObj (props : list (string * Value)).

(** [value === undefined || value === null] *)
Definition isNullish (value : Value) : bool :=
  match value with JUndefined | JNull => true | _ => false end.

Definition isUndefined (value : Value) : bool :=
  match value with JUndefined => true | _ => false end.

(** [value && typeof value === "object"], for a value that is not nullish *)
Definition isObjectLike (value : Value) : bool :=
  match value with JDate _ | JArr _ | JObj _ => true | _ => false end.

(** [Object.entries(value)] *)
Definition entries (value : Value) : list (string * Value) :=
  match value with
  | JObj props => props
  | JArr items => imap (fun i x => (pretty i, x)) items
  | _ => []
  end.

(** ECMAScript's largest time value, 8.64e15 ms *)
Definition maxTime : Z := 8640000000000000.

(** [date.getTime()] *)
Definition getTime (t : option Z) : number :=
  match t with Some ms => NumInt ms | None => NumNaN end.

(** [new Date(n)] for a number [n]: TimeClip *)
Definition newDate (n : number) : Value :=
  match n with
  | NumInt z => JDate (if Z.abs z <=? maxTime then Some z else None)
  | NumFrac z _ => JDate (if Z.abs z <? maxTime then Some z else None)
  | NumInf _ | NumNaN => JDate None
  end.

(** ECMAScript's MakeDay/MakeTime/MakeDate for a UTC calendar date
    ([Date.UTC], the reading of an ISO string ending in [Z]);
    [month] counts from 1. *)
Definition daysFromCivil (year month day : Z) : Z :=
  let y := if month <=? 2 then year - 1 else year in
  let era := y / 400 in
  let yoe := y - era * 400 in
  let mp := (month + 9) mod 12 in
  let doy := (153 * mp + 2) / 5 + day - 1 in
  let doe := yoe * 365 + yoe / 4 - yoe / 100 + doy in
  era * 146097 + doe - 719468.

Definition dateUTC (year month day hour minute second ms : Z) : Z :=
  daysFromCivil year month day * 86400000
  + hour * 3600000 + minute * 60000 + second * 1000 + ms.

(** [result[k] = x] on an object made by [{}] adds the property [k],
    unless [k] is ["__proto__"]: that assignment goes to the setter of
    [Object.prototype] and adds no property (it replaces the prototype of
    [result] when [x] is an object or [null]; a [Value] holds the own
    properties of an object, not its prototype). *)
Definition assignable (k : string) : bool := negb (String.eqb k "__proto__").

(** The loops [for (const [k, v] of Object.entries(value))
    if (v !== undefined) result[k] = f(k, v)] and the same without the
    test: the own properties of [result]. *)
Definition definedEntries (f : string -> Value -> Value) :
    list (string * Value) -> list (string * Value) :=
  fix go props :=
    match props with
    | [] => []
    | (k, v) :: rest =>
        if isUndefined v then go rest
        else if assignable k then (k, f k v) :: go rest
        else go rest
    end.

Definition allEntries (f : string -> Value -> Value) :
    list (string * Value) -> list (string * Value) :=
  fix go props :=
    match props with
    | [] => []
    | (k, v) :: rest =>
        if assignable k then (k, f k v) :: go rest else go rest
    end.

(** [basicToConvex]: the schema-agnostic conversion *)
Fixpoint basicToConvex (value : Value) : Value :=
  match value with
  | JUndefined => JUndefined
  | JNull => JNull
  | JDate t => JNum (getTime t)
  | JArr items => JArr (map basicToConvex items)
  | JObj props => JObj (definedEntries (fun _ => basicToConvex) props)
  | _ => value
  end.

(** ** Zod schemas *)

(** The value of a [z.literal] *)
Inductive Literal : Type :=
| LitStr (s : string)
| LitNum (n : number)
| LitBool (b : bool)
| LitBigInt (z : Z)
| LitNull
| LitUndefined.

Definition literalValue (l : Literal) : Value :=
  match l with
  | LitStr s => JStr s
  | LitNum n => JNum n
  | LitBool b => JBool b
  | LitBigInt z => JBigInt z
  | LitNull => JNull
  | LitUndefined => JUndefined
  end.

(** A schema is a JavaScript object: [id] stands for its identity (what
    the [visited] set of the mapper holds), [def] for its class and its
    [def.type], which go together here, with the parts of [def] the
    mapper and the codec read. A discriminated union is a [ZodUnion] for
    [instanceof]. A lazy schema names its getter; what a call of the
    getter does is kept apart from the schema (see [Getters]), so that a
    schema can reach itself through it. *)
Inductive ZodType : Type :=
| Zod (id : nat) (def : ZodDef)
with ZodDef : Type :=
| ZString
| ZNumber
| ZBigInt
| ZBoolean
| ZDate
| ZNull
| ZNaN
| ZAny
| ZUnknown
| ZUndefined
| ZVoid
| ZNever
| ZIntersection
| ZArray (element : ZodType)
| ZObject (shape : list (string * ZodType))
| ZUnion (options : list ZodType)
| ZDiscriminatedUnion (discriminator : string) (options : list ZodType)
| ZLiteral (value : Literal)
| ZEnum (options : list string)
| ZRecord (keyType : option ZodType) (valueType : option ZodType)
| ZTuple (items : list ZodType)
| ZLazy (getter : option nat)
| ZOptional (innerType : ZodType)
| ZNullable (innerType : ZodType)
| ZDefault (innerType : ZodType) (defaultValue : Value)
| ZPrefault (innerType : ZodType) (defaultValue : Value)
| ZTransform
| ZPipe
| ZOther (type : string).

Definition zid (schema : ZodType) : nat :=
  match schema with Zod id _ => id end.

Definition zdef (schema : ZodType) : ZodDef :=
  match schema with Zod _ def => def end.

(** [shape[k]] *)
Definition shapeLookup (shape : list (string * ZodType)) (k : string)
    : option ZodType :=
  snd <$> List.find (fun entry => String.eqb k entry.1) shape.

(** ** Exceptions *)

(** A path element of a Zod issue: a key or an index *)
Inductive PathSegment : Type :=
| PathKey (key : string)
| PathIndex (index : nat).

(** A Zod issue; [issuePath] is [None] when the issue has no path array. *)
Record ZodIssue : Type := {
  issuePath : option (list PathSegment);
  issueCode : string;
  issueMessage : string
}.

Record FormattedIssue : Type := {
  path : string;
  code : string;
  message : string
}.

(** The object [formatZodIssues] builds *)
Record ValidationError : Type := {
  error : string;
  context : option string;
  issues : list FormattedIssue;
  flatten : Value
}.

(** What can be thrown: a [ZodError], the [ConvexError] that carries a
    formatted validation error, a plain [Error], or anything else. *)
Inductive Exception : Type :=
| ZodError (zodIssues : list ZodIssue)
| ConvexError (data : ValidationError)
| Error (errorMessage : string)
| OtherException (what : string).

(** A call that returns or throws *)
Inductive Outcome (A : Type) : Type :=
| Return (result : A)
| Throw (exception : Exception).

Arguments Return {A} result.
Arguments Throw {A} exception.

(** ** Convex validators *)

(** A validator object of [convex/values]: its kind with the parts it was
    built from, its [isOptional] property, and the [_zodDefault] property
    the mapper may set on it. *)
Inductive Validator : Type :=
| MkValidator (kind : VKind) (optional : bool) (zodDefault : option Value)
with VKind : Type :=
| KAny
| KString
| KFloat64
| KInt64
| KBoolean
| KNull
| KId (tableName : string)
| KLiteral (value : Literal)
| KArray (element : Validator)
| KObject (fields : list (string * Validator))
| KUnion (members : list Validator)
| KRecord (keys values : Validator).

Definition vkind (v : Validator) : VKind :=
  match v with MkValidator kind _ _ => kind end.

(** [validator.isOptional === "optional"] *)
Definition isOptionalValidator (validator : Validator) : bool :=
  match validator with MkValidator _ optional _ => optional end.

Definition zodDefault (v : Validator) : option Value :=
  match v with MkValidator _ _ d => d end.

(** The constructors of [convex/values], on the arguments the mapper
    gives them: each builds a new validator, required and with no
    [_zodDefault]. [v.optional] is [asOptional()]: a new validator of the
    same kind that is optional, so a property set on the argument is not
    on it. [v.record] throws on an optional key or value validator. *)
Definition requiredOf (kind : VKind) : Validator :=
  MkValidator kind false None.

Module v.
Definition any : Validator := requiredOf KAny.
Definition string : Validator := requiredOf KString.
Definition float64 : Validator := requiredOf KFloat64.
Definition int64 : Validator := requiredOf KInt64.
Definition boolean : Validator := requiredOf KBoolean.
Definition null : Validator := requiredOf KNull.
Definition id (tableName : String.string) : Validator :=
  requiredOf (KId tableName).
Definition literal (value : Literal) : Validator :=
  requiredOf (KLiteral value).
Definition array (element : Validator) : Validator :=
  requiredOf (KArray element).
Definition object (fields : list (String.string * Validator)) : Validator :=
  requiredOf (KObject fields).
Definition union (members : list Validator) : Validator :=
  requiredOf (KUnion members).
Definition record (keys values : Validator) : Outcome Validator :=
  if isOptionalValidator keys
  then Throw (Error "Record validator cannot have optional keys")
  else if isOptionalValidator values
  then Throw (Error "Record validator cannot have optional values")
  else Return (requiredOf (KRecord keys values)).
Definition optional (inner : Validator) : Validator :=
  MkValidator (vkind inner) true None.
End v.

(** [validator._zodDefault = value] *)
Definition setZodDefault (value : Value) (validator : Validator) : Validator :=
  MkValidator (vkind validator) (isOptionalValidator validator) (Some value).

(** An entry of the base-codec registry ([src/registry.ts]) *)
Record BaseCodec : Type := {
  toValidator : ZodType -> Validator;
  toConvex : Value -> ZodType -> Value;
  fromConvex : Value -> ZodType -> Value
}.

(** ** The value codec ([src/codec.ts]) *)

(** The falsy values *)
Inductive Falsy : Type :=
| FalsyUndefined
| FalsyNull
| FalsyFalse
| FalsyZero
| FalsyNaN
| FalsyEmptyString
| FalsyZeroBigInt.

Definition falsyValue (falsy : Falsy) : Value :=
  match falsy with
  | FalsyUndefined => JUndefined
  | FalsyNull => JNull
  | FalsyFalse => JBool false
  | FalsyZero => JNum (NumInt 0)
  | FalsyNaN => JNum NumNaN
  | FalsyEmptyString => JStr ""
  | FalsyZeroBigInt => JBigInt 0
  end.

(** [toConvexJS(value)], [toConvexJS(schema, value)], and the call with
    two arguments whose first one is falsy: there, as in the call with one
    argument, the first argument is the value. *)
Inductive CallArguments : Type :=
| OneArgument (value : Value)
| TwoArguments (schema : ZodType) (value : Value)
| FalsySchema (schema : Falsy) (value : Value).

Section Codec.

(** [findBaseCodec] and [isDateSchema] of [src/registry.ts], and whether
    [schema.parse(value)] returns (Zod's own validation). A record
    schema without a value type hands [undefined] to the recursive
    call, on which none of the tests of the codec holds. *)
Variable findBaseCodec : ZodType -> option BaseCodec.
Variable isDateSchema : ZodType -> bool.
Variable zodParse : ZodType -> Value -> bool.

(** The per-property step of the object loops: [shape[k] ? f(v, shape[k])
    : g(v)], with the recursive calls on the entries of the shape already
    taken. *)
Definition viaShape (fields : list (string * (Value -> Value)))
    (fallback : Value -> Value) (k : string) (v : Value) : Value :=
  match List.find (fun entry => String.eqb k entry.1) fields with
  | Some entry => entry.2 v
  | None => fallback v
  end.

(** The union loops: the first option, in order, that [accepts]. *)
Definition firstOption (accepts : ZodType -> bool) (options : list ZodType)
    : option ZodType :=
  List.find accepts options.

Fixpoint schemaToConvex (value : Value) (schema : ZodType) {struct schema}
    : Value :=
  if isNullish value then value else
  match findBaseCodec schema with
  | Some codec => toConvex codec value schema
  | None =>
    match schema with
    | Zod _ def =>
      match def with
      | ZOptional inner | ZNullable inner
      | ZDefault inner _ | ZPrefault inner _ =>
          schemaToConvex value inner
      | ZDate =>
          match value with
          | JDate t => JNum (getTime t)
          | _ => basicToConvex value
          end
      | ZArray element =>
          match value with
          | JArr items =>
              JArr (map (fun item => schemaToConvex item element) items)
          | _ => value
          end
      | ZObject shape =>
          if isObjectLike value then
            JObj (definedEntries
              (viaShape
                 (map (fun entry =>
                         match entry with
                         | (k, s) => (k, fun v => schemaToConvex v s)
                         end) shape)
                 basicToConvex)
              (entries value))
          else value
      | ZUnion options | ZDiscriminatedUnion _ options =>
          (fix tryOptions (opts : list ZodType) : Value :=
             match opts with
             | [] => basicToConvex value
             | option :: rest =>
                 if zodParse option value
                 then schemaToConvex value option
                 else tryOptions rest
             end) options
      | ZRecord _ valueType =>
          if isObjectLike value then
            JObj (definedEntries
              (fun _ v =>
                 match valueType with
                 | Some s => schemaToConvex v s
                 | None => basicToConvex v
                 end)
              (entries value))
          else value
      | _ => basicToConvex value
      end
    end
  end.

(** The two date tests of [fromConvexJS]: [(schema instanceof z.ZodDate
    || isDateSchema(schema)) && typeof value === "number"] *)
Definition asDateNumber (value : Value) (schema : ZodType) : option number :=
  match value with
  | JNum n =>
      match zdef schema with
      | ZDate => Some n
      | _ => if isDateSchema schema then Some n else None
      end
  | _ => None
  end.

Fixpoint fromConvexJS (value : Value) (schema : ZodType) {struct schema}
    : Value :=
  if isNullish value then value else
  match findBaseCodec schema with
  | Some codec => fromConvex codec value schema
  | None =>
    match schema with
    | Zod _ def =>
      match def with
      | ZOptional inner | ZNullable inner
      | ZDefault inner _ | ZPrefault inner _ =>
          fromConvexJS value inner
      | _ =>
        match asDateNumber value schema with
        | Some n => newDate n
        | None =>
          match def with
          | ZArray element =>
              match value with
              | JArr items =>
                  JArr (map (fun item => fromConvexJS item element) items)
              | _ => value
              end
          | ZObject shape =>
              if isObjectLike value then
                JObj (allEntries
                  (viaShape
                     (map (fun entry =>
                             match entry with
                             | (k, s) => (k, fun v => fromConvexJS v s)
                             end) shape)
                     (fun v => v))
                  (entries value))
              else value
          | ZUnion options | ZDiscriminatedUnion _ options =>
              (fix tryOptions (opts : list ZodType) : Value :=
                 match opts with
                 | [] => value
                 | option :: rest =>
                     let decoded := fromConvexJS value option in
                     if zodParse option decoded
                     then decoded
                     else tryOptions rest
                 end) options
          | ZRecord _ valueType =>
              if isObjectLike value then
                JObj (allEntries
                  (fun _ v =>
                     match valueType with
                     | Some s => fromConvexJS v s
                     | None => v
                     end)
                  (entries value))
              else value
          | _ => value
          end
        end
      end
    end
  end.

(** [toConvexJS] *)
Definition toConvexJS (args : CallArguments) : Value :=
  match args with
  | OneArgument value => basicToConvex value
  | FalsySchema schema _ => basicToConvex (falsyValue schema)
  | TwoArguments schema value => schemaToConvex value schema
  end.

End Codec.

(** ** The validator mapper ([src/mapping/core.ts]) *)

(** What [registryHelpers.getMetadata] ([src/ids.ts]) keeps for a schema *)
Record Metadata : Type := {
  tableName : option string;
  brand : option string;
  originalSchema : option ZodType
}.

(** What a call of a lazy schema's getter does *)
Inductive GetterOutcome : Type :=
| GetterReturns (schema : ZodType)
| GetterReturnsOther
| GetterThrows.

(** The getters, which are functions of the caller: [getters g n] is what
    the getter [g] does when it is called after [n] getter calls of the
    traversal. A getter may build its schema anew at every call. *)
Definition Getters : Type := nat -> nat -> GetterOutcome.

(** The getters that do the same at every call, as a table; a getter
    that is not in the table returns no schema. *)
Definition sameAtEveryCall (table : gmap nat GetterOutcome) : Getters :=
  fun g _ => default GetterReturnsOther (table !! g).

(** One call of a lazy schema's getter: the schema [zodToConvexInternal]
    was called on, the lazy schema resolved, and the lazy schemas whose
    resolved schema was being mapped at that moment. *)
Record Resolution : Type := {
  resolvedFor : nat;
  resolvedLazy : nat;
  resolvedWithin : list nat
}.

(** The state of one traversal: the [visited] set, and two ghost fields
    that record the getter calls ([resolutions], oldest first) and the
    lazy schemas under resolution ([resolving], innermost first). *)
Record Traversal : Type := {
  visited : gset nat;
  resolving : list nat;
  resolutions : list Resolution
}.

(** [new Set()] *)
Definition freshTraversal : Traversal :=
  {| visited := ∅; resolving := []; resolutions := [] |}.

Definition visit (id : nat) (st : Traversal) : Traversal :=
  {| visited := {[id]} ∪ visited st;
     resolving := resolving st;
     resolutions := resolutions st |}.

Definition enterGetter (head lazy : nat) (st : Traversal) : Traversal :=
  {| visited := visited st;
     resolving := lazy :: resolving st;
     resolutions := resolutions st ++
       [{| resolvedFor := head; resolvedLazy := lazy;
           resolvedWithin := resolving st |}] |}.

Definition leaveGetter (st : Traversal) : Traversal :=
  {| visited := visited st;
     resolving := tail (resolving st);
     resolutions := resolutions st |}.

(** What a stretch of the traversal comes to: it returns or throws, and
    leaves the visited set as it made it; [None] when the recursion
    budget is used up. *)
Definition Run (A : Type) : Type := option (Outcome A * Traversal).

(** Going on with [k] after a stretch that returned; a throw goes up. *)
Definition next {A B : Type} (r : Run A) (k : A -> Traversal -> Run B)
    : Run B :=
  match r with
  | Some (Return a, st) => k a st
  | Some (Throw e, st) => Some (Throw e, st)
  | None => None
  end.

Notation "'let*' ( x , st ) := r 'in' k" :=
  (next r (fun x st => k))
  (at level 10, x name, st name, r at level 100, k at level 200,
   format "'let*'  ( x ,  st )  :=  r  'in' '//' k").

(** The recursive call handed to the handlers:
    [(schema, visited) => validator] *)
Definition Mapper : Type := option ZodType -> Traversal -> Run Validator.

(** Mapping the values of a list of entries, left to right *)
Definition mapEntries {K : Type} (rec : Mapper) :
    list (K * ZodType) -> Traversal -> Run (list (K * Validator)) :=
  fix go fields st :=
    match fields with
    | [] => Some (Return [], st)
    | (k, schema) :: rest =>
        let* (validator, st1) := rec (Some schema) st in
        let* (validators, st2) := go rest st1 in
        Some (Return ((k, validator) :: validators), st2)
    end.

Definition mapSchemas (rec : Mapper) (schemas : list ZodType)
    (st : Traversal) : Run (list Validator) :=
  let* (validators, st1) :=
    mapEntries rec (map (fun s => (tt, s)) schemas) st in
  Some (Return validators.*2, st1).

(** The properties of [convexShape] after [convexShape[key] = ...] for
    each of [fields] *)
Definition assigned {A : Type} (fields : list (string * A))
    : list (string * A) :=
  List.filter (fun field => assignable field.1) fields.

(** [convertRecordType] ([src/mapping/handlers.ts]) *)
Definition convertRecordType (rec : Mapper)
    (keyType valueType : option ZodType) (st : Traversal)
    : Run Validator :=
  let valueType :=
    match valueType with Some s => Some s | None => keyType end in
  match valueType with
  | Some valueType =>
      let isZodOptional :=
        match zdef valueType with
        | ZOptional _ => true
        | ZDefault inner _ | ZPrefault inner _ =>
            match zdef inner with ZOptional _ => true | _ => false end
        | _ => false
        end in
      if isZodOptional then
        let '(innerType, recordDefault) :=
          match zdef valueType with
          | ZDefault innerFromDefault d | ZPrefault innerFromDefault d =>
              match zdef innerFromDefault with
              | ZOptional inner => (inner, Some d)
              | _ => (innerFromDefault, Some d)
              end
          | ZOptional inner => (inner, None)
          | _ => (valueType, None)
          end in
        let* (innerConvex, st1) := rec (Some innerType) st in
        let unionValidator := v.union [innerConvex; v.null] in
        let unionValidator :=
          match recordDefault with
          | Some d => setZodDefault d unionValidator
          | None => unionValidator
          end in
        Some (v.record v.string unionValidator, st1)
      else
        let* (valueConvex, st1) := rec (Some valueType) st in
        Some (v.record v.string valueConvex, st1)
  | None => Some (v.record v.string v.any, st)
  end.

(** Modelled from the spec: [convertUnionType] of
    [src/mapping/handlers.ts], which is not among the sources. "Union
    maps to native-union of the per-branch mapped validators." *)
Definition convertUnionType (rec : Mapper) (options : list ZodType)
    (st : Traversal) : Run Validator :=
  let* (members, st1) := mapSchemas rec options st in
  Some (Return (v.union members), st1).

(** Modelled from the spec: [convertDiscriminatedUnionType] of
    [src/mapping/handlers.ts], which is not among the sources.
    "DiscriminatedUnion maps to a native union keyed by the discriminant
    field, same branch-mapping rule." *)
Definition convertDiscriminatedUnionType (rec : Mapper)
    (options : list ZodType) (st : Traversal) : Run Validator :=
  let* (members, st1) := mapSchemas rec options st in
  Some (Return (v.union members), st1).

(** Modelled from the spec: [convertEnumType] of
    [src/mapping/handlers.ts], which is not among the sources. "Enum:
    single value gives a literal; two values a union of two literals; N>2
    values a union of N literals." *)
Definition convertEnumType (options : list string) : Validator :=
  match options with
  | [value] => v.literal (LitStr value)
  | _ => v.union (map (fun value => v.literal (LitStr value)) options)
  end.

(** Modelled from the spec: [convertNullableType] of
    [src/mapping/handlers.ts], which is not among the sources. The caller
    in [core.ts] reads [result.validator] and [result.isOptional]. "The
    native model cannot express optional and nullable as a single
    combinator: this combination must be flattened into a union of the
    inner validator and null, itself marked optional"; the type
    [ConvexValidatorFromZodBase] gives the union of the inner validator
    and null for every other inner schema. *)
Definition convertNullableType (rec : Mapper) (inner : ZodType)
    (st : Traversal) : Run (Validator * bool) :=
  match zdef inner with
  | ZOptional innerInner =>
      let* (innerValidator, st1) := rec (Some innerInner) st in
      Some (Return (v.union [innerValidator; v.null], true), st1)
  | _ =>
      let* (innerValidator, st1) := rec (Some inner) st in
      Some (Return (v.union [innerValidator; v.null], false), st1)
  end.

(** The wrappers [zodToConvexInternal] takes off before it dispatches *)
Record Unwrapped : Type := {
  actualValidator : ZodType;
  isOptional : bool;
  hasDefault : bool;
  defaultValue : Value
}.

Definition unwrapDefault (zodValidator : ZodType) : Unwrapped :=
  match zdef zodValidator with
  | ZDefault inner d =>
      {| actualValidator := inner; isOptional := false;
         hasDefault := true; defaultValue := d |}
  | _ =>
      {| actualValidator := zodValidator; isOptional := false;
         hasDefault := false; defaultValue := JUndefined |}
  end.

Definition unwrapOptional (u : Unwrapped) : Unwrapped :=
  match zdef (actualValidator u) with
  | ZOptional inner =>
      match zdef inner with
      | ZDefault inner' d =>
          {| actualValidator := inner'; isOptional := true;
             hasDefault := true; defaultValue := d |}
      | _ =>
          {| actualValidator := inner; isOptional := true;
             hasDefault := hasDefault u; defaultValue := defaultValue u |}
      end
  | _ => u
  end.

Definition unwrap (zodValidator : ZodType) : Unwrapped :=
  unwrapOptional (unwrapDefault zodValidator).

(** A truthy string property *)
Definition truthy (s : option string) : bool :=
  match s with
  | Some s => negb (String.eqb s "")
  | None => false
  end.

Section Mapping.

(** [isZid] ([src/mapping/utils.ts]), the metadata registry
    ([src/ids.ts], keyed by the schema object), [findBaseCodec]
    ([src/registry.ts]) and the getters of the lazy schemas. *)
Variable isZid : ZodType -> bool.
Variable metadata : gmap nat Metadata.
Variable findBaseCodec : ZodType -> option BaseCodec.
Variable getters : Getters.

Definition getMetadata (schema : ZodType) : option Metadata :=
  metadata !! zid schema.

(** The case ['lazy'] of the switch: the getter is called, and whatever
    is thrown inside the [try], by the getter or by the mapping of the
    schema it returned, is caught. *)
Definition convertLazy (rec : Mapper) (head : nat) (actual : ZodType)
    (getter : option nat) (st : Traversal) : Run (Validator * bool) :=
  match getter with
  | Some g =>
      let st1 := enterGetter head (zid actual) st in
      match getters g (length (resolutions st)) with
      | GetterReturns resolvedSchema =>
          match rec (Some resolvedSchema) st1 with
          | Some (Return validator, st2) =>
              Some (Return (validator, false), leaveGetter st2)
          | Some (Throw _, st2) =>
              Some (Return (v.any, false), leaveGetter st2)
          | None => None
          end
      | GetterReturnsOther | GetterThrows =>
          Some (Return (v.any, false), leaveGetter st1)
      end
  | None => Some (Return (v.any, false), st)
  end.

(** The [switch (defType)] of [zodToConvexInternal]: the validator and
    whether the nullable case asked for [isOptional = true]. [head] is
    the schema the call was made on. *)
Definition convertByType (rec : Mapper) (head : nat) (actual : ZodType)
    (st : Traversal) : Run (Validator * bool) :=
  let required (validator : Validator) : Run (Validator * bool) :=
    Some (Return (validator, false), st) in
  match zdef actual with
  | ZString => required v.string
  | ZNumber => required v.float64
  | ZBigInt => required v.int64
  | ZBoolean => required v.boolean
  | ZDate => required v.float64
  | ZNull => required v.null
  | ZNaN => required v.float64
  | ZArray element =>
      let* (elementValidator, st1) := rec (Some element) st in
      Some (Return (v.array elementValidator, false), st1)
  | ZObject shape =>
      let* (convexShape, st1) := mapEntries rec shape st in
      Some (Return (v.object (assigned convexShape), false), st1)
  | ZUnion options =>
      let* (validator, st1) := convertUnionType rec options st in
      Some (Return (validator, false), st1)
  | ZDiscriminatedUnion _ options =>
      let* (validator, st1) :=
        convertDiscriminatedUnionType rec options st in
      Some (Return (validator, false), st1)
  | ZLiteral literalValue =>
      match literalValue with
      | LitUndefined | LitNull => required v.any
      | _ => required (v.literal literalValue)
      end
  | ZEnum options => required (convertEnumType options)
  | ZRecord keyType valueType =>
      let* (validator, st1) := convertRecordType rec keyType valueType st in
      Some (Return (validator, false), st1)
  | ZTransform | ZPipe =>
      match findBaseCodec actual with
      | Some codec => required (toValidator codec actual)
      | None =>
          match getMetadata actual with
          | Some {| brand := b; originalSchema := Some original |} =>
              if truthy b then
                let* (validator, st1) := rec (Some original) st in
                Some (Return (validator, false), st1)
              else required v.any
          | _ => required v.any
          end
      end
  | ZNullable inner => convertNullableType rec inner st
  | ZTuple items =>
      match items with
      | [] => required (v.object [])
      | _ =>
          let* (convexShape, st1) :=
            mapEntries rec
              (imap (fun index item => ("_" +:+ pretty index, item)) items)
              st in
          Some (Return (v.object convexShape, false), st1)
      end
  | ZLazy getter => convertLazy rec head actual getter st
  | ZAny | ZUnknown => required v.any
  | ZUndefined | ZVoid | ZNever => required v.any
  | ZIntersection => required v.any
  | ZOptional _ | ZDefault _ _ | ZPrefault _ _ | ZOther _ =>
      required v.any
  end.

(** The body of [zodToConvexInternal], with its recursive calls made
    through [rec]. *)
Definition convertNode (rec : Mapper) : Mapper :=
  fun zodValidator st =>
  match zodValidator with
  | None => Some (Return v.any, st)
  | Some zodValidator =>
      if decide (zid zodValidator ∈ visited st) then Some (Return v.any, st)
      else
        let st := visit (zid zodValidator) st in
        let u := unwrap zodValidator in
        let* (converted, st1) :=
          (if isZid (actualValidator u) then
             let tableName :=
               match getMetadata (actualValidator u) with
               | Some m => if truthy (tableName m) then tableName m else None
               | None => None
               end in
             Some (Return (v.id (default "unknown" tableName), false), st)
           else
             convertByType rec (zid zodValidator) (actualValidator u) st) in
        let '(convexValidator, nullableOptional) := converted in
        let finalValidator :=
          if isOptional u || nullableOptional
          then v.optional convexValidator else convexValidator in
        let finalValidator :=
          if hasDefault u
          then setZodDefault (defaultValue u) finalValidator
          else finalValidator in
        Some (Return finalValidator, st1)
  end.

(** [zodToConvexInternal], at most [fuel] calls deep *)
Fixpoint zodToConvexInternal (fuel : nat) : Mapper :=
  match fuel with
  | O => fun _ _ => None
  | S fuel => convertNode (zodToConvexInternal fuel)
  end.

End Mapping.

(** ** The schema objects a traversal can reach *)

Fixpoint nodeIds (schema : ZodType) : gset nat :=
  match schema with
  | Zod id def =>
      {[id]} ∪
      match def with
      | ZArray element => nodeIds element
      | ZObject shape =>
          ⋃ (map (fun entry => match entry with (_, s) => nodeIds s end) shape)
      | ZUnion options | ZDiscriminatedUnion _ options
      | ZTuple options => ⋃ (map nodeIds options)
      | ZRecord keyType valueType =>
          match keyType with Some s => nodeIds s | None => ∅ end ∪
          match valueType with Some s => nodeIds s | None => ∅ end
      | ZOptional inner | ZNullable inner
      | ZDefault inner _ | ZPrefault inner _ => nodeIds inner
      | _ => ∅
      end
  end.

Definition outcomeIds (outcome : GetterOutcome) : gset nat :=
  match outcome with
  | GetterReturns schema => nodeIds schema
  | _ => ∅
  end.

Definition metadataIds (m : Metadata) : gset nat :=
  match originalSchema m with
  | Some schema => nodeIds schema
  | None => ∅
  end.

(** Every schema object reachable from [schema], through the getters of
    a table and through the original schemas of the brands. *)
Definition universe (metadata : gmap nat Metadata)
    (getters : gmap nat GetterOutcome) (schema : option ZodType) : gset nat :=
  match schema with Some s => nodeIds s | None => ∅ end
  ∪ ⋃ (outcomeIds <$> (map_to_list getters).*2)
  ∪ ⋃ (metadataIds <$> (map_to_list metadata).*2).

(** What [zodToConvex] is given: a schema, or a plain object of schemas,
    a field of which may be undefined *)
Inductive ZodInput : Type :=
| InputSchema (zod : ZodType)
| InputFields (fields : list (string * option ZodType)).

Inductive ConvexOutput : Type :=
| OutputValidator (validator : Validator)
| OutputFields (fields : list (string * Validator)).

(** What [zodToConvexFields] is given: an object schema, or a plain
    object of schemas *)
Inductive FieldsInput : Type :=
| FieldsOfObject (id : nat) (shape : list (string * ZodType))
| FieldsOfShape (fields : list (string * option ZodType)).

(** [Object.entries(zod instanceof z.ZodObject ? zod.shape : zod)] *)
Definition fieldEntries (zod : FieldsInput)
    : list (string * option ZodType) :=
  match zod with
  | FieldsOfObject _ shape =>
      map (fun field : string * ZodType => (field.1, Some field.2)) shape
  | FieldsOfShape fields => fields
  end.

(** A call from outside: what it returns or throws, [None] when the
    recursion budget is used up *)
Definition returned {A : Type} (r : Run A) : option (Outcome A) :=
  fst <$> r.

Section Entry.

(** The entry points, for getters that do the same at every call (for
    any others [zodToConvexInternal] is called with a number of calls it
    may nest). *)
Variable isZid : ZodType -> bool.
Variable metadata : gmap nat Metadata.
Variable findBaseCodec : ZodType -> option BaseCodec.
Variable getters : gmap nat GetterOutcome.

(** A recursion budget that covers every schema object once: each call
    of [zodToConvexInternal] that goes past the visited test adds a
    schema object to the set. *)
Definition budget (schema : option ZodType) : nat :=
  S (size (universe metadata getters schema)).

(** [zodToConvexInternal(zod)], with the default [visited = new Set()] *)
Definition zodToConvexSchema (zod : option ZodType) : Run Validator :=
  zodToConvexInternal isZid metadata findBaseCodec
    (sameAtEveryCall getters) (budget zod) zod freshTraversal.

(** [zodToConvexFields]: a fresh [visited] set for every field; the
    first field that throws ends the loop. *)
Definition zodToConvexFields (zod : FieldsInput)
    : option (Outcome (list (string * Validator))) :=
  (fix go (fields : list (string * option ZodType)) :=
     match fields with
     | [] => Some (Return [])
     | (key, value) :: rest =>
         match zodToConvexSchema value with
         | Some (Return validator, _) =>
             match go rest with
             | Some (Return result) =>
                 Some (Return (if assignable key
                               then (key, validator) :: result
                               else result))
             | other => other
             end
         | Some (Throw e, _) => Some (Throw e)
         | None => None
         end
     end) (fieldEntries zod).

Definition zodToConvex (zod : ZodInput) : option (Outcome ConvexOutput) :=
  match zod with
  | InputFields fields =>
      match zodToConvexFields (FieldsOfShape fields) with
      | Some (Return result) => Some (Return (OutputFields result))
      | Some (Throw e) => Some (Throw e)
      | None => None
      end
  | InputSchema zod =>
      match zodToConvexSchema (Some zod) with
      | Some (Return validator, _) =>
          Some (Return (OutputValidator validator))
      | Some (Throw e, _) => Some (Throw e)
      | None => None
      end
  end.

End Entry.

(** ** Validation errors ([src/utils.ts]) and the handler wrapper
    ([src/wrappers.ts]) *)

Inductive Context : Type :=
| ContextArgs
| ContextReturns
| ContextInput
| ContextOutput
| ContextCodec.

Definition contextTag (context : Context) : string :=
  match context with
  | ContextArgs => "args"
  | ContextReturns => "returns"
  | ContextInput => "input"
  | ContextOutput => "output"
  | ContextCodec => "codec"
  end.

Definition segmentString (segment : PathSegment) : string :=
  match segment with
  | PathKey key => key
  | PathIndex index => pretty index
  end.

(** [issue.path.join(".")] *)
Definition joinPath (segments : list PathSegment) : string :=
  String.concat "." (map segmentString segments).

Definition formatIssue (issue : ZodIssue) : FormattedIssue :=
  {| path := match issuePath issue with
             | Some segments => joinPath segments
             | None => ""
             end;
     code := issueCode issue;
     message := issueMessage issue |}.

Section Wrappers.

(** Zod's [schema.parse], the JSON snapshot of [error.flatten()], and the
  registry functions the codec reads *)
Variable parse : ZodType -> Value -> Outcome Value.
Variable flattenSnapshot : list ZodIssue -> Value.
Variable findBaseCodec : ZodType -> option BaseCodec.
Variable isDateSchema : ZodType -> bool.

Definition formatZodIssues (zodIssues : list ZodIssue)
  (context : option Context) : ValidationError :=
{| error := "ZodValidationError";
   context := contextTag <$> context;
   issues := map formatIssue zodIssues;
   flatten := flattenSnapshot zodIssues |}.

(** [handleZodValidationError]: it never returns. *)
Definition handleZodValidationError (e : Exception) (context : Context)
  : Exception :=
match e with
| ZodError zodIssues => ConvexError (formatZodIssues zodIssues (Some context))
| _ => e
end.

(** Whether [option.parse(value)] returns, for the union loops of the
  codec *)
Definition parses (schema : ZodType) (value : Value) : bool :=
match parse schema value with
| Return _ => true
| Throw _ => false
end.

(** The handler [zQuery] registers, for the schema [zodSchema] of the
  arguments and the optional schema [returns] of the result; [handler]
  is the user's function, awaited. *)
Definition zQueryHandler {Ctx : Type} (zodSchema : ZodType)
  (returns : option ZodType) (handler : Ctx -> Value -> Outcome Value)
  (ctx : Ctx) (argsObject : Value) : Outcome Value :=
let decoded := fromConvexJS findBaseCodec isDateSchema parses
                 argsObject zodSchema in
match parse zodSchema decoded with
| Throw e => Throw (handleZodValidationError e ContextArgs)
| Return parsed =>
    match handler ctx parsed with
    | Throw e => Throw e
    | Return raw =>
        match returns with
        | Some returnsSchema =>
            match parse returnsSchema raw with
            | Return validated =>
                Return (toConvexJS findBaseCodec parses
                          (TwoArguments returnsSchema validated))
            | Throw e => Throw (handleZodValidationError e ContextReturns)
            end
        | None => Return (toConvexJS findBaseCodec parses (OneArgument raw))
        end
    end
end.

End Wrappers.

(** ** [convexCodec] ([src/codec.ts]) *)

(** The keys given to [pick]: an array, or an object of flags *)
Inductive PickKeys : Type :=
| KeysArray (keys : list string)
| KeysRecord (flags : gmap string bool).

(** [keys.reduce((acc, k) => ({ ...acc, [k]: true }), {})] *)
Definition pickObject (keys : list string) : gmap string bool :=
  foldl (fun acc k => <[k := true]> acc) ∅ keys.

(** The object [convexCodec] returns: its validator, and the schema its
    [encode], [decode] and [pick] close over. *)
Record ConvexCodec : Type := {
  validator : ConvexOutput;
  codecSchema : ZodType
}.

Section ConvexCodec.

Variable isZid : ZodType -> bool.
Variable metadata : gmap nat Metadata.
Variable findBaseCodec : ZodType -> option BaseCodec.
Variable getters : gmap nat GetterOutcome.
Variable isDateSchema : ZodType -> bool.
Variable zodParse : ZodType -> Value -> bool.

(** Zod's [schema.pick(mask)] on an object schema *)
Variable zodPick : ZodType -> gmap string bool -> Outcome ZodType.

(** [convexCodec]: [zodToConvex(schema)] is called at once, and what it
  throws, [convexCodec] throws. *)
Definition convexCodec (schema : ZodType) : option (Outcome ConvexCodec) :=
match zodToConvex isZid metadata findBaseCodec getters (InputSchema schema)
with
| Some (Return validator) =>
    Some (Return {| validator := validator; codecSchema := schema |})
| Some (Throw e) => Some (Throw e)
| None => None
end.

Definition encode (codec : ConvexCodec) (value : Value) : Value :=
toConvexJS findBaseCodec zodParse (TwoArguments (codecSchema codec) value).

Definition decode (codec : ConvexCodec) (value : Value) : Value :=
fromConvexJS findBaseCodec isDateSchema zodParse value (codecSchema codec).

Definition pick (codec : ConvexCodec) (keys : PickKeys)
  : option (Outcome ConvexCodec) :=
match zdef (codecSchema codec) with
| ZObject _ =>
    let pickObj :=
      match keys with
      | KeysArray keys => pickObject keys
      | KeysRecord flags => flags
      end in
    match zodPick (codecSchema codec) pickObj with
    | Return pickedSchema => convexCodec pickedSchema
    | Throw e => Some (Throw e)
    end
| _ => Some (Throw (Error "pick() can only be called on object schemas"))
end.

End ConvexCodec.

(** ** The structure of schemas *)

(** The schemas a schema object holds *)
Definition children (def : ZodDef) : list ZodType :=
  match def with
  | ZArray element => [element]
  | ZObject shape => shape.*2
  | ZUnion options | ZDiscriminatedUnion _ options | ZTuple options => options
  | ZRecord keyType valueType => option_list keyType ++ option_list valueType
  | ZOptional inner | ZNullable inner
  | ZDefault inner _ | ZPrefault inner _ => [inner]
  | _ => []
  end.

(** ** Notions used to state the properties of the mapper *)

(** The schemas on whose behalf the getters were called *)
Definition heads (rs : list Resolution) : list nat := resolvedFor <$> rs.

(** The getter calls [new] of a stretch of the traversal that took the
    visited set from [before] to [after]: made for pairwise distinct
    schemas, all visited during that stretch. *)
Definition freshResolutions (before after : gset nat) (new : list Resolution)
    : Prop :=
  NoDup (heads new) ∧ ∀ h, h ∈ heads new → h ∈ after ∧ h ∉ before.

(** [st'] continues the traversal [st] *)
Definition continues (st st' : Traversal) : Prop :=
  visited st ⊆ visited st' ∧
  resolving st' = resolving st ∧
  ∃ new : list Resolution,
    resolutions st' = (resolutions st ++ new)%list ∧
    freshResolutions (visited st) (visited st') new.

(** A stretch of the traversal inside one call, whose own schema is
    already in [visited st] but not in [before] *)
Definition advances (before : gset nat) (st st' : Traversal) : Prop :=
  visited st ⊆ visited st' ∧
  resolving st' = resolving st ∧
  ∃ new : list Resolution,
    resolutions st' = (resolutions st ++ new)%list ∧
    freshResolutions before (visited st') new.

(** The schema objects of [U] the traversal has not visited *)
Definition unvisited (U : gset nat) (st : Traversal) : nat :=
  size (U ∖ visited st).

(** [rec] ends, returning or throwing, on every schema within [U] as
    long as fewer than [n] objects of [U] remain unvisited. *)
Definition returns (U : gset nat) (rec : Mapper) (n : nat) : Prop :=
  ∀ schema st,
    (∀ s, schema = Some s → nodeIds s ⊆ U) →
    (unvisited U st < n)%nat →
    ∃ outcome st', rec schema st = Some (outcome, st') ∧ continues st st'.

(** "A lazy resolver is invoked at most once per traversal path": no
    getter is called while the schema it returned earlier is still being
    mapped. *)
Definition oncePerPath (st : Traversal) : Prop :=
  ∀ r, r ∈ resolutions st → resolvedLazy r ∉ resolvedWithin r.

(** What the traversal does keep: the getters are called on behalf of
    pairwise distinct schemas, each of them visited. *)
Definition oncePerVisit (st : Traversal) : Prop :=
  NoDup (heads (resolutions st)) ∧
  ∀ r, r ∈ resolutions st → resolvedFor r ∈ visited st.

(** *** Records whose validator [v.record] accepts *)

(** The schema objects of a schema tree *)
Fixpoint parts (schema : ZodType) : list ZodType :=
  schema ::
  match schema with
  | Zod _ def =>
      match def with
      | ZArray element => parts element
      | ZObject shape =>
          mjoin (map (fun entry : string * ZodType =>
                        match entry with (_, s) => parts s end) shape)
      | ZUnion options | ZDiscriminatedUnion _ options
      | ZTuple options => mjoin (map parts options)
      | ZRecord keyType valueType =>
          match keyType with Some s => parts s | None => [] end ++
          match valueType with Some s => parts s | None => [] end
      | ZOptional inner | ZNullable inner
      | ZDefault inner _ | ZPrefault inner _ => parts inner
      | _ => []
      end
  end.

(** The schema objects that can be reached from [schema], through the
    getters of a table and the original schemas of the brands *)
Definition family (metadata : gmap nat Metadata)
    (getters : gmap nat GetterOutcome) (schema : option ZodType)
    : list ZodType :=
  match schema with Some s => parts s | None => [] end ++
  mjoin (map (fun outcome =>
                match outcome with
                | GetterReturns s => parts s
                | _ => []
                end) (map_to_list getters).*2) ++
  mjoin (map (fun m =>
                match originalSchema m with
                | Some s => parts s
                | None => []
                end) (map_to_list metadata).*2).

(** A schema that maps to a required validator by its kind: under a
    default wrapper, if it has one, it is no optional wrapper, no
    nullable wrapper around an optional one, and neither a lazy schema,
    a transform nor a pipe, whose validator is that of another schema or
    of a registered codec. *)
Definition mapsToRequired (schema : ZodType) : bool :=
  let inner :=
    match zdef schema with ZDefault inner _ => inner | _ => schema end in
  match zdef inner with
  | ZOptional _ | ZLazy _ | ZTransform | ZPipe => false
  | ZNullable inner' =>
      match zdef inner' with ZOptional _ => false | _ => true end
  | _ => true
  end.

(** An optional wrapper, possibly under a default or prefault wrapper:
    the value schemas of a record that [convertRecordType] turns into a
    union with null *)
Definition optionalUnderDefault (schema : ZodType) : bool :=
  match zdef schema with
  | ZOptional _ => true
  | ZDefault inner _ | ZPrefault inner _ =>
      match zdef inner with ZOptional _ => true | _ => false end
  | _ => false
  end.

(** Every record schema among [schemas] has a value schema that is
    optional, possibly under a default, or maps to a required validator
    by its kind. *)
Definition recordValuesFit (schemas : list ZodType) : bool :=
  forallb
    (fun s =>
       match zdef s with
       | ZRecord keyType valueType =>
           match valueType, keyType with
           | Some value, _ | None, Some value =>
               optionalUnderDefault value || mapsToRequired value
           | None, None => true
           end
       | _ => true
       end) schemas.

(** The one error the mapper may throw: that of [v.record] *)
Definition optionalRecordValues : Exception :=
  Error "Record validator cannot have optional values".

(** A stretch of the traversal that throws nothing but [e0], and one
    that does not throw *)
Definition throwsOnly (e0 : Exception) {A} (r : Run A) : Prop :=
  ∀ e st, r = Some (Throw e, st) → e = e0.

Definition neverThrows {A} (r : Run A) : Prop :=
  ∀ outcome st, r = Some (outcome, st) → ∃ a, outcome = Return a.

(** On the schemas of [P], [rec] does not throw; on the schemas that map
    to a required validator by their kind, what it returns is one. *)
Definition returnsOn (P : ZodType → Prop) (rec : Mapper) : Prop :=
  ∀ schema st outcome st',
    (∀ s, schema = Some s → P s) →
    rec schema st = Some (outcome, st') → ∃ validator, outcome = Return validator.

Definition requiredOn (rec : Mapper) : Prop :=
  ∀ schema st validator st',
    mapsToRequired schema = true →
    rec (Some schema) st = Some (Return validator, st') →
    isOptionalValidator validator = false.

(** *** Optional fields *)

(** The schema under its default wrapper, if it has one *)
Definition underDefault (schema : ZodType) : ZodType :=
  match zdef schema with
  | ZDefault inner _ => inner
  | _ => schema
  end.

Definition isOptionalSchema (schema : ZodType) : bool :=
  match zdef schema with ZOptional _ => true | _ => false end.

(** The [x] of a [nullable(optional(x))] *)
Definition nullableOverOptional (schema : ZodType) : option ZodType :=
  match zdef schema with
  | ZNullable inner =>
      match zdef inner with
      | ZOptional innerInner => Some innerInner
      | _ => None
      end
  | _ => None
  end.

(** "A field marked optional in the schema": an optional wrapper, or a
    nullable wrapper around one, possibly under a default. *)
Definition markedOptional (schema : ZodType) : bool :=
  isOptionalSchema (underDefault schema) ||
  bool_decide (is_Some (nullableOverOptional (underDefault schema))).

(** Schemas whose validator is that of another schema or of a registered
    codec: lazy schemas, transforms and pipes. *)
Definition delegates (schema : ZodType) : bool :=
  match zdef schema with
  | ZLazy _ | ZTransform | ZPipe => true
  | _ => false
  end.

(** The visited set when the loop over [fields] reaches position [i] *)
Definition visitedBefore {K : Type} (rec : Mapper)
    (fields : list (K * ZodType)) (st : Traversal) (i : nat)
    : option (gset nat) :=
  match mapEntries rec (take i fields) st with
  | Some (_, st') => Some (visited st')
  | None => None
  end.

(** How the validator [w] of a field reflects the wrappers of its schema
    [s]: optional when [s] is an optional wrapper; required when [s] is
    not marked optional (and does not stand for another schema); and for
    [nullable(optional(x))] an optional validator over the union of the
    validator of [x] and null. *)
Definition fieldOptionality (isZid : ZodType -> bool) (internal : nat -> Mapper)
    (s : ZodType) (w : Validator) : Prop :=
  (isOptionalSchema (underDefault s) = true → isOptionalValidator w = true) ∧
  (markedOptional s = false → delegates (underDefault s) = false →
     isOptionalValidator w = false) ∧
  (∀ x, nullableOverOptional (underDefault s) = Some x →
        isZid (underDefault s) = false →
        ∃ inner fuel st st',
          internal fuel (Some x) st = Some (Return inner, st') ∧
          vkind w = KUnion [inner; v.null] ∧
          isOptionalValidator w = true).

(** *** Defaults *)

(** The default values carried by the wrappers of a field's schema: the
    one of its default wrapper and the one of a default wrapper right
    under its optional wrapper. *)
Definition carriedDefaults (schema : ZodType) : list Value :=
  match zdef schema with
  | ZDefault inner d =>
      d :: match zdef inner with
           | ZOptional inner' =>
               match zdef inner' with ZDefault _ d' => [d'] | _ => [] end
           | _ => []
           end
  | ZOptional inner =>
      match zdef inner with ZDefault _ d => [d] | _ => [] end
  | _ => []
  end.

(** A field treated as required-with-metadata: its validator carries one
    of the defaults of the schema as [_zodDefault], and is a required
    validator unless the schema is marked optional by an optional
    wrapper. *)
Definition requiredWithMetadata (schema : ZodType) (validator : Validator)
    : Prop :=
  (∃ d, zodDefault validator = Some d ∧ d ∈ carriedDefaults schema) ∧
  (markedOptional schema = false → delegates (underDefault schema) = false →
     isOptionalValidator validator = false).

(** *** Records *)

(** "The record's value schema is itself optional", possibly under a
    default: the schema under the wrappers and the default kept. *)
Definition optionalRecordValue (valueType : ZodType)
    : option (ZodType * option Value) :=
  match zdef valueType with
  | ZOptional inner => Some (inner, None)
  | ZDefault innerFromDefault d | ZPrefault innerFromDefault d =>
      match zdef innerFromDefault with
      | ZOptional inner => Some (inner, Some d)
      | _ => None
      end
  | _ => None
  end.

(** The value schema the record validator is built from, and the value
    validator built from its validator [w] *)
Definition recordValueSchema (valueType : ZodType) : ZodType :=
  match optionalRecordValue valueType with
  | Some (inner, _) => inner
  | None => valueType
  end.

Definition recordValueValidator (valueType : ZodType) (w : Validator)
    : Validator :=
  match optionalRecordValue valueType with
  | Some (_, Some d) => setZodDefault d (v.union [w; v.null])
  | Some (_, None) => v.union [w; v.null]
  | None => w
  end.

(** ** Notions used to state the properties of the codec *)

(** A schema classified as a date: [z.date()], possibly under optional,
    nullable and default wrappers *)
Fixpoint dateClassified (schema : ZodType) : bool :=
  match schema with
  | Zod _ def =>
      match def with
      | ZDate => true
      | ZOptional inner | ZNullable inner
      | ZDefault inner _ | ZPrefault inner _ => dateClassified inner
      | _ => false
      end
  end.

(** No base codec is registered for the schema or for a schema under its
    wrappers, so that the generic rules of the codec apply to it. *)
Fixpoint unregistered (findBaseCodec : ZodType -> option BaseCodec)
    (schema : ZodType) : bool :=
  bool_decide (findBaseCodec schema = None) &&
  match schema with
  | Zod _ def =>
      match def with
      | ZOptional inner | ZNullable inner
      | ZDefault inner _ | ZPrefault inner _ =>
          unregistered findBaseCodec inner
      | _ => true
      end
  end.

(** A base codec that converts a date to its time value and a number to
    the date at that time, as the generic rules of the codec do *)
Definition convertsDates (codec : BaseCodec) (schema : ZodType) : Prop :=
  (∀ t, toConvex codec (JDate t) schema = JNum (getTime t)) ∧
  (∀ n, fromConvex codec (JNum n) schema = newDate n).

(** The base codec the codec meets first, on the schema or under its
    wrappers, if it meets one, converts dates. *)
Fixpoint overridesConvertDates (findBaseCodec : ZodType -> option BaseCodec)
    (schema : ZodType) : Prop :=
  match findBaseCodec schema with
  | Some codec => convertsDates codec schema
  | None =>
      match schema with
      | Zod _ def =>
          match def with
          | ZOptional inner | ZNullable inner
          | ZDefault inner _ | ZPrefault inner _ =>
              overridesConvertDates findBaseCodec inner
          | _ => True
          end
      end
  end.

Definition isWrapper (schema : ZodType) : bool :=
  match zdef schema with
  | ZOptional _ | ZNullable _ | ZDefault _ _ | ZPrefault _ _ => true
  | _ => false
  end.

(** The schemas under which the codec goes through the parts of a
    value *)
Definition isStructural (schema : ZodType) : bool :=
  match zdef schema with
  | ZArray _ | ZObject _ | ZUnion _ | ZDiscriminatedUnion _ _
  | ZRecord _ _ => true
  | _ => false
  end.

(** A date that [z.date()] accepts *)
Definition validDate (t : option Z) : bool :=
  match t with
  | Some ms => Z.abs ms <=? maxTime
  | None => false
  end.

#[global] Instance number_eq_dec : EqDecision number.
Proof. solve_decision. Defined.

Definition literalMatches (l : Literal) (value : Value) : bool :=
  match l, value with
  | LitStr s, JStr s' => String.eqb s s'
  | LitNum n, JNum n' => bool_decide (n = n')
  | LitBool b, JBool b' => Bool.eqb b b'
  | LitBigInt z, JBigInt z' => Z.eqb z z'
  | LitNull, JNull => true
  | LitUndefined, JUndefined => true
  | _, _ => false
  end.

(** [props[k]] *)
Definition getProperty (props : list (string * Value)) (k : string)
    : option Value :=
  snd <$> List.find (fun entry => String.eqb k entry.1) props.

(** The values a schema describes, objects read strictly: an object
    value holds no key outside the shape (Zod's own [parse] lets such
    keys pass). Lazy schemas, transforms, pipes and intersections are
    left out. *)
Fixpoint conforms (schema : ZodType) (value : Value) {struct schema} : bool :=
  match schema with
  | Zod _ def =>
      match def with
      | ZString => match value with JStr _ => true | _ => false end
      | ZNumber =>
          match value with
          | JNum (NumInt _) | JNum (NumFrac _ _) => true
          | _ => false
          end
      | ZBigInt => match value with JBigInt _ => true | _ => false end
      | ZBoolean => match value with JBool _ => true | _ => false end
      | ZDate => match value with JDate t => validDate t | _ => false end
      | ZNull => match value with JNull => true | _ => false end
      | ZNaN => match value with JNum NumNaN => true | _ => false end
      | ZAny | ZUnknown => true
      | ZUndefined | ZVoid => isUndefined value
      | ZLiteral l => literalMatches l value
      | ZEnum options =>
          match value with
          | JStr s => bool_decide (s ∈ options)
          | _ => false
          end
      | ZArray element =>
          match value with
          | JArr items => forallb (conforms element) items
          | _ => false
          end
      | ZTuple schemas =>
          match value with
          | JArr items =>
              (fix zip (ss : list ZodType) (xs : list Value) : bool :=
                 match ss, xs with
                 | [], [] => true
                 | s :: ss, x :: xs => conforms s x && zip ss xs
                 | _, _ => false
                 end) schemas items
          | _ => false
          end
      | ZObject shape =>
          match value with
          | JObj props =>
              forallb
                (fun entry : string * Value =>
                   match List.find (fun field => String.eqb entry.1 field.1)
                           (map (fun field =>
                                   match field with
                                   | (k, s) => (k, conforms s)
                                   end) shape)
                   with
                   | Some field => field.2 entry.2
                   | None => false
                   end) props &&
              forallb
                (fun field : string * (Value -> bool) =>
                   match getProperty props field.1 with
                   | Some _ => true
                   | None => field.2 JUndefined
                   end)
                (map (fun field =>
                        match field with (k, s) => (k, conforms s) end) shape)
          | _ => false
          end
      | ZRecord _ (Some valueType) =>
          match value with
          | JObj props =>
              forallb (fun entry : string * Value =>
                         conforms valueType entry.2) props
          | _ => false
          end
      | ZUnion options | ZDiscriminatedUnion _ options =>
          existsb (fun option => conforms option value) options
      | ZOptional inner | ZDefault inner _ | ZPrefault inner _ =>
          isUndefined value || conforms inner value
      | ZNullable inner =>
          match value with JNull => true | _ => conforms inner value end
      | _ => false
      end
  end.

(** No object inside the value has a key whose value is [undefined]. *)
Fixpoint definedProperties (value : Value) : bool :=
  match value with
  | JArr items => forallb definedProperties items
  | JObj props =>
      forallb (fun entry : string * Value =>
                 negb (isUndefined entry.2) && definedProperties entry.2) props
  | _ => true
  end.

(** No object inside the value has a key named ["__proto__"]. *)
Fixpoint assignableKeys (value : Value) : bool :=
  match value with
  | JArr items => forallb assignableKeys items
  | JObj props =>
      forallb (fun entry : string * Value =>
                 assignable entry.1 && assignableKeys entry.2) props
  | _ => true
  end.

(** The values of which the round trip is stated: no undefined-valued
    key and no key named ["__proto__"] in them. *)
Definition kept (value : Value) : bool :=
  definedProperties value && assignableKeys value.

(** A union is unambiguous when, for every value that one of its options
    describes, the first option whose [parse] accepts the value describes
    it, and no option placed before it accepts its own decoding of what
    the value encodes to. *)
Definition unambiguous (findBaseCodec : ZodType -> option BaseCodec)
    (isDateSchema : ZodType -> bool) (zodParse : ZodType -> Value -> bool)
    (options : list ZodType) : Prop :=
  ∀ value,
    isNullish value = false →
    existsb (fun option => conforms option value) options = true →
    kept value = true →
    ∃ before option after,
      options = (before ++ option :: after)%list ∧
      Forall (fun o => zodParse o value = false) before ∧
      zodParse option value = true ∧
      conforms option value = true ∧
      Forall (fun o =>
                zodParse o
                  (fromConvexJS findBaseCodec isDateSchema zodParse
                     (schemaToConvex findBaseCodec zodParse value option) o)
                = false) before.

(** The schemas on which the codec has a rule in both directions: a
    registered base codec, or primitives, dates, literals, enums, arrays,
    objects, records, unambiguous unions and the optional, nullable and
    default wrappers over such schemas. Tuples, lazy schemas, transforms
    and pipes without a registered codec, [any] and [unknown] are not
    among them. *)
Fixpoint symmetric (findBaseCodec : ZodType -> option BaseCodec)
    (isDateSchema : ZodType -> bool) (zodParse : ZodType -> Value -> bool)
    (schema : ZodType) {struct schema} : Prop :=
  match findBaseCodec schema with
  | Some _ => True
  | None =>
      match schema with
      | Zod _ def =>
          match def with
          | ZString | ZNumber | ZBigInt | ZBoolean | ZDate | ZNull | ZNaN
          | ZLiteral _ | ZEnum _ => True
          | ZArray element =>
              symmetric findBaseCodec isDateSchema zodParse element
          | ZObject shape =>
              (fix all (fields : list (string * ZodType)) : Prop :=
                 match fields with
                 | [] => True
                 | (_, s) :: rest =>
                     symmetric findBaseCodec isDateSchema zodParse s ∧ all rest
                 end) shape
          | ZRecord _ (Some valueType) =>
              symmetric findBaseCodec isDateSchema zodParse valueType
          | ZUnion options | ZDiscriminatedUnion _ options =>
              (fix all (schemas : list ZodType) : Prop :=
                 match schemas with
                 | [] => True
                 | s :: rest =>
                     symmetric findBaseCodec isDateSchema zodParse s ∧ all rest
                 end) options ∧
              unambiguous findBaseCodec isDateSchema zodParse options
          | ZOptional inner | ZNullable inner
          | ZDefault inner _ | ZPrefault inner _ =>
              symmetric findBaseCodec isDateSchema zodParse inner
          | _ => False
          end
      end
  end.

(** The registered base codecs decode what they encode. *)
Definition codecsInvert (findBaseCodec : ZodType -> option BaseCodec) : Prop :=
  ∀ schema codec value,
    findBaseCodec schema = Some codec →
    conforms schema value = true →
    isNullish value = false →
    isNullish (toConvex codec value schema) = false ∧
    fromConvex codec (toConvex codec value schema) schema = value.

(** Decoding what a value encodes to gives the value back, for the values
    the schema describes that hold no undefined-valued key and no key
    named ["__proto__"]. *)
Definition roundTrips (findBaseCodec : ZodType -> option BaseCodec)
    (isDateSchema : ZodType -> bool) (zodParse : ZodType -> Value -> bool)
    (schema : ZodType) : Prop :=
  ∀ value,
    symmetric findBaseCodec isDateSchema zodParse schema →
    conforms schema value = true →
    kept value = true →
    fromConvexJS findBaseCodec isDateSchema zodParse
      (schemaToConvex findBaseCodec zodParse value schema) schema = value.

(** ** Concrete schemas and values used below *)

Module Examples.

(** An empty registry, no Convex ids, and Zod's validation left open
    where it plays no part *)
Definition noZid : ZodType -> bool := fun _ => false.
Definition noCodec : ZodType -> option BaseCodec := fun _ => None.
Definition noMetadata : gmap nat Metadata := ∅.
Definition noGetters : gmap nat GetterOutcome := ∅.

(** [const Node = z.lazy(() => Tree);
     const Tree = z.object({ next: Node.optional() });
     const Root = Node.optional()] *)
Definition Node : ZodType := Zod 1 (ZLazy (Some 0%nat)).
Definition Tree : ZodType :=
  Zod 2 (ZObject [("next", Zod 3 (ZOptional Node))]).
Definition Root : ZodType := Zod 4 (ZOptional Node).
Definition treeGetters : gmap nat GetterOutcome :=
  {[ 0%nat := GetterReturns Tree ]}.

(** [const Fresh = z.lazy(() => z.object({ next: Fresh.optional() }))]:
    the getter builds an object schema and an optional wrapper at every
    call *)
Definition Fresh : ZodType := Zod 1 (ZLazy (Some 0%nat)).
Definition freshObject (n : nat) : ZodType :=
  Zod (2 * n + 10)
    (ZObject [("next", Zod (2 * n + 11) (ZOptional Fresh))]).
Definition freshGetters : Getters := fun _ n => GetterReturns (freshObject n).

(** [z.record(z.string(), z.lazy(() => z.string().optional()))] and
    [z.record(z.string(), z.string().optional().nullable())] *)
Definition lazyOptional : ZodType := Zod 2 (ZLazy (Some 0%nat)).
Definition lazyOptionalGetters : gmap nat GetterOutcome :=
  {[ 0%nat := GetterReturns (Zod 3 (ZOptional (Zod 4 ZString))) ]}.
Definition recordOfLazy : ZodType :=
  Zod 0 (ZRecord (Some (Zod 1 ZString)) (Some lazyOptional)).
Definition recordOfNullable : ZodType :=
  Zod 0 (ZRecord (Some (Zod 1 ZString))
           (Some (Zod 2 (ZNullable (Zod 3 (ZOptional (Zod 4 ZString))))))).

(** [const Nick = z.lazy(() => z.string().optional());
     z.object({ nick: Nick, nicks: z.record(z.string(), Nick) })] *)
Definition Nicknames : ZodType :=
  Zod 10 (ZObject [("nick", lazyOptional); ("nicks", recordOfLazy)]).

(** [const name = z.string().optional();
     const Person = z.object({ first: name, last: name })] *)
Definition name : ZodType := Zod 1 (ZOptional (Zod 2 ZString)).
Definition Person : ZodType :=
  Zod 0 (ZObject [("first", name); ("last", name)]).

(** [z.object({ nick: z.string().nullable().optional(),
                alias: z.string().optional().nullable(),
                age: z.number() })] *)
Definition Profile : ZodType :=
  Zod 0 (ZObject
    [("nick", Zod 1 (ZOptional (Zod 2 (ZNullable (Zod 3 ZString)))));
     ("alias", Zod 4 (ZNullable (Zod 5 (ZOptional (Zod 6 ZString)))));
     ("age", Zod 7 ZNumber)]).

(** [z.number().default(0)] *)
Definition count : ZodType :=
  Zod 4 (ZDefault (Zod 5 ZNumber) (JNum (NumInt 0))).

(** [z.object({ hits: count, misses: count })] *)
Definition Counters : ZodType :=
  Zod 0 (ZObject [("hits", count); ("misses", count)]).

(** [z.record(z.string(), z.number().optional().default(0))] *)
Definition scoresWithDefault : ZodType :=
  Zod 1 (ZRecord (Some (Zod 2 ZString))
           (Some (Zod 3 (ZDefault (Zod 4 (ZOptional (Zod 5 ZNumber)))
                           (JNum (NumInt 0)))))).

(** Zod's validation of the schemas [conforms] covers: an object may
    hold keys outside the shape, and [undefined] under a prefault is
    the prefault value; no schema is a date but the date-classified
    ones *)
Fixpoint zodAccepts (schema : ZodType) (value : Value) {struct schema}
    : bool :=
  match schema with
  | Zod _ def =>
      match def with
      | ZObject shape =>
          match value with
          | JObj props =>
              forallb
                (fun entry : string * Value =>
                   match List.find (fun field => String.eqb entry.1 field.1)
                           (map (fun field =>
                                   match field with
                                   | (k, s) => (k, zodAccepts s)
                                   end) shape)
                   with
                   | Some field => field.2 entry.2
                   | None => true
                   end) props &&
              forallb
                (fun field : string * (Value -> bool) =>
                   match getProperty props field.1 with
                   | Some _ => true
                   | None => field.2 JUndefined
                   end)
                (map (fun field =>
                        match field with (k, s) => (k, zodAccepts s) end)
                     shape)
          | _ => false
          end
      | ZArray element =>
          match value with
          | JArr items => forallb (zodAccepts element) items
          | _ => false
          end
      | ZRecord _ (Some valueType) =>
          match value with
          | JObj props =>
              forallb (fun entry : string * Value =>
                         zodAccepts valueType entry.2) props
          | _ => false
          end
      | ZUnion options | ZDiscriminatedUnion _ options =>
          existsb (fun option => zodAccepts option value) options
      | ZOptional inner | ZDefault inner _ =>
          isUndefined value || zodAccepts inner value
      | ZPrefault inner d =>
          if isUndefined value then zodAccepts inner d
          else zodAccepts inner value
      | ZNullable inner =>
          match value with JNull => true | _ => zodAccepts inner value end
      | ZTuple schemas =>
          match value with
          | JArr items =>
              (fix zip (ss : list ZodType) (xs : list Value) : bool :=
                 match ss, xs with
                 | [], [] => true
                 | s :: ss, x :: xs => zodAccepts s x && zip ss xs
                 | _, _ => false
                 end) schemas items
          | _ => false
          end
      | _ => conforms schema value
      end
  end.
Definition datesOnly : ZodType -> bool := dateClassified.

(** [z.date()] and [new Date("2024-01-01T00:00:00.000Z")] *)
Definition dateSchema : ZodType := Zod 0 ZDate.
Definition newYear2024 : Value := JDate (Some (dateUTC 2024 1 1 0 0 0 0)).

(** A registry that holds, for [z.date()], a codec that converts dates
    as the generic rules do, and one that holds a codec that writes a
    date as a string and reads nothing back *)
Definition timeCodec : BaseCodec :=
  {| toValidator := fun _ => v.float64;
     toConvex := fun value _ =>
       match value with JDate t => JNum (getTime t) | _ => value end;
     fromConvex := fun value _ =>
       match value with JNum n => newDate n | _ => value end |}.
Definition textCodec : BaseCodec :=
  {| toValidator := fun _ => v.string;
     toConvex := fun value _ =>
       match value with JDate _ => JStr "a date" | _ => value end;
     fromConvex := fun value _ => value |}.
Definition onDates (codec : BaseCodec) (schema : ZodType)
    : option BaseCodec :=
  match zdef schema with ZDate => Some codec | _ => None end.

(** [z.union([z.string(), z.number()])] and
    [z.union([z.string(), z.date()])] *)
Definition stringOrNumber : ZodType :=
  Zod 0 (ZUnion [Zod 1 ZString; Zod 2 ZNumber]).
Definition stringOrDate : ZodType :=
  Zod 0 (ZUnion [Zod 1 ZString; Zod 2 ZDate]).

(** [z.object({ a: z.number() })], [{ a: 1, b: undefined }] and
    [{ a: 1, seen: new Date("2024-01-01T00:00:00.000Z") }] *)
Definition onlyA : ZodType := Zod 0 (ZObject [("a", Zod 1 ZNumber)]).
Definition withUndefined : Value :=
  JObj [("a", JNum (NumInt 1)); ("b", JUndefined)].
Definition withExtraDate : Value :=
  JObj [("a", JNum (NumInt 1)); ("seen", newYear2024)].
Definition withExtraString : Value :=
  JObj [("a", JNum (NumInt 1)); ("note", JStr "kept")].

(** [{a: 1, ["__proto__"]: "kept"}], an object with an own property of
    that name, as [JSON.parse] builds it *)
Definition withOwnProto : Value :=
  JObj [("a", JNum (NumInt 1)); ("__proto__", JStr "kept")].

(** [z.record(z.string(), z.string())] and
    [{a: "kept", ["__proto__"]: "lost"}] *)
Definition stringRecord : ZodType :=
  Zod 0 (ZRecord (Some (Zod 1 ZString)) (Some (Zod 2 ZString))).
Definition recordWithProto : Value :=
  JObj [("a", JStr "kept"); ("__proto__", JStr "lost")].

(** [z.tuple([z.date()])] and [[new Date("2024-01-01T00:00:00.000Z")]] *)
Definition dateTuple : ZodType := Zod 0 (ZTuple [Zod 1 ZDate]).
Definition dateTupleValue : Value := JArr [newYear2024].

(** [z.object({ a: z.number(), b: z.number().optional() })] *)
Definition optionalB : ZodType :=
  Zod 0 (ZObject [("a", Zod 1 ZNumber);
                   ("b", Zod 2 (ZOptional (Zod 3 ZNumber)))]).

(** [z.object({ when: z.date(), tags: z.array(z.string()),
                seen: z.record(z.string(), z.date().nullable()),
                id: z.union([z.string(), z.boolean()]) })] and a value
    of it *)
Definition Event : ZodType :=
  Zod 0 (ZObject
    [("when", Zod 1 ZDate);
     ("tags", Zod 2 (ZArray (Zod 3 ZString)));
     ("seen", Zod 4 (ZRecord (Some (Zod 5 ZString))
                       (Some (Zod 6 (ZNullable (Zod 7 ZDate))))));
     ("id", Zod 8 (ZUnion [Zod 9 ZString; Zod 10 ZBoolean]))]).
Definition event : Value :=
  JObj [("when", newYear2024);
        ("tags", JArr [JStr "a"; JStr "b"]);
        ("seen", JObj [("ann", newYear2024); ("bob", JNull)]);
        ("id", JBool true)].

(** A Zod that rejects every value but a string, with one issue at
    [items[0].name] *)
Definition nameIssue : ZodIssue :=
  {| issuePath := Some [PathKey "items"; PathIndex 0; PathKey "name"];
     issueCode := "invalid_type";
     issueMessage := "Invalid input: expected string" |}.
Definition stringsOnly (schema : ZodType) (value : Value) : Outcome Value :=
  match value with
  | JStr _ => Return value
  | _ => Throw (ZodError [nameIssue])
  end.
Definition noFlatten (zodIssues : list ZodIssue) : Value := JObj [].
Definition answer (ctx : unit) (args : Value) : Outcome Value :=
  Return (JNum (NumInt 42)).

(** A Zod [pick] that keeps the fields whose flag is set *)
Definition keepFlagged (schema : ZodType) (mask : gmap string bool)
    : Outcome ZodType :=
  match schema with
  | Zod id (ZObject shape) =>
      Return (Zod (S id)
                (ZObject (List.filter
                            (fun field : string * ZodType =>
                               default false (mask !! field.1)) shape)))
  | _ => Throw (OtherException "not an object")
  end.

End Examples.

(** ** Notions used to state further properties of the codec *)

(** A value as Convex stores it, as far as the codec goes: no [Date]
    anywhere in it, and no object key whose value is [undefined]. *)
Fixpoint convexSafe (value : Value) : bool :=
  match value with
  | JDate _ => false
  | JArr items => forallb convexSafe items
  | JObj props =>
      forallb (fun entry : string * Value =>
                 negb (isUndefined entry.2) && convexSafe entry.2) props
  | _ => true
  end.

(** A string, a boolean, a number or a bigint *)
Definition isPrimitive (value : Value) : bool :=
  match value with
  | JBool _ | JNum _ | JStr _ | JBigInt _ => true
  | _ => false
  end.

Definition isNumber (value : Value) : bool :=
  match value with JNum _ => true | _ => false end.

(** The registered base codecs give, for a value that is neither [null]
    nor [undefined] and that the validation of their schema accepts, a
    value Convex can store. *)
Definition codecsSafe (findBaseCodec : ZodType -> option BaseCodec)
    (zodParse : ZodType -> Value -> bool) : Prop :=
  ∀ schema codec value,
    findBaseCodec schema = Some codec →
    isNullish value = false →
    zodParse schema value = true →
    convexSafe (toConvex codec value schema) = true ∧
    isUndefined (toConvex codec value schema) = false.

(** What the validation of a schema accepts, it accepts part by part: an
    array schema accepts arrays only, and their items under the element
    schema; an object schema accepts a value only with each defined
    property, of a key other than [__proto__], that the shape names,
    under the schema of the shape; a record schema, with each such
    property under the value schema; and an optional, nullable or
    default wrapper accepts a value that is neither [null] nor
    [undefined] only under the schema it wraps. *)
Definition parseDescends (zodParse : ZodType -> Value -> bool) : Prop :=
  (∀ id element value,
     zodParse (Zod id (ZArray element)) value = true →
     ∃ items, value = JArr items ∧
              Forall (fun item => zodParse element item = true) items) ∧
  (∀ id shape value k x s,
     zodParse (Zod id (ZObject shape)) value = true →
     (k, x) ∈ entries value → assignable k = true →
     isUndefined x = false → shapeLookup shape k = Some s →
     zodParse s x = true) ∧
  (∀ id keyType valueType value k x,
     zodParse (Zod id (ZRecord keyType (Some valueType))) value = true →
     (k, x) ∈ entries value → assignable k = true →
     isUndefined x = false →
     zodParse valueType x = true) ∧
  (∀ id def inner value,
     match def with
     | ZOptional i | ZNullable i | ZDefault i _ | ZPrefault i _ => i = inner
     | _ => False
     end →
     zodParse (Zod id def) value = true →
     isNullish value = false →
     zodParse inner value = true).

(** ** Notions used to state further properties of the mapper *)

(** A stretch of the traversal, run from the visited set of [stA], only
    adds to the set; and run from that set with the schema objects [E]
    added, none of which it visits, it comes to the same, returning or
    throwing, and leaves the set it left with [E] added. *)
Definition framedRun (E : gset nat) (stA : Traversal) {A : Type}
    (rA rB : Run A) : Prop :=
  ∀ outcome stA',
    rA = Some (outcome, stA') →
    visited stA ⊆ visited stA' ∧
    (E ## visited stA' →
     ∃ stB', rB = Some (outcome, stB') ∧ visited stB' = visited stA' ∪ E).

(** The recursive call [rec'] does, from a larger visited set, what
    [rec] does. *)
Definition framed (rec rec' : Mapper) : Prop :=
  ∀ schema stA stB (E : gset nat),
    visited stB = visited stA ∪ E →
    framedRun E stA (rec schema stA) (rec' schema stB).

Section Footprint.

Variable isZid : ZodType -> bool.
Variable metadata : gmap nat Metadata.
Variable findBaseCodec : ZodType -> option BaseCodec.
Variable getters : gmap nat GetterOutcome.

(** The schema objects in the visited set once [schema] has been mapped
    on its own: those [zodToConvexInternal] was called on, and neither
    the wrappers taken off in place nor what a schema visited earlier
    would have led to. *)
Definition footprint (schema : ZodType) : gset nat :=
  match zodToConvexSchema isZid metadata findBaseCodec getters (Some schema)
  with
  | Some (_, st) => visited st
  | None => ∅
  end.

End Footprint.

(** No two of the sets share an element. *)
Fixpoint unshared (sets : list (gset nat)) : bool :=
  match sets with
  | [] => true
  | X :: rest =>
      forallb (fun Y => bool_decide (X ## Y)) rest && unshared rest
  end.

(** ** Custom types in a schema ([src/wrappers.ts]) *)

Section ContainsCustom.

(** [(schema as any)._def?.typeName], a property that is read off
    whatever object is passed; the schemas of Zod 4 have none *)
Variable typeName : ZodType -> option string.

(** [(schema as any)._def?.typeName === "ZodCustom"] *)
Definition isCustom (schema : ZodType) : bool :=
  match typeName schema with
  | Some name => String.eqb name "ZodCustom"
  | None => false
  end.

(** [containsCustom], with [customCheckCache], a [WeakMap] keyed by the
    schema objects, passed along: the answer and the cache after the
    call. [some] stops at the first option that answers [true]; a
    discriminated union is an instance of [z.ZodUnion]. *)
Fixpoint containsCustom (maxDepth currentDepth : nat) (schema : ZodType)
    (cache : gmap nat bool) {struct schema} : bool * gmap nat bool :=
  match cache !! zid schema with
  | Some cached => (cached, cache)
  | None =>
      if (maxDepth <? currentDepth)%nat then (false, cache)
      else
        let '(result, cache) :=
          if isCustom schema then (true, cache)
          else
            match schema with
            | Zod _ def =>
                match def with
                | ZUnion options | ZDiscriminatedUnion _ options =>
                    (fix some (opts : list ZodType) (cache : gmap nat bool)
                       : bool * gmap nat bool :=
                       match opts with
                       | [] => (false, cache)
                       | opt :: rest =>
                           let '(found, cache) :=
                             containsCustom maxDepth (S currentDepth)
                               opt cache in
                           if found then (true, cache) else some rest cache
                       end) options cache
                | ZOptional inner | ZNullable inner
                | ZDefault inner _ | ZPrefault inner _ =>
                    containsCustom maxDepth (S currentDepth) inner cache
                | _ => (false, cache)
                end
            end in
        (result, <[zid schema := result]> cache)
  end.

(** Whether a custom type sits in the schema under unions and optional,
    nullable and default wrappers, which is where [containsCustom]
    looks *)
Fixpoint holdsCustom (schema : ZodType) : bool :=
  isCustom schema ||
  match schema with
  | Zod _ def =>
      match def with
      | ZUnion options | ZDiscriminatedUnion _ options =>
          existsb holdsCustom options
      | ZOptional inner | ZNullable inner
      | ZDefault inner _ | ZPrefault inner _ => holdsCustom inner
      | _ => false
      end
  end.

End ContainsCustom.

(** The schemas [containsCustom] may look at from [schema]: the schema,
    the options of a union and the schema under a wrapper, and so on *)
Fixpoint probed (schema : ZodType) : list ZodType :=
  schema ::
  match schema with
  | Zod _ def =>
      match def with
      | ZUnion options | ZDiscriminatedUnion _ options =>
          mjoin (map probed options)
      | ZOptional inner | ZNullable inner
      | ZDefault inner _ | ZPrefault inner _ => probed inner
      | _ => []
      end
  end.

(** Within [schemas], a schema object is one schema. *)
Definition identified (schemas : list ZodType) : Prop :=
  ∀ s s', s ∈ schemas → s' ∈ schemas → zid s = zid s' → s = s'.

(** The cache entries that say [true] about the schemas in [schemas]
    are right. *)
Definition positivesRight (typeName : ZodType -> option string)
    (schemas : list ZodType) (cache : gmap nat bool) : Prop :=
  ∀ s, s ∈ schemas → cache !! zid s = Some true →
       holdsCustom typeName s = true.

(** ** Picking ([src/utils.ts]) *)

Module utils.

(** An object made by [{}] and assigned to: its own properties, and the
    object or [null] an assignment to [__proto__] has put in the place
    of [Object.prototype], if one has. *)
Record Picked (V : Type) : Type := {
  own : gmap string V;
  prototype : option V
}.
Arguments own {V} _.
Arguments prototype {V} _.

Section Picking.

(** The values of the properties, and the properties an object has
    through its prototype chain: [key in obj] sees them, and [obj[key]]
    reads them when the object has no property of its own by that
    name. Objects are taken as maps from their own string keys.
    [isObjectOrNull] tells the values that can be a prototype. *)
Context {V : Type}.
Variable inherited : string -> option V.
Variable isObjectOrNull : V -> bool.

(** [obj[key]], for a [key in obj] *)
Definition read (obj : gmap string V) (key : string) : option V :=
  match obj !! key with
  | Some value => Some value
  | None => inherited key
  end.

(** [{}] *)
Definition emptyObject : Picked V := {| own := ∅; prototype := None |}.

(** [result[key] = value] on an object made by [{}]: an assignment to
    [__proto__] goes to the setter of [Object.prototype], which adds no
    property and replaces the prototype of [result] when the value is
    an object or [null]. *)
Definition assign (key : string) (value : V) (result : Picked V)
    : Picked V :=
  if String.eqb key "__proto__" then
    if isObjectOrNull value
    then {| own := own result; prototype := Some value |}
    else result
  else {| own := <[key := value]> (own result);
          prototype := prototype result |}.

(** [for (const key of keys) if (key in obj) result[key] = obj[key]] *)
Definition pickKeys (obj : gmap string V) (keys : list string)
    : Picked V :=
  foldl (fun result key =>
           match read obj key with
           | Some value => assign key value result
           | None => result
           end) emptyObject keys.

(** [pick] *)
Definition pick (obj : gmap string V) (keys : list string) : Picked V :=
  pickKeys obj keys.

(** [toKeys]: the keys of an array mask, or the keys of an object mask
    whose flag is truthy *)
Definition toKeys (mask : PickKeys) : list string :=
  match mask with
  | KeysArray keys => keys
  | KeysRecord flags =>
      (map_to_list (filter (fun entry : string * bool => entry.2 = true)
                           flags)).*1
  end.

(** What [pickShape] is given: an object schema, a plain shape, or a
    falsy value *)
Inductive SchemaOrShape : Type :=
| OfSchema (schema : ZodType)
| OfShape (shape : gmap string V)
| NoShape.

(** [getObjectShape] ([src/mapping/utils.ts]) *)
Variable getObjectShape : ZodType -> gmap string V.

Definition pickShape (schemaOrShape : SchemaOrShape) (mask : PickKeys)
    : Picked V :=
  let keys := toKeys mask in
  let shape :=
    match schemaOrShape with
    | OfSchema schema => getObjectShape schema
    | OfShape shape => shape
    | NoShape => ∅
    end in
  pickKeys shape keys.

(** [z.object], which builds the schema of a shape *)
Context {Schema : Type}.
Variable zObject : Picked V -> Schema.

Definition safePick (schema : ZodType) (mask : PickKeys) : Schema :=
  zObject (pickShape (OfSchema schema) mask).

Definition safeOmit (schema : ZodType) (mask : PickKeys) : Schema :=
  let shape := getObjectShape schema in
  let omit := toKeys mask in
  let keep :=
    filter (fun k => k ∉ omit) (map_to_list shape).*1 in
  let picked := pickShape (OfSchema schema) (KeysArray keep) in
  zObject picked.

End Picking.

(** [mapDateFieldToNumber]; [fresh] and [S fresh] stand for the schema
    objects [z.number()] and its wrapper that the call creates. *)
Definition mapDateFieldToNumber (fresh : nat) (field : ZodType) : ZodType :=
  let isDate (schema : ZodType) :=
    match zdef schema with ZDate => true | _ => false end in
  match zdef field with
  | ZDate => Zod fresh ZNumber
  | ZOptional inner =>
      if isDate inner then Zod (S fresh) (ZOptional (Zod fresh ZNumber))
      else field
  | ZNullable inner =>
      if isDate inner then Zod (S fresh) (ZNullable (Zod fresh ZNumber))
      else field
  | ZDefault inner _ | ZPrefault inner _ =>
      if isDate inner then Zod (S fresh) (ZOptional (Zod fresh ZNumber))
      else field
  | _ => field
  end.

End utils.

(** ** Notions used to state the properties of the picking helpers *)

(** A mask names a key: the array holds it, or the object flags it. *)
Definition selects (mask : PickKeys) (key : string) : Prop :=
  match mask with
  | KeysArray keys => key ∈ keys
  | KeysRecord flags => flags !! key = Some true
  end.

(** A date, an optional or nullable date, or a date with a default *)
Definition shallowDate (field : ZodType) : bool :=
  match zdef field with
  | ZDate => true
  | ZOptional inner | ZNullable inner
  | ZDefault inner _ | ZPrefault inner _ =>
      match zdef inner with ZDate => true | _ => false end
  | _ => false
  end.

(** ** Stored values *)

(** A value the schema-agnostic conversion leaves as it is: no [Date],
    no undefined-valued key and no key named [__proto__] in it *)
Definition storable (value : Value) : bool :=
  convexSafe value && assignableKeys value.

(** The values Convex holds for a schema: what the encoder gives for the
    values the schema describes, a date being its time value. An object
    may hold keys the shape does not name; none of its keys is
    [__proto__]. Tuples, lazy schemas, transforms, pipes and
    intersections are left out. *)
Fixpoint stored (schema : ZodType) (wire : Value) {struct schema} : bool :=
  match schema with
  | Zod _ def =>
      match def with
      | ZString => match wire with JStr _ => true | _ => false end
      | ZNumber =>
          match wire with
          | JNum (NumInt _) | JNum (NumFrac _ _) => true
          | _ => false
          end
      | ZBigInt => match wire with JBigInt _ => true | _ => false end
      | ZBoolean => match wire with JBool _ => true | _ => false end
      | ZDate =>
          match wire with
          | JNum (NumInt ms) => Z.abs ms <=? maxTime
          | _ => false
          end
      | ZNull => match wire with JNull => true | _ => false end
      | ZNaN => match wire with JNum NumNaN => true | _ => false end
      | ZAny | ZUnknown => storable wire
      | ZLiteral l => literalMatches l wire
      | ZEnum options =>
          match wire with
          | JStr s => bool_decide (s ∈ options)
          | _ => false
          end
      | ZArray element =>
          match wire with
          | JArr items => forallb (stored element) items
          | _ => false
          end
      | ZObject shape =>
          match wire with
          | JObj props =>
              forallb
                (fun entry : string * Value =>
                   assignable entry.1 &&
                   negb (isUndefined entry.2) &&
                   match List.find (fun field => String.eqb entry.1 field.1)
                           (map (fun field =>
                                   match field with
                                   | (k, s) => (k, stored s)
                                   end) shape)
                   with
                   | Some field => field.2 entry.2
                   | None => storable entry.2
                   end) props
          | _ => false
          end
      | ZRecord _ (Some valueType) =>
          match wire with
          | JObj props =>
              forallb (fun entry : string * Value =>
                         assignable entry.1 &&
                         negb (isUndefined entry.2) &&
                         stored valueType entry.2) props
          | _ => false
          end
      | ZUnion options | ZDiscriminatedUnion _ options =>
          existsb (fun option => stored option wire) options
      | ZOptional inner | ZDefault inner _ | ZPrefault inner _ =>
          isUndefined wire || stored inner wire
      | ZNullable inner =>
          match wire with JNull => true | _ => stored inner wire end
      | _ => false
      end
  end.

(** A union is unambiguous for the stored values when, for the first
    option that holds a stored value, no earlier option accepts its own
    decoding of it, the option accepts its decoding, and no earlier
    option accepts that decoding either. *)
Definition wireUnambiguous (findBaseCodec : ZodType -> option BaseCodec)
    (isDateSchema : ZodType -> bool) (zodParse : ZodType -> Value -> bool)
    (options : list ZodType) : Prop :=
  ∀ wire before option after,
    options = (before ++ option :: after)%list →
    isNullish wire = false →
    Forall (fun o => stored o wire = false) before →
    stored option wire = true →
    let decoded := fromConvexJS findBaseCodec isDateSchema zodParse
                     wire option in
    zodParse option decoded = true ∧
    Forall (fun o =>
              zodParse o
                (fromConvexJS findBaseCodec isDateSchema zodParse wire o)
              = false) before ∧
    Forall (fun o => zodParse o decoded = false) before.

(** The schemas on which the generic rules of the codec apply on the way
    back: no base codec registered on them, and their unions
    unambiguous for the stored values. *)
Fixpoint wireSymmetric (findBaseCodec : ZodType -> option BaseCodec)
    (isDateSchema : ZodType -> bool) (zodParse : ZodType -> Value -> bool)
    (schema : ZodType) {struct schema} : Prop :=
  findBaseCodec schema = None ∧
  match schema with
  | Zod _ def =>
      match def with
      | ZArray element =>
          wireSymmetric findBaseCodec isDateSchema zodParse element
      | ZObject shape =>
          (fix all (fields : list (string * ZodType)) : Prop :=
             match fields with
             | [] => True
             | (_, s) :: rest =>
                 wireSymmetric findBaseCodec isDateSchema zodParse s ∧ all rest
             end) shape
      | ZRecord _ (Some valueType) =>
          wireSymmetric findBaseCodec isDateSchema zodParse valueType
      | ZUnion options | ZDiscriminatedUnion _ options =>
          (fix all (schemas : list ZodType) : Prop :=
             match schemas with
             | [] => True
             | s :: rest =>
                 wireSymmetric findBaseCodec isDateSchema zodParse s ∧ all rest
             end) options ∧
          wireUnambiguous findBaseCodec isDateSchema zodParse options
      | ZOptional inner | ZNullable inner
      | ZDefault inner _ | ZPrefault inner _ =>
          wireSymmetric findBaseCodec isDateSchema zodParse inner
      | _ => True
      end
  end.

(** ** Further concrete schemas and values *)

Module Samples.

(** A pipe registered as a brand over [z.string()] *)
Definition userId : ZodType := Zod 1 ZPipe.
Definition brands : gmap nat Metadata :=
  {[ 1%nat := {| tableName := None; brand := Some "UserId";
                 originalSchema := Some (Zod 2 ZString) |} ]}.

(** [z.tuple([z.string(), z.number().optional()])] *)
Definition pair : ZodType :=
  Zod 0 (ZTuple [Zod 1 ZString; Zod 2 (ZOptional (Zod 3 ZNumber))]).

(** [z.union([z.string(), z.custom()]).optional()]; as every schema of
    Zod 4, its parts have no [_def.typeName] *)
Definition noTypeName (schema : ZodType) : option string := None.
Definition maybeCustom : ZodType :=
  Zod 1 (ZOptional (Zod 2 (ZUnion [Zod 4 ZString; Zod 3 (ZOther "custom")]))).

(** A Zod that returns the values it accepts as they are, and a
    handler that throws *)
Definition parseDescribed (schema : ZodType) (value : Value)
    : Outcome Value :=
  if Examples.zodAccepts schema value then Return value
  else Throw (ZodError [Examples.nameIssue]).
Definition failing (ctx : unit) (args : Value) : Outcome Value :=
  Throw (Error "not found").
Definition eventOf (ctx : unit) (args : Value) : Outcome Value :=
  Return Examples.event.

(** Objects that inherit nothing, the values that can be a
    prototype, [{ a: 1, b: undefined }], and a [getObjectShape] that
    reads the shape of an object schema *)
Definition plain {V : Type} (key : string) : option V := None.
Definition objectOrNull (value : Value) : bool :=
  match value with JNull | JObj _ | JArr _ | JDate _ => true | _ => false end.
Definition schemaObject (schema : ZodType) : bool := true.
Definition settings : gmap string Value :=
  {[ "a" := JNum (NumInt 1); "b" := JUndefined ]}.
Definition shapeOf (schema : ZodType) : gmap string ZodType :=
  match zdef schema with
  | ZObject shape => list_to_map shape
  | _ => ∅
  end.

(** [z.object({ name: z.string(), email: z.string(), age: z.number() })] *)
Definition User : ZodType :=
  Zod 0 (ZObject [("name", Zod 1 ZString); ("email", Zod 2 ZString);
                   ("age", Zod 3 ZNumber)]).

(** [z.date().default(new Date(0))] *)
Definition createdAt : ZodType :=
  Zod 1 (ZDefault (Zod 2 ZDate) (JDate (Some 0))).

(** What Convex holds for [Examples.event] *)
Definition storedEvent : Value :=
  JObj [("when", JNum (NumInt 1704067200000));
        ("tags", JArr [JStr "a"; JStr "b"]);
        ("seen", JObj [("ann", JNum (NumInt 1704067200000));
                       ("bob", JNull)]);
        ("id", JBool true)].

End Samples.

(** * Properties *)

(** ** Induction on schemas *)

Lemma ZodType_children_ind (P : ZodType -> Prop) :
  (∀ id def, Forall P (children def) → P (Zod id def)) →
  ∀ schema, P schema.
Proof.
  intros step. fix IH 1. intros [id def]. apply step.
  destruct def as [| | | | | | | | | | | | |e|shape|options|d options|l|es
                  |keyType valueType|items|g|i|i|i d|i d| | |t];
    simpl; try (by constructor).
  - induction shape as [|[k s] rest IHrest]; constructor; [apply IH|done].
  - induction options as [|s rest IHrest]; constructor; [apply IH|done].
  - induction options as [|s rest IHrest]; constructor; [apply IH|done].
  - destruct keyType, valueType; simpl; repeat constructor; apply IH.
  - induction items as [|s rest IHrest]; constructor; [apply IH|done].
Qed.

Set Warnings "-clear-no-such-hyp".

(** ** Termination of the mapper *)

Lemma nodeIds_unfold id def :
  nodeIds (Zod id def) =
    {[id]} ∪
    match def with
    | ZArray element => nodeIds element
    | ZObject shape => ⋃ (map (fun entry : string * ZodType => nodeIds entry.2) shape)
    | ZUnion options | ZDiscriminatedUnion _ options
    | ZTuple options => ⋃ (map nodeIds options)
    | ZRecord keyType valueType =>
        match keyType with Some s => nodeIds s | None => ∅ end ∪
        match valueType with Some s => nodeIds s | None => ∅ end
    | ZOptional inner | ZNullable inner
    | ZDefault inner _ | ZPrefault inner _ => nodeIds inner
    | _ => ∅
    end.
Proof.
  destruct def; try reflexivity.
  simpl. f_equal. f_equal. apply map_ext. intros [k s]. reflexivity.
Qed.

Lemma zid_in_nodeIds schema : zid schema ∈ nodeIds schema.
Proof. destruct schema as [id def]. rewrite nodeIds_unfold. set_solver. Qed.

Lemma nodeIds_inner schema inner :
  match zdef schema with
  | ZArray s | ZOptional s | ZNullable s | ZDefault s _ | ZPrefault s _ => s = inner
  | ZRecord k v' => k = Some inner ∨ v' = Some inner
  | ZObject shape => inner ∈ shape.*2
  | ZUnion options | ZDiscriminatedUnion _ options | ZTuple options => inner ∈ options
  | _ => False
  end ->
  nodeIds inner ⊆ nodeIds schema.
Proof.
  destruct schema as [id def]. rewrite nodeIds_unfold. simpl.
  destruct def; try done; try (intros ->; set_solver).
  - intros Hin. apply list_elem_of_fmap in Hin as [[k s] [-> Hin]].
    intros x Hx. apply elem_of_union_r, elem_of_union_list.
    exists (nodeIds s). split; [|done].
    apply list_elem_of_fmap. by exists (k, s).
  - intros Hin x Hx. apply elem_of_union_r, elem_of_union_list.
    exists (nodeIds inner). split; [|done]. by apply list_elem_of_fmap_2.
  - intros Hin x Hx. apply elem_of_union_r, elem_of_union_list.
    exists (nodeIds inner). split; [|done]. by apply list_elem_of_fmap_2.
  - intros [-> | ->]; set_solver.
  - intros Hin x Hx. apply elem_of_union_r, elem_of_union_list.
    exists (nodeIds inner). split; [|done]. by apply list_elem_of_fmap_2.
Qed.

Lemma imap_values {A K} (f : nat → K) (l : list A) :
  (imap (λ i x, (f i, x)) l).*2 = l.
Proof.
  revert f. induction l as [|x l IH]; intros f; [done|].
  simpl. f_equal. apply (IH (f ∘ S)).
Qed.

Lemma freshResolutions_nil before after : freshResolutions before after [].
Proof. split; [constructor | intros h Hh; inversion Hh]. Qed.

Lemma freshResolutions_app a b c new1 new2 :
  a ⊆ b → b ⊆ c →
  freshResolutions a b new1 → freshResolutions b c new2 →
  freshResolutions a c (new1 ++ new2)%list.
Proof.
  intros Hab Hbc [Hd1 H1] [Hd2 H2]. split.
  - unfold heads. rewrite fmap_app. apply NoDup_app. split_and!; [done| |done].
    intros h Hh1 Hh2. destruct (H1 h Hh1), (H2 h Hh2). set_solver.
  - intros h. unfold heads. rewrite fmap_app, elem_of_app.
    intros [Hh | Hh]; [destruct (H1 h Hh) | destruct (H2 h Hh)]; set_solver.
Qed.

Lemma freshResolutions_weaken a a' b new :
  a' ⊆ a → freshResolutions a b new → freshResolutions a' b new.
Proof. intros Ha [Hd H]. split; [done|]. intros h Hh. destruct (H h Hh). set_solver. Qed.

Lemma continues_refl st : continues st st.
Proof.
  split_and!; [done..|]. exists []. split; [by rewrite app_nil_r|].
  apply freshResolutions_nil.
Qed.

Lemma continues_trans st1 st2 st3 :
  continues st1 st2 → continues st2 st3 → continues st1 st3.
Proof.
  intros (Hv1 & Hr1 & new1 & Hn1 & Hf1) (Hv2 & Hr2 & new2 & Hn2 & Hf2).
  split_and!; [set_solver | congruence |].
  exists (new1 ++ new2)%list. split; [by rewrite Hn2, Hn1, app_assoc|].
  by eapply freshResolutions_app.
Qed.

(** A stretch that ends and continues the traversal, followed by one
    that does the same from wherever the first one stopped *)
Lemma next_continues {A B} (r : Run A) (k : A → Traversal → Run B) st :
  (∃ outcome st1, r = Some (outcome, st1) ∧ continues st st1) →
  (∀ a st1, continues st st1 →
     ∃ outcome st2, k a st1 = Some (outcome, st2) ∧ continues st1 st2) →
  ∃ outcome st2, next r k = Some (outcome, st2) ∧ continues st st2.
Proof.
  intros (outcome & st1 & -> & Hc1) Hk. destruct outcome as [a|e]; simpl.
  - destruct (Hk a st1 Hc1) as (outcome & st2 & -> & Hc2).
    eauto using continues_trans.
  - eauto.
Qed.

Lemma mapEntries_keys {K} rec (fields : list (K * ZodType)) st validators st' :
  mapEntries rec fields st = Some (Return validators, st') →
  validators.*1 = fields.*1.
Proof.
  revert st validators st'.
  induction fields as [|[k s] rest IH]; intros st validators st'; simpl.
  - by intros [= <- _].
  - destruct (rec (Some s) st) as [[[w|e] st1]|]; simpl; [|done..].
    destruct (mapEntries rec rest st1) as [[[ws|e] st2]|] eqn:Hrest;
      simpl; [|done..].
    intros [= <- _]. rewrite fmap_cons. f_equal. by eapply IH.
Qed.

Lemma sameAtEveryCall_returns getters g n schema :
  sameAtEveryCall getters g n = GetterReturns schema →
  getters !! g = Some (GetterReturns schema).
Proof.
  unfold sameAtEveryCall.
  destruct (getters !! g) as [outcome|]; simpl; [by intros ->|done].
Qed.

Section Termination.

Variable isZid : ZodType -> bool.
Variable metadata : gmap nat Metadata.
Variable findBaseCodec : ZodType -> option BaseCodec.
Variable getters : gmap nat GetterOutcome.

(** A finite set of schema objects closed under the getters and the
    brands *)
Variable U : gset nat.
Hypothesis getters_closed : ∀ g schema,
  getters !! g = Some (GetterReturns schema) → nodeIds schema ⊆ U.
Hypothesis metadata_closed : ∀ i m schema,
  metadata !! i = Some m → originalSchema m = Some schema →
  nodeIds schema ⊆ U.

Lemma unvisited_mono st st' :
  visited st ⊆ visited st' → (unvisited U st' ≤ unvisited U st)%nat.
Proof. intros H. unfold unvisited. apply subseteq_size. set_solver. Qed.

Lemma unvisited_visit id st :
  id ∈ U → id ∉ visited st → (unvisited U (visit id st) < unvisited U st)%nat.
Proof.
  intros HU Hv. unfold unvisited. apply subset_size. simpl. set_solver.
Qed.

Lemma returns_inner rec n inner st :
  returns U rec n → nodeIds inner ⊆ U → (unvisited U st < n)%nat →
  ∃ outcome st',
    rec (Some inner) st = Some (outcome, st') ∧ continues st st'.
Proof.
  intros Hrec Hin Hn. apply Hrec; [|done]. by intros ? [= <-].
Qed.

Lemma mapEntries_returns {K} rec n (fields : list (K * ZodType)) st :
  returns U rec n →
  (∀ s, s ∈ fields.*2 → nodeIds s ⊆ U) →
  (unvisited U st < n)%nat →
  ∃ outcome st',
    mapEntries rec fields st = Some (outcome, st') ∧ continues st st'.
Proof.
  intros Hrec. revert st.
  induction fields as [|[k s] rest IH]; intros st Hin Hn; simpl.
  - exists (Return []), st. split; [done|apply continues_refl].
  - apply next_continues.
    { apply (returns_inner rec n); [done| |done]. apply Hin. set_solver. }
    intros w st1 Hc1. apply next_continues.
    { apply IH.
      - intros s' Hs'. apply Hin. set_solver.
      - pose proof (unvisited_mono st st1 (proj1 Hc1)). lia. }
    intros ws st2 Hc2. eauto using continues_refl.
Qed.

Lemma mapSchemas_returns rec n schemas st :
  returns U rec n →
  (∀ s, s ∈ schemas → nodeIds s ⊆ U) →
  (unvisited U st < n)%nat →
  ∃ outcome st',
    mapSchemas rec schemas st = Some (outcome, st') ∧ continues st st'.
Proof.
  intros Hrec Hin Hn. unfold mapSchemas. apply next_continues.
  { apply (mapEntries_returns rec n); [done| |done].
    intros s. rewrite <- list_fmap_compose. simpl. rewrite list_fmap_id. auto. }
  intros ws st1 Hc1. eauto using continues_refl.
Qed.

Ltac child H :=
  match type of H with
  | zdef ?a = _ =>
      match goal with
      | |- nodeIds ?b ⊆ _ =>
          transitivity (nodeIds a);
          [apply (nodeIds_inner a b); rewrite H; simpl; auto|]
      end
  end.

Lemma record_continues (keys values : Validator) st :
  ∃ outcome st',
    Some (v.record keys values, st) = Some (outcome, st') ∧ continues st st'.
Proof. eauto using continues_refl. Qed.

Lemma convertRecordType_returns rec n keyType valueType st :
  returns U rec n →
  (∀ s, keyType = Some s ∨ valueType = Some s → nodeIds s ⊆ U) →
  (unvisited U st < n)%nat →
  ∃ outcome st',
    convertRecordType rec keyType valueType st = Some (outcome, st') ∧
    continues st st'.
Proof.
  intros Hrec Hin Hn. unfold convertRecordType.
  destruct (match valueType with Some s => Some s | None => keyType end)
    as [value|] eqn:Hvalue; [|apply record_continues].
  assert (nodeIds value ⊆ U) as HU.
  { apply Hin. destruct valueType; simplify_eq; auto. }
  assert (∀ inner, nodeIds inner ⊆ U →
    ∃ outcome st',
      rec (Some inner) st = Some (outcome, st') ∧ continues st st') as Hcall.
  { intros inner Hi. by eapply returns_inner. }
  assert (∀ inner (f : Validator → Validator), nodeIds inner ⊆ U →
    ∃ outcome st',
      (let* (w, st1) := rec (Some inner) st in
       Some (v.record v.string (f w), st1)) = Some (outcome, st') ∧
      continues st st') as Hthen.
  { intros inner f Hi. apply next_continues; [by apply Hcall|].
    intros w st1 _. apply record_continues. }
  destruct (zdef value) eqn:Hdef; try (by apply (Hthen value (λ w, w))).
  - apply (Hthen _ (λ w, v.union [w; v.null])). by child Hdef.
  - destruct (zdef innerType) eqn:Hdef';
      try (by apply (Hthen value (λ w, w))).
    apply (Hthen _ (λ w, setZodDefault _ (v.union [w; v.null]))).
    child Hdef'. by child Hdef.
  - destruct (zdef innerType) eqn:Hdef';
      try (by apply (Hthen value (λ w, w))).
    apply (Hthen _ (λ w, setZodDefault _ (v.union [w; v.null]))).
    child Hdef'. by child Hdef.
Qed.

Lemma convertNullableType_returns rec n inner st :
  returns U rec n → nodeIds inner ⊆ U → (unvisited U st < n)%nat →
  ∃ outcome st',
    convertNullableType rec inner st = Some (outcome, st') ∧
    continues st st'.
Proof.
  intros Hrec HU Hn. unfold convertNullableType.
  destruct (zdef inner) eqn:Hdef;
    try (apply next_continues;
         [by apply (returns_inner rec n)
         |intros; eauto using continues_refl]).
  apply next_continues; [|intros; eauto using continues_refl].
  apply (returns_inner rec n); [done| |done]. by child Hdef.
Qed.

Lemma continues_advances before st st' :
  before ⊆ visited st → continues st st' → advances before st st'.
Proof.
  intros Hb (Hv & Hr & new & Hn & Hf). split_and!; [done..|].
  exists new. split; [done|]. by eapply freshResolutions_weaken.
Qed.

Lemma convertLazy_returns rec n head actual getter st before :
  returns U rec n → (unvisited U st < n)%nat →
  head ∈ visited st → head ∉ before → before ⊆ visited st →
  ∃ outcome st',
    convertLazy (sameAtEveryCall getters) rec head actual getter st
      = Some (outcome, st') ∧
    advances before st st'.
Proof.
  intros Hrec Hn Hhead Hfresh Hbefore.
  assert (advances before st st) as Hrefl
    by (apply continues_advances; [done|apply continues_refl]).
  unfold convertLazy. destruct getter as [g|]; [|by eauto].
  assert (advances before st
            (leaveGetter (enterGetter head (zid actual) st))) as Henter.
  { split_and!; [done..|].
    exists [{| resolvedFor := head; resolvedLazy := zid actual;
               resolvedWithin := resolving st |}].
    split; [done|]. split.
    - apply NoDup_singleton.
    - intros h Hh. apply list_elem_of_singleton in Hh as ->. done. }
  destruct (sameAtEveryCall getters g (length (resolutions st)))
    as [resolved| |] eqn:Hg; try by eauto.
  apply sameAtEveryCall_returns in Hg.
  destruct (returns_inner rec n resolved (enterGetter head (zid actual) st))
    as (outcome & st' & -> & Hv & Hr & new & Hnew & Hf);
    [done|by eapply getters_closed|done|].
  assert (advances before st (leaveGetter st')) as Hleave.
  { simpl in *.
    split_and!; [done|by unfold leaveGetter; simpl; rewrite Hr|].
    unfold leaveGetter; simpl.
    exists ({| resolvedFor := head; resolvedLazy := zid actual;
               resolvedWithin := resolving st |} :: new).
    split; [by rewrite Hnew, <- app_assoc|].
    destruct Hf as [Hd Hf]. split.
    + unfold heads. rewrite fmap_cons. simpl. apply NoDup_cons. split; [|done].
      intros Hin. destruct (Hf _ Hin). done.
    + intros h. unfold heads. rewrite fmap_cons, elem_of_cons. simpl.
      intros [-> | Hh]; [set_solver|].
      destruct (Hf _ Hh). set_solver. }
  destruct outcome; eauto.
Qed.

Lemma convertByType_returns rec n head actual st before :
  returns U rec n → nodeIds actual ⊆ U → (unvisited U st < n)%nat →
  head ∈ visited st → head ∉ before → before ⊆ visited st →
  ∃ outcome st',
    convertByType metadata findBaseCodec (sameAtEveryCall getters)
      rec head actual st = Some (outcome, st') ∧
    advances before st st'.
Proof.
  intros Hrec HU Hn Hhead Hfresh Hbefore.
  assert (advances before st st) as Hrefl
    by (apply continues_advances; [done|apply continues_refl]).
  assert (∀ A (r : Run A) (f : A → Validator * bool),
    (∃ outcome st', r = Some (outcome, st') ∧ continues st st') →
    ∃ outcome st',
      (let* (a, st1) := r in Some (Return (f a), st1)) = Some (outcome, st') ∧
      advances before st st') as Hthen.
  { intros A r f Hr.
    destruct (next_continues r (λ a st1, Some (Return (f a), st1)) st)
      as (outcome & st' & ? & ?); [done| |].
    - intros. eauto using continues_refl.
    - eauto using continues_advances. }
  unfold convertByType.
  destruct (zdef actual) eqn:Hdef; try by eauto.
  - (* array *)
    apply (Hthen _ _ (λ w, (v.array w, false))).
    apply (returns_inner rec n); [done| |done]. by child Hdef.
  - (* object *)
    apply (Hthen _ _ (λ w, (v.object (assigned w), false))).
    apply (mapEntries_returns rec n); [done| |done].
    intros s Hs. by child Hdef.
  - (* union *)
    apply (Hthen _ _ (λ w, (w, false))).
    unfold convertUnionType. apply next_continues.
    { apply (mapSchemas_returns rec n); [done| |done].
      intros s Hs. by child Hdef. }
    intros. eauto using continues_refl.
  - (* discriminated union *)
    apply (Hthen _ _ (λ w, (w, false))).
    unfold convertDiscriminatedUnionType. apply next_continues.
    { apply (mapSchemas_returns rec n); [done| |done].
      intros s Hs. by child Hdef. }
    intros. eauto using continues_refl.
  - (* literal *)
    destruct value; eauto.
  - (* record *)
    apply (Hthen _ _ (λ w, (w, false))).
    apply (convertRecordType_returns rec n); [done| |done].
    intros s Hs. by child Hdef.
  - (* tuple *)
    destruct items as [|item items]; [by eauto|].
    apply (Hthen _ _ (λ w, (v.object w, false))).
    apply (mapEntries_returns rec n); [done| |done].
    intros s Hs. child Hdef; [|done].
    by rewrite imap_values in Hs.
  - (* lazy *)
    by apply (convertLazy_returns rec n).
  - (* nullable *)
    destruct (convertNullableType_returns rec n innerType st)
      as (outcome & st' & -> & Hc); [done|by child Hdef|done|].
    eexists _, _. split; [done|by apply continues_advances].
  - (* transform *)
    destruct (findBaseCodec actual); [by eauto|].
    destruct (getMetadata metadata actual) as [[t b [original|]]|] eqn:Hm;
      [|by eauto..].
    destruct (truthy b); [|by eauto].
    apply (Hthen _ _ (λ w, (w, false))).
    apply (returns_inner rec n); [done| |done]. by eapply metadata_closed.
  - (* pipe *)
    destruct (findBaseCodec actual); [by eauto|].
    destruct (getMetadata metadata actual) as [[t b [original|]]|] eqn:Hm;
      [|by eauto..].
    destruct (truthy b); [|by eauto].
    apply (Hthen _ _ (λ w, (w, false))).
    apply (returns_inner rec n); [done| |done]. by eapply metadata_closed.
Qed.

Lemma unwrap_nodeIds zodValidator :
  nodeIds (actualValidator (unwrap zodValidator)) ⊆ nodeIds zodValidator.
Proof.
  unfold unwrap, unwrapOptional, unwrapDefault.
  destruct (zdef zodValidator) eqn:Hdef; simpl; try rewrite Hdef; try done.
  - destruct (zdef innerType) eqn:Hdef'; simpl; try by child Hdef.
    child Hdef'. by child Hdef.
  - destruct (zdef innerType) eqn:Hdef'; simpl; try by child Hdef.
    destruct (zdef innerType0) eqn:Hdef''; simpl;
      try (child Hdef'; by child Hdef).
    child Hdef''. child Hdef'. by child Hdef.
Qed.

Lemma convertNode_returns rec n :
  returns U rec n →
  returns U (convertNode isZid metadata findBaseCodec
               (sameAtEveryCall getters) rec) (S n).
Proof.
  intros Hrec [zodValidator|] st HU Hn; simpl;
    [|eauto using continues_refl].
  specialize (HU _ eq_refl).
  case_decide as Hvisited; [eauto using continues_refl|].
  pose proof (zid_in_nodeIds zodValidator) as Hid.
  assert (unvisited U (visit (zid zodValidator) st) < n)%nat as Hn'.
  { assert (zid zodValidator ∈ U) as HidU by set_solver.
    pose proof (unvisited_visit (zid zodValidator) st HidU Hvisited). lia. }
  match goal with
  | |- context [next ?r _] =>
      assert (∃ outcome st',
        r = Some (outcome, st') ∧
        advances (visited st) (visit (zid zodValidator) st) st')
        as (outcome & st' & -> & Hv & Hr & new & Hnew & Hf)
  end.
  { destruct (isZid _).
    - eexists _, _. split; [done|].
      apply continues_advances; [simpl; set_solver|apply continues_refl].
    - apply (convertByType_returns rec n); try done.
      + pose proof (unwrap_nodeIds zodValidator). set_solver.
      + simpl. set_solver.
      + simpl. set_solver. }
  assert (continues st st') as Hc.
  { split_and!; [simpl in Hv; set_solver|done|].
    exists new. split; [done|]. done. }
  destruct outcome as [[w opt]|e]; simpl; eauto.
Qed.

(** [zodToConvexInternal] ends whenever its budget exceeds the number
    of schema objects it has not visited yet. *)
Lemma zodToConvexInternal_returns fuel :
  returns U (zodToConvexInternal isZid metadata findBaseCodec
               (sameAtEveryCall getters) fuel) fuel.
Proof.
  induction fuel as [|fuel IH].
  - intros schema st _ Hn. lia.
  - by apply convertNode_returns.
Qed.
End Termination.

(** ** The traversal from a fresh visited set *)

Lemma universe_getters metadata getters root g schema :
  getters !! g = Some (GetterReturns schema) →
  nodeIds schema ⊆ universe metadata getters root.
Proof.
  intros Hg x Hx. unfold universe.
  apply elem_of_union_l, elem_of_union_r, elem_of_union_list.
  exists (nodeIds schema). split; [|done].
  apply list_elem_of_fmap. exists (GetterReturns schema). split; [done|].
  apply list_elem_of_fmap. exists (g, GetterReturns schema). split; [done|].
  by apply elem_of_map_to_list.
Qed.

Lemma universe_metadata metadata getters root i m schema :
  metadata !! i = Some m → originalSchema m = Some schema →
  nodeIds schema ⊆ universe metadata getters root.
Proof.
  intros Hm Ho x Hx. unfold universe.
  apply elem_of_union_r, elem_of_union_list.
  exists (metadataIds m). split; [|by unfold metadataIds; rewrite Ho].
  apply list_elem_of_fmap. exists m. split; [done|].
  apply list_elem_of_fmap. exists (i, m). split; [done|].
  by apply elem_of_map_to_list.
Qed.

Lemma universe_root metadata getters root :
  nodeIds root ⊆ universe metadata getters (Some root).
Proof. unfold universe. set_solver. Qed.

Lemma continues_fresh st :
  continues freshTraversal st → oncePerVisit st.
Proof.
  intros (_ & _ & new & Hnew & Hd & Hin). simpl in Hnew.
  unfold oncePerVisit. rewrite Hnew. split; [done|].
  intros r Hr. apply Hin. unfold heads. by apply list_elem_of_fmap_2.
Qed.

(** From a fresh visited set [zodToConvexInternal] ends on every schema,
    whatever the getters of the table reach. *)
Lemma zodToConvexSchema_returns isZid metadata findBaseCodec getters zod :
  ∃ outcome st,
    zodToConvexSchema isZid metadata findBaseCodec getters zod
      = Some (outcome, st) ∧
    continues freshTraversal st.
Proof.
  unfold zodToConvexSchema, budget.
  apply (zodToConvexInternal_returns isZid metadata findBaseCodec getters
           (universe metadata getters zod)).
  - intros g schema. apply universe_getters.
  - intros i m schema. apply universe_metadata.
  - intros s ->. apply universe_root.
  - unfold unvisited. simpl.
    assert (universe metadata getters zod ∖ ∅ = universe metadata getters zod)
      as -> by set_solver.
    lia.
Qed.

Lemma zodToConvexInternal_visited isZid metadata findBaseCodec
    (getters : Getters) fuel schema st :
  zid schema ∈ visited st →
  zodToConvexInternal isZid metadata findBaseCodec getters (S fuel)
    (Some schema) st = Some (Return v.any, st).
Proof. intros Hin. simpl. by rewrite decide_True. Qed.

Lemma zodToConvexInternal_absent isZid metadata findBaseCodec
    (getters : Getters) fuel st :
  zodToConvexInternal isZid metadata findBaseCodec getters (S fuel) None st
    = Some (Return v.any, st).
Proof. reflexivity. Qed.

(** Destructing the stretches a hypothesis or the goal goes through *)
Ltac step_in H :=
  match type of H with
  | context [next ?r _] =>
      let E := fresh "Hrun" in
      destruct r as [[[?|?] ?]|] eqn:E; simpl in H; try discriminate H
  end.

(** A lazy schema never throws: when its getter returns no schema or
    throws, and when the mapping of the schema it returned throws, it
    maps to [v.any()]; otherwise to what that schema maps to. *)
Lemma zodToConvexInternal_lazy isZid metadata findBaseCodec
    (getters : Getters) fuel id g st outcome st' :
  id ∉ visited st →
  isZid (Zod id (ZLazy (Some g))) = false →
  zodToConvexInternal isZid metadata findBaseCodec getters (S fuel)
    (Some (Zod id (ZLazy (Some g)))) st = Some (outcome, st') →
  match getters g (length (resolutions st)) with
  | GetterReturns resolved =>
      ∃ inner st1,
        zodToConvexInternal isZid metadata findBaseCodec getters fuel
          (Some resolved) (enterGetter id id (visit id st))
          = Some (inner, st1) ∧
        outcome = Return match inner with
                         | Return validator => validator
                         | Throw _ => v.any
                         end
  | GetterReturnsOther | GetterThrows => outcome = Return v.any
  end.
Proof.
  intros Hid Hzid. simpl. rewrite decide_False by done.
  unfold unwrap, unwrapOptional, unwrapDefault. simpl. rewrite Hzid.
  unfold convertByType, convertLazy. simpl.
  destruct (getters g (length (resolutions st))) as [resolved| |];
    simpl; [|by intros [= <- _]..].
  destruct (zodToConvexInternal _ _ _ _ fuel (Some resolved) _)
    as [[[w|e] st1]|]; simpl; [| |done].
  - intros [= <- _]. eauto.
  - intros [= <- _]. eauto.
Qed.

(** *** What the mapper throws *)

Lemma next_throwsOnly e0 {A B} (r : Run A) (k : A → Traversal → Run B) :
  throwsOnly e0 r → (∀ a st, throwsOnly e0 (k a st)) →
  throwsOnly e0 (next r k).
Proof.
  intros Hr Hk e st. destruct r as [[[a|e'] st1]|]; simpl; [| |done].
  - apply Hk.
  - intros [= -> _]. by eapply Hr.
Qed.

Lemma return_throwsOnly e0 {A} (a : A) st :
  throwsOnly e0 (Some (Return a, st)).
Proof. by intros e st' [=]. Qed.

Lemma record_throwsOnly (values : Validator) st :
  throwsOnly optionalRecordValues (Some (v.record v.string values, st)).
Proof.
  intros e st'. unfold v.record. simpl.
  destruct (isOptionalValidator values); [|done]. by intros [= <- _].
Qed.

Create HintDb throws.
#[local] Hint Resolve return_throwsOnly record_throwsOnly : throws.

Section Throws.

Variable isZid : ZodType -> bool.
Variable metadata : gmap nat Metadata.
Variable findBaseCodec : ZodType -> option BaseCodec.
Variable getters : Getters.
Variable rec : Mapper.
Hypothesis rec_throws : ∀ schema st,
  throwsOnly optionalRecordValues (rec schema st).

Lemma mapEntries_throwsOnly {K} (fields : list (K * ZodType)) st :
  throwsOnly optionalRecordValues (mapEntries rec fields st).
Proof.
  revert st. induction fields as [|[k s] rest IH]; intros st; simpl.
  - auto with throws.
  - apply next_throwsOnly; [done|]. intros w st1.
    apply next_throwsOnly; [done|]. auto with throws.
Qed.

Lemma mapSchemas_throwsOnly schemas st :
  throwsOnly optionalRecordValues (mapSchemas rec schemas st).
Proof.
  apply next_throwsOnly; [apply mapEntries_throwsOnly|auto with throws].
Qed.

Lemma convertRecordType_throwsOnly keyType valueType st :
  throwsOnly optionalRecordValues
    (convertRecordType rec keyType valueType st).
Proof.
  unfold convertRecordType.
  destruct (match valueType with Some s => Some s | None => keyType end)
    as [value|]; [|auto with throws].
  destruct (zdef value) as [| | | | | | | | | | | | |e|shape|options|d options
                            |l|es|k x|items|g|i|i|i d|i d| | |t];
    try (apply next_throwsOnly; [done|]; auto with throws);
    destruct (zdef i); apply next_throwsOnly; auto with throws.
Qed.

Lemma convertByType_throwsOnly head actual st :
  throwsOnly optionalRecordValues
    (convertByType metadata findBaseCodec getters rec head actual st).
Proof.
  unfold convertByType.
  destruct (zdef actual) as [| | | | | | | | | | | | |e|shape|options|d options
                             |l|es|k x|items|g|i|i|i d|i d| | |t];
    auto with throws.
  - apply next_throwsOnly; auto with throws.
  - apply next_throwsOnly; [apply mapEntries_throwsOnly|auto with throws].
  - apply next_throwsOnly; [|auto with throws].
    apply next_throwsOnly; [apply mapSchemas_throwsOnly|auto with throws].
  - apply next_throwsOnly; [|auto with throws].
    apply next_throwsOnly; [apply mapSchemas_throwsOnly|auto with throws].
  - destruct l; auto with throws.
  - apply next_throwsOnly; [apply convertRecordType_throwsOnly|].
    auto with throws.
  - destruct items; [auto with throws|].
    apply next_throwsOnly; [apply mapEntries_throwsOnly|auto with throws].
  - unfold convertLazy. destruct g as [g|]; [|auto with throws].
    destruct (getters g _); auto with throws.
    destruct (rec _ _) as [[[w|e] st1]|]; [auto with throws..|done].
  - unfold convertNullableType.
    destruct (zdef i); apply next_throwsOnly; auto with throws.
  - destruct (findBaseCodec actual); [auto with throws|].
    destruct (getMetadata metadata actual) as [[tn b [original|]]|];
      auto with throws.
    destruct (truthy b); [|auto with throws].
    apply next_throwsOnly; auto with throws.
  - destruct (findBaseCodec actual); [auto with throws|].
    destruct (getMetadata metadata actual) as [[tn b [original|]]|];
      auto with throws.
    destruct (truthy b); [|auto with throws].
    apply next_throwsOnly; auto with throws.
Qed.

Lemma convertNode_throwsOnly schema st :
  throwsOnly optionalRecordValues
    (convertNode isZid metadata findBaseCodec getters rec schema st).
Proof.
  destruct schema as [zodValidator|]; simpl; [|auto with throws].
  case_decide; [auto with throws|].
  apply next_throwsOnly.
  - destruct (isZid _); [auto with throws|apply convertByType_throwsOnly].
  - intros [w opt] st1. auto with throws.
Qed.

End Throws.

(** Whatever the getters do, the mapper throws nothing but the error of
    [v.record]. *)
Lemma zodToConvexInternal_throwsOnly isZid metadata findBaseCodec
    (getters : Getters) fuel schema st :
  throwsOnly optionalRecordValues
    (zodToConvexInternal isZid metadata findBaseCodec getters fuel schema st).
Proof.
  revert schema st. induction fuel as [|fuel IH]; intros schema st.
  - by intros e st'.
  - by apply convertNode_throwsOnly.
Qed.

(** *** When the mapper does not throw *)

(** What [convertByType] builds for a schema that is no nullable wrapper
    around an optional one, no lazy schema, no transform and no pipe is a
    required validator, and the nullable case does not ask for an
    optional one. *)
Lemma convertByType_required metadata findBaseCodec (getters : Getters)
    rec head actual st validator opt st' :
  match zdef actual with
  | ZLazy _ | ZTransform | ZPipe => False
  | ZNullable inner =>
      match zdef inner with ZOptional _ => False | _ => True end
  | _ => True
  end →
  convertByType metadata findBaseCodec getters rec head actual st
    = Some (Return (validator, opt), st') →
  isOptionalValidator validator = false ∧ opt = false.
Proof.
  unfold convertByType.
  destruct (zdef actual) as [| | | | | | | | | | | | |e|shape|options|d options
                             |l|es|k x|items|g|i|i|i d|i d| | |t];
    intros Hkind H; try done; try (by injection H as <- <- _).
  - step_in H. by injection H as <- <- _.
  - step_in H. by injection H as <- <- _.
  - step_in H. injection H as <- <- _.
    unfold convertUnionType in Hrun. step_in Hrun. by injection Hrun as <- _.
  - step_in H. injection H as <- <- _.
    unfold convertDiscriminatedUnionType in Hrun. step_in Hrun.
    by injection Hrun as <- _.
  - destruct l; by injection H as <- <- _.
  - injection H as <- <- _. unfold convertEnumType.
    by destruct es as [|? [|]].
  - step_in H. injection H as <- <- _.
    unfold convertRecordType in Hrun.
    assert (∀ (r : Run Validator) (f : Validator → Validator) w st1,
      (let* (w, st1) := r in Some (v.record v.string (f w), st1))
        = Some (Return w, st1) → isOptionalValidator w = false) as Hthen.
    { intros r f w st1 Hr. step_in Hr. unfold v.record in Hr. simpl in Hr.
      destruct (isOptionalValidator (f _)); [done|].
      by injection Hr as <- _. }
    split; [|done].
    destruct (match x with Some s => Some s | None => k end) as [value|].
    + destruct (zdef value); try (by eapply (Hthen _ (λ w, w)));
        try (by eapply (Hthen _ (λ w, v.union [w; v.null])));
        destruct (zdef innerType); try (by eapply (Hthen _ (λ w, w)));
        by eapply (Hthen _ (λ w, setZodDefault _ (v.union [w; v.null]))).
    + by injection Hrun as <- _.
  - destruct items; [by injection H as <- <- _|].
    step_in H. by injection H as <- <- _.
  - unfold convertNullableType in H.
    destruct (zdef i); try done; step_in H; by injection H as <- <- _.
Qed.

(** A schema that maps to a required validator by its kind does so,
    whatever the recursive calls return. *)
Lemma convertNode_required isZid metadata findBaseCodec (getters : Getters)
    rec schema st validator st' :
  mapsToRequired schema = true →
  convertNode isZid metadata findBaseCodec getters rec (Some schema) st
    = Some (Return validator, st') →
  isOptionalValidator validator = false.
Proof.
  intros Hkind. simpl. case_decide as Hvisited; [by intros [= <- _]|].
  intros H. step_in H.
  match type of H with context [let '(_, _) := ?p in _] =>
    destruct p as [w opt] end.
  assert (isOptional (unwrap schema) = false ∧
          match zdef (actualValidator (unwrap schema)) with
          | ZLazy _ | ZTransform | ZPipe => False
          | ZNullable inner =>
              match zdef inner with ZOptional _ => False | _ => True end
          | _ => True
          end) as [Hflag Hactual].
  { unfold mapsToRequired in Hkind.
    unfold unwrap, unwrapOptional, unwrapDefault.
    destruct (zdef schema) eqn:Hdef; rewrite ?Hdef in Hkind; simpl in Hkind;
      try done; repeat (simpl; rewrite ?Hdef); try done;
      destruct (zdef innerType) eqn:Hdef'; try done;
      repeat (simpl; rewrite ?Hdef'); try done.
    by destruct (zdef innerType0). }
  assert (isOptionalValidator w = false ∧ opt = false) as [Hw ->].
  { destruct (isZid _).
    - by injection Hrun as <- <- _.
    - by eapply convertByType_required. }
  rewrite Hflag in H. simpl in H.
  destruct (hasDefault _); by injection H as <- _.
Qed.

Lemma next_neverThrows {A B} (r : Run A) (k : A → Traversal → Run B) :
  neverThrows r → (∀ a st, r = Some (Return a, st) → neverThrows (k a st)) →
  neverThrows (next r k).
Proof.
  intros Hr Hk outcome st. destruct r as [[[a|e] st1]|] eqn:Er; simpl;
    [| |done].
  - by apply Hk.
  - destruct (Hr _ _ eq_refl) as [? [=]].
Qed.

Lemma return_neverThrows {A} (a : A) st : neverThrows (Some (Return a, st)).
Proof. intros outcome st' [= <- _]. eauto. Qed.

Lemma record_neverThrows values st :
  isOptionalValidator values = false →
  neverThrows (Some (v.record v.string values, st)).
Proof.
  intros Hv. unfold v.record. simpl. rewrite Hv. apply return_neverThrows.
Qed.

Create HintDb returns.
#[local] Hint Resolve return_neverThrows : returns.

Section NoThrow.

Variable isZid : ZodType -> bool.
Variable metadata : gmap nat Metadata.
Variable findBaseCodec : ZodType -> option BaseCodec.
Variable getters : gmap nat GetterOutcome.

(** A set of schemas closed under the parts of a schema, the getters and
    the brands, in which every record has a value schema that fits *)
Variable P : ZodType -> Prop.
Hypothesis P_children : ∀ s c, P s → c ∈ children (zdef s) → P c.
Hypothesis P_getters : ∀ g schema,
  getters !! g = Some (GetterReturns schema) → P schema.
Hypothesis P_metadata : ∀ i m schema,
  metadata !! i = Some m → originalSchema m = Some schema → P schema.
Hypothesis P_records : ∀ s keyType valueType value,
  P s → zdef s = ZRecord keyType valueType →
  match valueType with Some x => Some x | None => keyType end = Some value →
  optionalUnderDefault value || mapsToRequired value = true.

Variable rec : Mapper.
Hypothesis rec_returns : returnsOn P rec.
Hypothesis rec_required : requiredOn rec.

Lemma rec_neverThrows schema st : P schema → neverThrows (rec (Some schema) st).
Proof.
  intros HP outcome st' Hrun. eapply rec_returns; [|done]. by intros ? [= <-].
Qed.

Lemma mapEntries_neverThrows {K} (fields : list (K * ZodType)) st :
  (∀ s, s ∈ fields.*2 → P s) → neverThrows (mapEntries rec fields st).
Proof.
  revert st. induction fields as [|[k s] rest IH]; intros st HP; simpl.
  - auto with returns.
  - apply next_neverThrows; [apply rec_neverThrows, HP; set_solver|].
    intros w st1 _. apply next_neverThrows; [|auto with returns].
    apply IH. intros s' Hs'. apply HP. set_solver.
Qed.

Lemma mapSchemas_neverThrows schemas st :
  (∀ s, s ∈ schemas → P s) → neverThrows (mapSchemas rec schemas st).
Proof.
  intros HP. apply next_neverThrows; [|auto with returns].
  apply mapEntries_neverThrows. intros s.
  rewrite <- list_fmap_compose. simpl. rewrite list_fmap_id. auto.
Qed.

Lemma convertRecordType_neverThrows s keyType valueType st :
  P s → zdef s = ZRecord keyType valueType →
  neverThrows (convertRecordType rec keyType valueType st).
Proof.
  intros HP Hdef. unfold convertRecordType.
  pose proof (P_records s keyType valueType) as Hfit.
  destruct (match valueType with Some x => Some x | None => keyType end)
    as [value|] eqn:Hvalue; [|by apply record_neverThrows].
  specialize (Hfit value HP Hdef eq_refl).
  assert (P value) as HPv.
  { apply (P_children s); [done|]. rewrite Hdef. simpl.
    destruct valueType as [x|], keyType as [k|]; simplify_eq; set_solver. }
  assert (∀ inner (f : Validator → Validator),
    P inner → (∀ w, isOptionalValidator (f w) = false) →
    neverThrows (let* (w, st1) := rec (Some inner) st in
                 Some (v.record v.string (f w), st1))) as Hunion.
  { intros inner f Hi Hf. apply next_neverThrows; [by apply rec_neverThrows|].
    intros w st1 _. by apply record_neverThrows. }
  assert (mapsToRequired value = true →
    neverThrows (let* (w, st1) := rec (Some value) st in
                 Some (v.record v.string w, st1))) as Hplain.
  { intros Hreq. apply next_neverThrows; [by apply rec_neverThrows|].
    intros w st1 Hrun. apply record_neverThrows. by eapply rec_required. }
  unfold optionalUnderDefault in Hfit.
  destruct (zdef value) eqn:Hdefv; try (by apply Hplain).
  - apply (Hunion _ (λ w, v.union [w; v.null])); [|done].
    apply (P_children value); [done|]. rewrite Hdefv. set_solver.
  - destruct (zdef innerType) eqn:Hdefi; try (by apply Hplain).
    apply (Hunion _ (λ w, setZodDefault _ (v.union [w; v.null]))); [|done].
    apply (P_children innerType); [|rewrite Hdefi; set_solver].
    apply (P_children value); [done|]. rewrite Hdefv. set_solver.
  - destruct (zdef innerType) eqn:Hdefi; try (by apply Hplain).
    apply (Hunion _ (λ w, setZodDefault _ (v.union [w; v.null]))); [|done].
    apply (P_children innerType); [|rewrite Hdefi; set_solver].
    apply (P_children value); [done|]. rewrite Hdefv. set_solver.
Qed.

Lemma convertLazy_neverThrows (gs : Getters) head actual getter st :
  neverThrows (convertLazy gs rec head actual getter st).
Proof.
  unfold convertLazy. destruct getter as [g|]; [|auto with returns].
  destruct (gs g _); [|auto with returns..].
  destruct (rec _ _) as [[[w|e] st1]|]; [auto with returns..|done].
Qed.

Lemma convertByType_neverThrows head actual st :
  P actual →
  neverThrows (convertByType metadata findBaseCodec (sameAtEveryCall getters)
                 rec head actual st).
Proof.
  intros HP. unfold convertByType.
  assert (∀ c, c ∈ children (zdef actual) → P c) as Hchild
    by (intros c; by apply P_children).
  destruct (zdef actual) as [| | | | | | | | | | | | |e|shape|options|d options
                             |l|es|k x|items|g|i|i|i d|i d| | |t] eqn:Hdef;
    auto with returns; simpl in Hchild.
  - apply next_neverThrows; [|auto with returns].
    apply rec_neverThrows, Hchild. set_solver.
  - apply next_neverThrows; [|auto with returns].
    by apply mapEntries_neverThrows.
  - apply next_neverThrows; [|auto with returns].
    apply next_neverThrows; [|auto with returns].
    by apply mapSchemas_neverThrows.
  - apply next_neverThrows; [|auto with returns].
    apply next_neverThrows; [|auto with returns].
    by apply mapSchemas_neverThrows.
  - destruct l; auto with returns.
  - apply next_neverThrows; [|auto with returns].
    by apply (convertRecordType_neverThrows actual).
  - destruct items as [|item items]; [auto with returns|].
    apply next_neverThrows; [|auto with returns].
    apply mapEntries_neverThrows. intros s Hs.
    rewrite imap_values in Hs. auto.
  - apply convertLazy_neverThrows.
  - unfold convertNullableType.
    assert (P i) as HPi by (apply Hchild; set_solver).
    destruct (zdef i) eqn:Hdefi;
      try (apply next_neverThrows;
           [by apply rec_neverThrows|auto with returns]).
    apply next_neverThrows; [|auto with returns].
    apply rec_neverThrows, (P_children i); [done|]. rewrite Hdefi. set_solver.
  - destruct (findBaseCodec actual); [auto with returns|].
    destruct (getMetadata metadata actual) as [[tn b [original|]]|] eqn:Hm;
      auto with returns.
    destruct (truthy b); [|auto with returns].
    apply next_neverThrows; [|auto with returns].
    apply rec_neverThrows. by eapply P_metadata.
  - destruct (findBaseCodec actual); [auto with returns|].
    destruct (getMetadata metadata actual) as [[tn b [original|]]|] eqn:Hm;
      auto with returns.
    destruct (truthy b); [|auto with returns].
    apply next_neverThrows; [|auto with returns].
    apply rec_neverThrows. by eapply P_metadata.
Qed.

Lemma unwrap_P schema : P schema → P (actualValidator (unwrap schema)).
Proof.
  intros HP. unfold unwrap, unwrapOptional, unwrapDefault.
  assert (∀ s c, P s → match zdef s with
                        | ZOptional x | ZDefault x _ => x = c
                        | _ => False
                        end → P c) as Hin.
  { intros s c Hs Hc. apply (P_children s); [done|].
    destruct (zdef s); try done; subst; set_solver. }
  destruct (zdef schema) eqn:Hdef; simpl; rewrite ?Hdef; try done.
  - assert (P innerType) by (apply (Hin schema); [done|by rewrite Hdef]).
    destruct (zdef innerType) eqn:Hdef'; simpl; try done.
    apply (Hin innerType); [done|by rewrite Hdef'].
  - assert (P innerType) by (apply (Hin schema); [done|by rewrite Hdef]).
    destruct (zdef innerType) eqn:Hdef'; simpl; try done.
    assert (P innerType0) by (apply (Hin innerType); [done|by rewrite Hdef']).
    destruct (zdef innerType0) eqn:Hdef''; simpl; try done.
    apply (Hin innerType0); [done|by rewrite Hdef''].
Qed.

Lemma convertNode_returnsOn :
  returnsOn P (convertNode isZid metadata findBaseCodec
                 (sameAtEveryCall getters) rec).
Proof.
  intros [schema|] st outcome st' HP; simpl; [|intros [= <- _]; eauto].
  specialize (HP _ eq_refl).
  case_decide; [intros [= <- _]; eauto|].
  apply next_neverThrows.
  - destruct (isZid _); [auto with returns|].
    by apply convertByType_neverThrows, unwrap_P.
  - intros [w opt] st1 _. auto with returns.
Qed.

End NoThrow.

Lemma zodToConvexInternal_returnsOn isZid metadata findBaseCodec getters
    (P : ZodType → Prop) :
  (∀ s c, P s → c ∈ children (zdef s) → P c) →
  (∀ g schema, getters !! g = Some (GetterReturns schema) → P schema) →
  (∀ i m schema,
     metadata !! i = Some m → originalSchema m = Some schema → P schema) →
  (∀ s keyType valueType value,
     P s → zdef s = ZRecord keyType valueType →
     match valueType with Some x => Some x | None => keyType end = Some value →
     optionalUnderDefault value || mapsToRequired value = true) →
  ∀ fuel,
    returnsOn P (zodToConvexInternal isZid metadata findBaseCodec
                   (sameAtEveryCall getters) fuel).
Proof.
  intros Hc Hg Hm Hr. induction fuel as [|fuel IH].
  - by intros schema st outcome st' _.
  - apply (convertNode_returnsOn isZid metadata findBaseCodec getters P);
      try done.
    destruct fuel as [|fuel]; [by intros schema st w st' _|].
    intros schema st w st' Hkind Hrun. by eapply convertNode_required.
Qed.

(** *** The schemas of a family *)

Lemma parts_self schema : schema ∈ parts schema.
Proof. destruct schema. simpl. set_solver. Qed.

Lemma parts_child schema c :
  c ∈ children (zdef schema) → parts c ⊆ parts schema.
Proof.
  destruct schema as [id def]. simpl. intros Hc x Hx.
  apply list_elem_of_further.
  destruct def; simpl in Hc; try (by inversion Hc);
    try (apply list_elem_of_singleton in Hc as ->; done).
  - apply list_elem_of_fmap in Hc as ([k s] & -> & Hin).
    apply list_elem_of_join. exists (parts s). split; [done|].
    apply list_elem_of_fmap. by exists (k, s).
  - apply list_elem_of_join. exists (parts c). split; [done|].
    by apply list_elem_of_fmap_2.
  - apply list_elem_of_join. exists (parts c). split; [done|].
    by apply list_elem_of_fmap_2.
  - destruct keyType as [k|], valueType as [w|]; simpl in Hc; set_solver.
  - apply list_elem_of_join. exists (parts c). split; [done|].
    by apply list_elem_of_fmap_2.
Qed.

Lemma parts_trans schema s :
  s ∈ parts schema → parts s ⊆ parts schema.
Proof.
  induction schema as [id def IH] using ZodType_children_ind.
  intros Hs. apply elem_of_cons in Hs as [-> | Hs]; [done|].
  assert (∃ c, c ∈ children def ∧ s ∈ parts c) as (c & Hc & Hsc).
  { destruct def; simpl in Hs |- *; try (by inversion Hs);
      try (eexists; split; [apply list_elem_of_here|done]).
    - apply list_elem_of_join in Hs as (l & Hsl & Hl).
      apply list_elem_of_fmap in Hl as ([k x] & -> & Hin).
      exists x. split; [|done]. apply list_elem_of_fmap. by exists (k, x).
    - apply list_elem_of_join in Hs as (l & Hsl & Hl).
      apply list_elem_of_fmap in Hl as (x & -> & Hin). eauto.
    - apply list_elem_of_join in Hs as (l & Hsl & Hl).
      apply list_elem_of_fmap in Hl as (x & -> & Hin). eauto.
    - destruct keyType as [k|], valueType as [w|]; simpl in *;
        set_solver.
    - apply list_elem_of_join in Hs as (l & Hsl & Hl).
      apply list_elem_of_fmap in Hl as (x & -> & Hin). eauto. }
  rewrite Forall_forall in IH.
  transitivity (parts c); [by apply IH|].
  by apply (parts_child (Zod id def)).
Qed.

Lemma family_root metadata getters schema :
  schema ∈ family metadata getters (Some schema).
Proof. unfold family. apply elem_of_app. left. apply parts_self. Qed.

Lemma family_children metadata getters root s c :
  s ∈ family metadata getters root → c ∈ children (zdef s) →
  c ∈ family metadata getters root.
Proof.
  intros Hs Hc. assert (c ∈ parts s) as Hcs.
  { apply (parts_child s c Hc), parts_self. }
  unfold family in *. rewrite !elem_of_app in *.
  destruct Hs as [Hs | [Hs | Hs]].
  - left. destruct root as [r|]; [|by inversion Hs].
    by apply (parts_trans r s).
  - right. left. apply list_elem_of_join in Hs as (l & Hsl & Hl).
    apply list_elem_of_join. exists l. split; [|done].
    apply list_elem_of_fmap in Hl as (o & -> & Ho).
    destruct o; try (by inversion Hsl). by apply (parts_trans schema s).
  - right. right. apply list_elem_of_join in Hs as (l & Hsl & Hl).
    apply list_elem_of_join. exists l. split; [|done].
    apply list_elem_of_fmap in Hl as (m & -> & Hm).
    destruct (originalSchema m) as [o|]; try (by inversion Hsl).
    by apply (parts_trans o s).
Qed.

Lemma family_getters metadata getters root g schema :
  getters !! g = Some (GetterReturns schema) →
  schema ∈ family metadata getters root.
Proof.
  intros Hg. unfold family. rewrite !elem_of_app. right. left.
  apply list_elem_of_join. exists (parts schema). split; [apply parts_self|].
  apply list_elem_of_fmap. exists (GetterReturns schema). split; [done|].
  apply list_elem_of_fmap. exists (g, GetterReturns schema). split; [done|].
  by apply elem_of_map_to_list.
Qed.

Lemma family_metadata metadata getters root i m schema :
  metadata !! i = Some m → originalSchema m = Some schema →
  schema ∈ family metadata getters root.
Proof.
  intros Hm Ho. unfold family. rewrite !elem_of_app. right. right.
  apply list_elem_of_join. exists (parts schema). split; [apply parts_self|].
  apply list_elem_of_fmap. exists m. split; [by rewrite Ho|].
  apply list_elem_of_fmap. exists (i, m). split; [done|].
  by apply elem_of_map_to_list.
Qed.

(** When the record schemas of the family of a schema have value schemas
    that fit, mapping a schema of the family throws nothing. *)
Lemma zodToConvexInternal_fits isZid metadata findBaseCodec getters root
    fuel schema st outcome st' :
  recordValuesFit (family metadata getters root) = true →
  (∀ s, schema = Some s → s ∈ family metadata getters root) →
  zodToConvexInternal isZid metadata findBaseCodec (sameAtEveryCall getters)
    fuel schema st = Some (outcome, st') →
  ∃ validator, outcome = Return validator.
Proof.
  intros Hfit Hin.
  apply (zodToConvexInternal_returnsOn isZid metadata findBaseCodec getters
           (λ s, s ∈ family metadata getters root)); try done.
  - intros s c. apply family_children.
  - intros g s. apply family_getters.
  - intros i m s. apply family_metadata.
  - intros s keyType valueType value Hs Hdef Hvalue.
    unfold recordValuesFit in Hfit. rewrite forallb_forall in Hfit.
    apply list_elem_of_In in Hs. specialize (Hfit s Hs). rewrite Hdef in Hfit.
    destruct valueType as [x|], keyType as [k|]; by simplify_eq.
Qed.

(** *** A getter that builds its schema anew at every call *)

(** With [Fresh], every call of the getter hands the traversal an object
    schema and an optional wrapper it has not visited, and the wrapper,
    taken off in place, leads back to the getter: the recursion does not
    end within any budget. *)
Lemma fresh_schemas_never_end fuel :
  (∀ n st,
     (∀ x, x ∈ visited st → x < 2 * n + 10)%nat →
     length (resolutions st) = S n →
     zodToConvexInternal Examples.noZid Examples.noMetadata Examples.noCodec
       Examples.freshGetters fuel (Some (Examples.freshObject n)) st = None) ∧
  (∀ n st,
     (∀ x, x ∈ visited st → x < 2 * n + 11)%nat →
     length (resolutions st) = S n →
     zodToConvexInternal Examples.noZid Examples.noMetadata Examples.noCodec
       Examples.freshGetters fuel
       (Some (Zod (2 * n + 11) (ZOptional Examples.Fresh))) st = None).
Proof.
  induction fuel as [|fuel [IHobject IHwrapper]]; [done|].
  split; intros n st Hbound Hcalls.
  - specialize (IHwrapper n (visit (2 * n + 10) st)).
    unfold Examples.freshObject.
    remember (2 * n + 10)%nat as a eqn:Ha.
    remember (2 * n + 11)%nat as b eqn:Hb.
    simpl. rewrite decide_False by (intros Hin; apply Hbound in Hin; lia).
    unfold convertByType. simpl. rewrite IHwrapper; [done| |done].
    intros x. simpl. rewrite elem_of_union, elem_of_singleton.
    intros [-> | Hin]; [lia|]. apply Hbound in Hin. lia.
  - specialize (IHobject (S n)
      (enterGetter (2 * n + 11) 1 (visit (2 * n + 11) st))).
    unfold Examples.freshObject in IHobject.
    remember (2 * S n + 10)%nat as a eqn:Ha.
    remember (2 * S n + 11)%nat as a' eqn:Ha'.
    remember (2 * n + 11)%nat as b eqn:Hb.
    simpl. rewrite decide_False by (intros Hin; apply Hbound in Hin; lia).
    unfold convertByType, convertLazy. simpl. rewrite Hcalls.
    change (Examples.freshGetters 0%nat (S n))
      with (GetterReturns (Examples.freshObject (S n))).
    unfold Examples.freshObject. rewrite <- Ha, <- Ha'.
    rewrite IHobject; [done| |].
    + intros x. simpl. rewrite elem_of_union, elem_of_singleton.
      intros [-> | Hin]; [lia|]. apply Hbound in Hin. lia.
    + simpl. rewrite length_app. simpl. lia.
Qed.

Lemma fresh_getter_never_ends fuel :
  zodToConvexInternal Examples.noZid Examples.noMetadata Examples.noCodec
    Examples.freshGetters fuel (Some Examples.Fresh) freshTraversal = None.
Proof.
  destruct fuel as [|fuel]; [done|].
  pose proof (proj1 (fresh_schemas_never_end fuel) 0%nat
                (enterGetter 1 1 (visit 1 freshTraversal))) as Hobject.
  simpl. unfold convertByType, convertLazy. simpl.
  change (Examples.freshGetters 0%nat 0%nat)
    with (GetterReturns (Examples.freshObject 0%nat)).
  rewrite Hobject; [done| |done].
  intros x. simpl. rewrite elem_of_union, elem_of_singleton.
  intros [-> | Hin]; [lia|]. set_solver.
Qed.




(** ** Optional fields *)

Lemma mapEntries_lookup {K} (rec : Mapper) (fields : list (K * ZodType)) st
    validators st' i k s :
  mapEntries rec fields st = Some (Return validators, st') →
  fields !! i = Some (k, s) →
  ∃ before st1 w st2,
    mapEntries rec (take i fields) st = Some (Return before, st1) ∧
    rec (Some s) st1 = Some (Return w, st2) ∧
    validators !! i = Some (k, w).
Proof.
  revert st validators i.
  induction fields as [|[k' s'] rest IH]; intros st validators i Hmap Hi;
    [done|].
  simpl in Hmap. step_in Hmap. step_in Hmap. injection Hmap as <- <-.
  destruct i as [|i]; simpl in *.
  - injection Hi as -> ->. eauto 10.
  - destruct (IH _ _ _ Hrun0 Hi) as (before & st1' & w & st2' & Hb & Hw & Hl).
    rewrite Hrun. simpl. rewrite Hb. simpl. eauto 10.
Qed.

Lemma isOptionalValidator_setZodDefault d validator :
  isOptionalValidator (setZodDefault d validator) = isOptionalValidator validator.
Proof. by destruct validator. Qed.

Section Fields.

Variable isZid : ZodType -> bool.
Variable metadata : gmap nat Metadata.
Variable findBaseCodec : ZodType -> option BaseCodec.
Variable getters : Getters.

(** What the [switch] returns for a schema that does not delegate *)
Lemma convertByType_flags rec head actual st validator opt st' :
  convertByType metadata findBaseCodec getters rec head actual st
    = Some (Return (validator, opt), st') →
  (delegates actual = false → isOptionalValidator validator = false) ∧
  match nullableOverOptional actual with
  | Some innerInner =>
      opt = true ∧
      ∃ w, rec (Some innerInner) st = Some (Return w, st') ∧
           validator = v.union [w; v.null]
  | None => opt = false
  end.
Proof.
  intros Heq.
  destruct (nullableOverOptional actual) as [innerInner|] eqn:Hn.
  - unfold nullableOverOptional in Hn. unfold convertByType in Heq.
    destruct (zdef actual) eqn:Hdef; try done.
    destruct (zdef innerType) eqn:Hdef'; try done. injection Hn as ->.
    unfold convertNullableType in Heq. rewrite Hdef' in Heq.
    step_in Heq. injection Heq as <- <- <-. eauto.
  - destruct (delegates actual) eqn:Hdel.
    + split; [done|]. unfold delegates in Hdel. unfold convertByType in Heq.
      destruct (zdef actual) eqn:Hdef; try done.
      * unfold convertLazy in Heq. destruct getter as [g|];
          [|by injection Heq as _ <- _].
        destruct (getters g _); try (by injection Heq as _ <- _).
        destruct (rec _ _) as [[[w|e] st1]|]; [..|done];
          by injection Heq as _ <- _.
      * destruct (findBaseCodec actual); [by injection Heq as _ <- _|].
        destruct (getMetadata metadata actual) as [[tn b [original|]]|];
          try (by injection Heq as _ <- _).
        destruct (truthy b); [|by injection Heq as _ <- _].
        step_in Heq. by injection Heq as _ <- _.
      * destruct (findBaseCodec actual); [by injection Heq as _ <- _|].
        destruct (getMetadata metadata actual) as [[tn b [original|]]|];
          try (by injection Heq as _ <- _).
        destruct (truthy b); [|by injection Heq as _ <- _].
        step_in Heq. by injection Heq as _ <- _.
    + apply convertByType_required in Heq as [Hreq ->]; [done|].
      unfold delegates in Hdel. unfold nullableOverOptional in Hn.
      destruct (zdef actual); try done. by destruct (zdef innerType).
Qed.

(** What [unwrap] finds *)
Lemma unwrap_isOptional schema :
  isOptional (unwrap schema) = isOptionalSchema (underDefault schema).
Proof.
  unfold unwrap, unwrapOptional, unwrapDefault, isOptionalSchema, underDefault.
  destruct (zdef schema) eqn:Hdef; simpl; rewrite ?Hdef; try done.
  - by destruct (zdef innerType).
  - destruct (zdef innerType) eqn:Hdef'; simpl; try done.
    by destruct (zdef innerType0).
Qed.

Lemma unwrap_not_optional schema :
  isOptionalSchema (underDefault schema) = false →
  actualValidator (unwrap schema) = underDefault schema.
Proof.
  unfold unwrap, unwrapOptional, unwrapDefault, isOptionalSchema, underDefault.
  destruct (zdef schema) eqn:Hdef; simpl; rewrite ?Hdef; try done.
  by destruct (zdef innerType).
Qed.

(** The validator of a schema that was not visited before *)
Lemma field_flags fuel schema st w st' :
  zid schema ∉ visited st →
  zodToConvexInternal isZid metadata findBaseCodec getters (S fuel)
    (Some schema) st = Some (Return w, st') →
  fieldOptionality isZid
    (zodToConvexInternal isZid metadata findBaseCodec getters) schema w.
Proof.
  unfold fieldOptionality.
  intros Hfresh. simpl. rewrite decide_False by done.
  pose proof (unwrap_isOptional schema) as Hopt.
  pose proof (unwrap_not_optional schema) as Hact.
  destruct (isZid (actualValidator (unwrap schema))) eqn:Hzid; simpl.
  - intros [= <- <-]. rewrite Hopt, orb_false_r.
    split_and!.
    + intros ->. by destruct (hasDefault _).
    + unfold markedOptional. intros [-> _]%orb_false_iff _.
      by destruct (hasDefault _).
    + intros innerInner Hn Hz. exfalso.
      assert (isOptionalSchema (underDefault schema) = false) as Hno.
      { unfold nullableOverOptional, isOptionalSchema in *.
        by destruct (zdef (underDefault schema)). }
      rewrite (Hact Hno) in Hzid. congruence.
  - destruct (convertByType _ _ _ _ _ _ _) as [[[[cv opt]|e] st1]|] eqn:Hconv;
      [|done..].
    simpl. intros [= <- <-].
    apply convertByType_flags in Hconv as [Hcv Hnull].
    rewrite Hopt. split_and!.
    + intros ->. simpl. by destruct (hasDefault _).
    + unfold markedOptional.
      intros [Hno Hnn]%orb_false_iff Hdel. rewrite Hno. simpl.
      rewrite (Hact Hno) in Hcv, Hnull.
      destruct (nullableOverOptional (underDefault schema)) as [x|] eqn:Hx.
      { apply bool_decide_eq_false in Hnn. destruct Hnn. eauto. }
      subst opt. specialize (Hcv Hdel).
      destruct (hasDefault _); [rewrite isOptionalValidator_setZodDefault|];
        done.
    + intros innerInner Hn _.
      assert (isOptionalSchema (underDefault schema) = false) as Hno.
      { unfold nullableOverOptional, isOptionalSchema in *.
        by destruct (zdef (underDefault schema)). }
      rewrite (Hact Hno), Hn in Hnull.
      destruct Hnull as (-> & inner & Hinner & ->).
      eexists inner, _, _, _. split; [done|].
      rewrite Hno. simpl. by destruct (hasDefault _).
Qed.

End Fields.

(** [zodToConvexFields] ends; when it returns, its result holds what
    each field maps to from a fresh visited set, but for a field named
    ["__proto__"]. *)
Lemma zodToConvexFields_returns isZid metadata findBaseCodec getters zod :
  ∃ outcome,
    zodToConvexFields isZid metadata findBaseCodec getters zod = Some outcome ∧
    ∀ out, outcome = Return out →
      ∃ mapped,
        out = assigned mapped ∧
        Forall2
          (λ (field : string * option ZodType) (entry : string * Validator),
             entry.1 = field.1 ∧
             ∃ st, zodToConvexSchema isZid metadata findBaseCodec getters
                     field.2 = Some (Return entry.2, st))
          (fieldEntries zod) mapped.
Proof.
  unfold zodToConvexFields.
  induction (fieldEntries zod) as [|[k schema] rest (outcome & Hout & Hall)];
    simpl.
  - exists (Return []). split; [done|]. intros out [= <-].
    exists []. split; [done|constructor].
  - destruct (zodToConvexSchema_returns isZid metadata findBaseCodec getters
                schema) as ([validator|e] & st & Heq & _); rewrite Heq;
      [|by exists (Throw e)].
    rewrite Hout. destruct outcome as [result|e]; [|by exists (Throw e)].
    eexists. split; [done|]. intros out [= <-].
    destruct (Hall result eq_refl) as (mapped & -> & Hmapped).
    exists ((k, validator) :: mapped). split; [done|].
    constructor; [|done]. simpl. eauto.
Qed.

Lemma zodToConvexFields_keys isZid metadata findBaseCodec getters
    (fields : list (string * option ZodType))
    (out : list (string * Validator)) :
  Forall2 (λ (field : string * option ZodType) (entry : string * Validator),
             entry.1 = field.1 ∧
             ∃ st, zodToConvexSchema isZid metadata findBaseCodec getters
                     field.2 = Some (Return entry.2, st))
          fields out →
  out.*1 = fields.*1.
Proof.
  induction 1 as [|[k s] [k' w] ? ? [Hk _] _ IH]; [done|].
  rewrite !fmap_cons. simpl in *. by rewrite Hk, IH.
Qed.




(** ** Defaults *)

Lemma unwrap_default schema :
  carriedDefaults schema ≠ [] →
  hasDefault (unwrap schema) = true ∧
  defaultValue (unwrap schema) ∈ carriedDefaults schema.
Proof.
  unfold unwrap, unwrapOptional, unwrapDefault, carriedDefaults.
  destruct (zdef schema) eqn:Hdef; simpl; rewrite ?Hdef; try done.
  - destruct (zdef innerType) eqn:Hdef'; simpl; try done.
    intros _. split; [done|]. set_solver.
  - destruct (zdef innerType) eqn:Hdef'; simpl;
      try (intros _; split; [done|]; set_solver).
    destruct (zdef innerType0) eqn:Hdef''; simpl;
      intros _; (split; [done|]); set_solver.
Qed.

Lemma zodDefault_recorded isZid metadata findBaseCodec (getters : Getters)
    fuel schema st w st' :
  zid schema ∉ visited st →
  zodToConvexInternal isZid metadata findBaseCodec getters (S fuel)
    (Some schema) st = Some (Return w, st') →
  hasDefault (unwrap schema) = true →
  zodDefault w = Some (defaultValue (unwrap schema)).
Proof.
  intros Hfresh. simpl. rewrite decide_False by done.
  intros Heq Hhas. rewrite Hhas in Heq.
  destruct (if isZid _ then _ else _) as [[[[cv opt]|e] st1]|]; [|done..].
  simpl in Heq. by injection Heq as <- <-.
Qed.

Lemma default_field isZid metadata findBaseCodec (getters : Getters)
    fuel schema st validator st' :
  zid schema ∉ visited st →
  carriedDefaults schema ≠ [] →
  zodToConvexInternal isZid metadata findBaseCodec getters (S fuel)
    (Some schema) st = Some (Return validator, st') →
  requiredWithMetadata schema validator.
Proof.
  intros Hfresh Hcarried Heq.
  destruct (unwrap_default schema Hcarried) as [Hhas Hin]. split.
  - exists (defaultValue (unwrap schema)). split; [|done].
    by eapply zodDefault_recorded.
  - by eapply field_flags in Heq as (_ & Hreq & _).
Qed.




(** ** Records *)

(** [convertRecordType] against the specification's reading of it *)
Lemma convertRecordType_spec rec keyType valueType st :
  convertRecordType rec keyType (Some valueType) st =
    let* (w, st') := rec (Some (recordValueSchema valueType)) st in
    Some (v.record v.string (recordValueValidator valueType w), st').
Proof.
  unfold convertRecordType, recordValueSchema, recordValueValidator,
    optionalRecordValue.
  destruct (zdef valueType) eqn:Hdef; try done.
  - by destruct (zdef innerType).
  - by destruct (zdef innerType).
Qed.

Lemma record_of_required values :
  isOptionalValidator values = false →
  v.record v.string values = Return (requiredOf (KRecord v.string values)).
Proof. intros Hv. unfold v.record. simpl. by rewrite Hv. Qed.

Lemma zodToConvexInternal_required isZid metadata findBaseCodec
    (getters : Getters) fuel schema st validator st' :
  mapsToRequired schema = true →
  zodToConvexInternal isZid metadata findBaseCodec getters fuel
    (Some schema) st = Some (Return validator, st') →
  isOptionalValidator validator = false.
Proof.
  destruct fuel as [|fuel]; [done|]. apply convertNode_required.
Qed.

(** C6, as the specification states it, fails where the value schema is
    no optional wrapper and yet maps to an optional validator: a
    nullable wrapper around an optional one, or a lazy schema whose
    getter returns an optional one. [v.record] rejects that validator,
    and the mapper throws. *)
Lemma record_of_optional_validator_throws :
  (optionalRecordValue
     (Zod 2 (ZNullable (Zod 3 (ZOptional (Zod 4 ZString))))) = None ∧
   returned (zodToConvexSchema Examples.noZid Examples.noMetadata
               Examples.noCodec Examples.noGetters
               (Some (Zod 2 (ZNullable (Zod 3 (ZOptional (Zod 4 ZString)))))))
     = Some (Return (v.optional (v.union [v.string; v.null]))) ∧
   returned (zodToConvexSchema Examples.noZid Examples.noMetadata
               Examples.noCodec Examples.noGetters
               (Some Examples.recordOfNullable))
     = Some (Throw (Error "Record validator cannot have optional values"))) ∧
  (optionalRecordValue Examples.lazyOptional = None ∧
   returned (zodToConvexSchema Examples.noZid Examples.noMetadata
               Examples.noCodec Examples.lazyOptionalGetters
               (Some Examples.lazyOptional))
     = Some (Return (v.optional v.string)) ∧
   returned (zodToConvexSchema Examples.noZid Examples.noMetadata
               Examples.noCodec Examples.lazyOptionalGetters
               (Some Examples.recordOfLazy))
     = Some (Throw (Error "Record validator cannot have optional values"))).
Proof. split_and!; vm_compute; reflexivity. Qed.

(** C6 (amended): [convertRecordType] maps the value schema, or the
    schema under its wrappers when it is optional, possibly under a
    default, and hands [v.record] string keys and a value validator.
    For an optional value schema that is the union of the validator of
    the schema under the wrappers and null, never an optional validator,
    with the default as [_zodDefault], and [v.record] returns the record
    validator. For any other value schema it is the validator of the
    value schema, and [v.record] returns the record validator when that
    validator is not optional, as it is when the value schema maps to a
    required validator by its kind. [zodToConvex] on a record schema
    ends with what [v.record] gives, or with what the mapping of the
    value schema threw. *)
Theorem record_value_validator isZid metadata findBaseCodec getters
    id keyType valueType :
  let record := Zod id (ZRecord keyType (Some valueType)) in
  let internal :=
    zodToConvexInternal isZid metadata findBaseCodec (sameAtEveryCall getters)
      (pred (budget metadata getters (Some record))) in
  isZid record = false →
  (∀ (mapper : Mapper) st,
     convertRecordType mapper keyType (Some valueType) st =
       let* (w, st') := mapper (Some (recordValueSchema valueType)) st in
       Some (v.record v.string (recordValueValidator valueType w), st')) ∧
  ∃ inner st,
    internal (Some (recordValueSchema valueType)) (visit id freshTraversal)
      = Some (inner, st) ∧
    zodToConvexSchema isZid metadata findBaseCodec getters (Some record)
      = Some (match inner with
              | Return w =>
                  v.record v.string (recordValueValidator valueType w)
              | Throw e => Throw e
              end, st) ∧
    ∀ w,
      inner = Return w →
      match optionalRecordValue valueType with
      | Some (schema, d) =>
          recordValueSchema valueType = schema ∧
          v.record v.string (recordValueValidator valueType w)
            = Return (requiredOf
                        (KRecord v.string (recordValueValidator valueType w))) ∧
          vkind (recordValueValidator valueType w) = KUnion [w; v.null] ∧
          isOptionalValidator (recordValueValidator valueType w) = false ∧
          zodDefault (recordValueValidator valueType w) = d
      | None =>
          recordValueSchema valueType = valueType ∧
          recordValueValidator valueType w = w ∧
          (isOptionalValidator w = false →
           v.record v.string w = Return (requiredOf (KRecord v.string w))) ∧
          (mapsToRequired valueType = true → isOptionalValidator w = false)
      end.
Proof.
  intros record internal Hzid.
  split; [intros mapper st; apply convertRecordType_spec|].
  destruct (zodToConvexSchema_returns isZid metadata findBaseCodec getters
              (Some record)) as (outcome & st & Heq & _).
  rewrite Heq. revert Heq.
  unfold zodToConvexSchema, budget. simpl.
  rewrite decide_False by set_solver.
  unfold unwrap, unwrapOptional, unwrapDefault. simpl.
  fold record. rewrite Hzid.
  unfold convertByType. simpl. rewrite convertRecordType_spec.
  unfold internal, budget. simpl.
  destruct (zodToConvexInternal _ _ _ _ _
              (Some (recordValueSchema valueType)) _)
    as [[[w|e] st1]|] eqn:Hinner; simpl; [| |done].
  - intros Heq. exists (Return w), st1.
    split_and!; [done|..].
    + destruct (v.record v.string (recordValueValidator valueType w));
        simpl in Heq; by injection Heq as <- <-.
    + intros w' [= <-].
      unfold recordValueSchema, recordValueValidator in *.
      destruct (optionalRecordValue valueType) as [[schema [d|]]|].
      * split_and!; try done; by apply record_of_required.
      * split_and!; try done; by apply record_of_required.
      * split_and!; try done; [apply record_of_required|].
        intros Hkind. by eapply zodToConvexInternal_required.
  - intros [= <- <-]. exists (Throw e), st1. by split_and!.
Qed.

Lemma record_value_validator_witness :
  ∃ st,
    zodToConvexSchema Examples.noZid Examples.noMetadata Examples.noCodec
      Examples.noGetters (Some Examples.scoresWithDefault)
    = Some (Return
              (requiredOf
                 (KRecord v.string
                    (setZodDefault (JNum (NumInt 0))
                       (v.union [v.float64; v.null])))),
            st).
Proof.
  destruct (proj2 (record_value_validator Examples.noZid Examples.noMetadata
                     Examples.noCodec Examples.noGetters 1%nat
                     (Some (Zod 2 ZString))
                     (Zod 3 (ZDefault (Zod 4 (ZOptional (Zod 5 ZNumber)))
                               (JNum (NumInt 0)))) eq_refl))
    as (inner & st & Hinner & Hrecord & Hvalue).
  exists st. unfold Examples.scoresWithDefault. rewrite Hrecord.
  vm_compute in Hinner. by injection Hinner as <- _.
Defined.

(** ** Dates *)

Section Dates.

Variable findBaseCodec : ZodType -> option BaseCodec.
Variable isDateSchema : ZodType -> bool.
Variable zodParse : ZodType -> Value -> bool.

Lemma unregistered_here schema :
  unregistered findBaseCodec schema = true → findBaseCodec schema = None.
Proof.
  destruct schema as [id def]. simpl.
  intros [H _]%andb_true_iff. by apply bool_decide_eq_true in H.
Qed.

Lemma unregistered_overrides schema :
  unregistered findBaseCodec schema = true →
  overridesConvertDates findBaseCodec schema.
Proof.
  induction schema as [id def IH] using ZodType_children_ind.
  intros Hreg. pose proof (unregistered_here _ Hreg) as Hnone.
  simpl in *. rewrite Hnone.
  apply andb_true_iff in Hreg as [_ Hreg].
  destruct def; try done; simpl in IH; rewrite Forall_singleton in IH; auto.
Qed.

Lemma schemaToConvex_date schema t :
  dateClassified schema = true →
  overridesConvertDates findBaseCodec schema →
  schemaToConvex findBaseCodec zodParse (JDate t) schema = JNum (getTime t).
Proof.
  induction schema as [id def IH] using ZodType_children_ind.
  intros Hdate Hreg. simpl in *.
  destruct (findBaseCodec (Zod id def)) as [codec|]; [apply Hreg|].
  destruct def; try done; simpl in IH; rewrite Forall_singleton in IH; auto.
Qed.

Lemma fromConvexJS_date schema n :
  dateClassified schema = true →
  overridesConvertDates findBaseCodec schema →
  fromConvexJS findBaseCodec isDateSchema zodParse (JNum n) schema = newDate n.
Proof.
  induction schema as [id def IH] using ZodType_children_ind.
  intros Hdate Hreg. simpl in *.
  destruct (findBaseCodec (Zod id def)) as [codec|]; [apply Hreg|].
  destruct def; try done; simpl in IH; rewrite Forall_singleton in IH; auto.
Qed.

Lemma fromConvexJS_isDateSchema schema n :
  isDateSchema schema = true →
  isWrapper schema = false →
  findBaseCodec schema = None →
  fromConvexJS findBaseCodec isDateSchema zodParse (JNum n) schema = newDate n.
Proof.
  destruct schema as [id def]. unfold isWrapper. simpl.
  intros Hdate Hwrap ->. unfold asDateNumber. simpl.
  rewrite Hdate. by destruct def.
Qed.

Lemma schemaToConvex_date_elsewhere schema t :
  isWrapper schema = false →
  isStructural schema = false →
  findBaseCodec schema = None →
  schemaToConvex findBaseCodec zodParse (JDate t) schema = JNum (getTime t).
Proof.
  destruct schema as [id def]. unfold isWrapper, isStructural. simpl.
  intros Hwrap Hstruct ->. by destruct def.
Qed.

Lemma newDate_getTime t :
  validDate t = true → newDate (getTime t) = JDate t.
Proof.
  destruct t as [ms|]; [|done]. simpl. by intros ->.
Qed.

(** C7 (amended): under a date-classified schema, where the registry
    holds no override for the schema or under its wrappers, or the
    override the codec meets first converts dates as the generic rules
    do, encode turns a date into its epoch milliseconds and decode turns
    a number into the date at that time, so that a valid date comes back
    unchanged; under any other schema the registry classifies as a date
    (a brand or a transform, say) and holds no override for, decode does
    the same, and so does encode unless the schema is an array, object,
    union or record schema; and 2024-01-01T00:00:00.000Z encodes to
    1704067200000 and decodes back. *)
Theorem date_codec schema :
  dateClassified schema = true →
  unregistered findBaseCodec schema = true
  ∨ overridesConvertDates findBaseCodec schema →
  (∀ t, toConvexJS findBaseCodec zodParse
          (TwoArguments schema (JDate t)) = JNum (getTime t)) ∧
  (∀ n, fromConvexJS findBaseCodec isDateSchema zodParse (JNum n) schema
          = newDate n) ∧
  (∀ t, validDate t = true →
        fromConvexJS findBaseCodec isDateSchema zodParse
          (toConvexJS findBaseCodec zodParse
             (TwoArguments schema (JDate t))) schema = JDate t) ∧
  (∀ other n,
     isDateSchema other = true → isWrapper other = false →
     findBaseCodec other = None →
     fromConvexJS findBaseCodec isDateSchema zodParse (JNum n) other
       = newDate n) ∧
  (∀ other t,
     isWrapper other = false → isStructural other = false →
     findBaseCodec other = None →
     toConvexJS findBaseCodec zodParse
       (TwoArguments other (JDate t)) = JNum (getTime t)) ∧
  (toConvexJS findBaseCodec zodParse
     (TwoArguments schema Examples.newYear2024)
     = JNum (NumInt 1704067200000) ∧
   fromConvexJS findBaseCodec isDateSchema zodParse
     (JNum (NumInt 1704067200000)) schema = Examples.newYear2024).
Proof.
  intros Hdate Hreg.
  assert (overridesConvertDates findBaseCodec schema) as Hconverts
    by (destruct Hreg; [by apply unregistered_overrides|done]).
  clear Hreg. split_and!.
  - intros t. by apply schemaToConvex_date.
  - intros n. by apply fromConvexJS_date.
  - intros t Hvalid. unfold toConvexJS. rewrite schemaToConvex_date by done.
    rewrite fromConvexJS_date by done. by apply newDate_getTime.
  - intros other n. apply fromConvexJS_isDateSchema.
  - intros other t. apply schemaToConvex_date_elsewhere.
  - unfold toConvexJS, Examples.newYear2024.
    by rewrite schemaToConvex_date.
  - by rewrite fromConvexJS_date.
Qed.

End Dates.

(** C7, as the specification states it, fails for [z.date()] when the
    registry holds a codec for it that writes a date otherwise: the
    registry is consulted first, so encode gives what that codec gives,
    here a string, and decode leaves the number it is given. *)
Lemma registered_codec_overrides_the_date_rule :
  dateClassified Examples.dateSchema = true ∧
  toConvexJS (Examples.onDates Examples.textCodec) Examples.zodAccepts
    (TwoArguments Examples.dateSchema Examples.newYear2024)
    = JStr "a date" ∧
  fromConvexJS (Examples.onDates Examples.textCodec) Examples.datesOnly
    Examples.zodAccepts (JNum (NumInt 1704067200000)) Examples.dateSchema
    = JNum (NumInt 1704067200000).
Proof. split_and!; reflexivity. Qed.

Lemma date_codec_witness :
  (toConvexJS (Examples.onDates Examples.timeCodec) Examples.zodAccepts
     (TwoArguments (Zod 1 (ZOptional Examples.dateSchema))
        Examples.newYear2024)
     = JNum (NumInt 1704067200000) ∧
   fromConvexJS (Examples.onDates Examples.timeCodec) Examples.datesOnly
     Examples.zodAccepts (JNum (NumInt 1704067200000))
     (Zod 1 (ZOptional Examples.dateSchema)) = Examples.newYear2024) ∧
  (toConvexJS Examples.noCodec Examples.zodAccepts
     (TwoArguments Examples.dateSchema Examples.newYear2024)
     = JNum (NumInt 1704067200000) ∧
   fromConvexJS Examples.noCodec Examples.datesOnly Examples.zodAccepts
     (JNum (NumInt 1704067200000)) Examples.dateSchema
     = Examples.newYear2024).
Proof.
  split.
  - apply (date_codec (Examples.onDates Examples.timeCodec)
             Examples.datesOnly Examples.zodAccepts
             (Zod 1 (ZOptional Examples.dateSchema))); [reflexivity|].
    right. simpl. split; reflexivity.
  - apply (date_codec Examples.noCodec Examples.datesOnly Examples.zodAccepts
             Examples.dateSchema); [reflexivity|]. left. reflexivity.
Defined.

(** ** Unions *)

Section Unions.
Variable findBaseCodec : ZodType -> option BaseCodec.
Variable isDateSchema : ZodType -> bool.
Variable zodParse : ZodType -> Value -> bool.

(** The loop of the union case of [schemaToConvex] *)
Lemma schemaToConvex_union id options value :
  isNullish value = false →
  findBaseCodec (Zod id (ZUnion options)) = None →
  schemaToConvex findBaseCodec zodParse value (Zod id (ZUnion options)) =
    match firstOption (fun option => zodParse option value) options with
    | Some option => schemaToConvex findBaseCodec zodParse value option
    | None => basicToConvex value
    end.
Proof.
  intros Hvalue Hnone. simpl. rewrite Hvalue, Hnone.
  unfold firstOption.
  clear Hnone. induction options as [|option rest IH]; simpl; [done|].
  by destruct (zodParse option value).
Qed.

(** The loop of the union case of [fromConvexJS] *)
Lemma fromConvexJS_union id options value :
  isNullish value = false →
  findBaseCodec (Zod id (ZUnion options)) = None →
  asDateNumber isDateSchema value (Zod id (ZUnion options)) = None →
  fromConvexJS findBaseCodec isDateSchema zodParse value
    (Zod id (ZUnion options)) =
    match firstOption
            (fun option =>
               zodParse option
                 (fromConvexJS findBaseCodec isDateSchema zodParse value option))
            options with
    | Some option =>
        fromConvexJS findBaseCodec isDateSchema zodParse value option
    | None => value
    end.
Proof.
  intros Hvalue Hnone Hdate. simpl. rewrite Hvalue, Hnone, Hdate.
  unfold firstOption. clear Hnone Hdate.
  induction options as [|option rest IH]; simpl; [done|].
  by destruct (zodParse option _).
Qed.

Lemma firstOption_first (accepts : ZodType -> bool) options option :
  firstOption accepts options = Some option →
  ∃ before after,
    options = (before ++ option :: after)%list ∧
    Forall (fun o => accepts o = false) before ∧
    accepts option = true.
Proof.
  unfold firstOption.
  induction options as [|o rest IH]; simpl; [done|].
  destruct (accepts o) eqn:Ho.
  - intros [= ->]. exists [], rest. by repeat split.
  - intros Hfind. destruct (IH Hfind) as (before & after & -> & Hb & Ha).
    exists (o :: before), after. split_and!; [done| |done].
    by constructor.
Qed.

Lemma firstOption_none (accepts : ZodType -> bool) options :
  firstOption accepts options = None ↔
  Forall (fun o => accepts o = false) options.
Proof.
  unfold firstOption.
  induction options as [|o rest IH]; simpl; [by split; [constructor|]|].
  destruct (accepts o) eqn:Ho.
  - split; [done|]. intros H. apply Forall_cons in H as [? _]. congruence.
  - rewrite IH. split; [by constructor|]. by intros [_ ?]%Forall_cons.
Qed.

(** C4 (amended): for a union schema without a registered override and a
    value that is neither null nor undefined, encode recurses into the
    first option, in declaration order, whose validation accepts the
    value, and when no option accepts it returns the schema-agnostic
    conversion of the value (dates become numbers, undefined-valued keys
    are dropped), which is the value itself only when there is nothing to
    convert; decode returns the decoding under the first option whose
    validation accepts that decoding, and the value itself when there is
    none. *)
Theorem union_first_match id options value :
  let union := Zod id (ZUnion options) in
  isNullish value = false →
  findBaseCodec union = None →
  schemaToConvex findBaseCodec zodParse value union =
    match firstOption (fun option => zodParse option value) options with
    | Some option => schemaToConvex findBaseCodec zodParse value option
    | None => basicToConvex value
    end ∧
  (asDateNumber isDateSchema value union = None →
   fromConvexJS findBaseCodec isDateSchema zodParse value union =
     match firstOption
             (fun option =>
                zodParse option
                  (fromConvexJS findBaseCodec isDateSchema zodParse
                     value option))
             options with
     | Some option =>
         fromConvexJS findBaseCodec isDateSchema zodParse value option
     | None => value
     end) ∧
  (∀ accepts option,
     firstOption accepts options = Some option →
     ∃ before after,
       options = (before ++ option :: after)%list ∧
       Forall (fun o => accepts o = false) before ∧
       accepts option = true) ∧
  (∀ accepts,
     firstOption accepts options = None ↔
     Forall (fun o => accepts o = false) options).
Proof.
  intros union Hvalue Hnone. split_and!.
  - by apply schemaToConvex_union.
  - by apply fromConvexJS_union.
  - intros accepts option. apply firstOption_first.
  - intros accepts. apply firstOption_none.
Qed.
End Unions.

(** C4, as the specification states it, fails on a date under
    [z.union([z.string(), z.number()])]: no option accepts it, and encode
    returns its epoch milliseconds, not the date. *)
Lemma unmatched_union_value_is_converted :
  firstOption (fun option => Examples.zodAccepts option Examples.newYear2024)
    [Zod 1 ZString; Zod 2 ZNumber] = None ∧
  schemaToConvex Examples.noCodec Examples.zodAccepts
    Examples.newYear2024 Examples.stringOrNumber
    = JNum (NumInt 1704067200000) ∧
  schemaToConvex Examples.noCodec Examples.zodAccepts
    Examples.newYear2024 Examples.stringOrNumber ≠ Examples.newYear2024.
Proof. split_and!; [reflexivity..|discriminate]. Qed.

Lemma union_first_match_witness :
  schemaToConvex Examples.noCodec Examples.zodAccepts
    Examples.newYear2024 Examples.stringOrDate
    = schemaToConvex Examples.noCodec Examples.zodAccepts
        Examples.newYear2024 (Zod 2 ZDate) ∧
  fromConvexJS Examples.noCodec Examples.datesOnly Examples.zodAccepts
    (JStr "2024") Examples.stringOrDate = JStr "2024".
Proof.
  destruct (union_first_match Examples.noCodec Examples.datesOnly
              Examples.zodAccepts 0%nat [Zod 1 ZString; Zod 2 ZDate]
              Examples.newYear2024 eq_refl eq_refl) as (Hencode & _).
  destruct (union_first_match Examples.noCodec Examples.datesOnly
              Examples.zodAccepts 0%nat [Zod 1 ZString; Zod 2 ZDate]
              (JStr "2024") eq_refl eq_refl) as (_ & Hdecode & _).
  split; [exact Hencode | exact (Hdecode eq_refl)].
Defined.

(** ** Objects *)

Lemma viaShape_lookup (f : ZodType -> Value -> Value) shape fallback k x :
  viaShape (map (fun entry : string * ZodType =>
                   match entry with (k, s) => (k, f s) end) shape)
           fallback k x =
    match shapeLookup shape k with
    | Some s => f s x
    | None => fallback x
    end.
Proof.
  unfold viaShape, shapeLookup.
  induction shape as [|[k' s] rest IH]; simpl; [done|].
  by destruct (String.eqb k k').
Qed.

Lemma definedEntries_ext f g props :
  (∀ k x, f k x = g k x) → definedEntries f props = definedEntries g props.
Proof.
  intros Hfg. induction props as [|[k x] rest IH]; simpl; [done|].
  destruct (isUndefined x); [done|].
  destruct (assignable k); [|done]. by rewrite Hfg, IH.
Qed.

Lemma allEntries_ext f g props :
  (∀ k x, f k x = g k x) → allEntries f props = allEntries g props.
Proof.
  intros Hfg. induction props as [|[k x] rest IH]; simpl; [done|].
  destruct (assignable k); [|done]. by rewrite Hfg, IH.
Qed.

Lemma definedEntries_elem f props k x :
  (k, x) ∈ props → x ≠ JUndefined → assignable k = true →
  (k, f k x) ∈ definedEntries f props.
Proof.
  intros Hin Hx Hk. induction props as [|[k' x'] rest IH]; simpl.
  - by apply not_elem_of_nil in Hin.
  - apply elem_of_cons in Hin as [[= <- <-]|Hin].
    + rewrite Hk. destruct x; try done; apply list_elem_of_here.
    + destruct (isUndefined x'); [auto|].
      destruct (assignable k'); [apply list_elem_of_further|]; auto.
Qed.

Lemma allEntries_elem f props k x :
  (k, x) ∈ props → assignable k = true → (k, f k x) ∈ allEntries f props.
Proof.
  intros Hin Hk. induction props as [|[k' x'] rest IH]; simpl.
  - by apply not_elem_of_nil in Hin.
  - apply elem_of_cons in Hin as [[= <- <-]|Hin].
    + rewrite Hk. apply list_elem_of_here.
    + destruct (assignable k'); [apply list_elem_of_further|]; auto.
Qed.

(** A key that cannot be assigned is in neither result *)
Lemma definedEntries_keys f props k x :
  (k, x) ∈ definedEntries f props → assignable k = true.
Proof.
  induction props as [|[k' x'] rest IH]; simpl.
  - by intros ?%not_elem_of_nil.
  - destruct (isUndefined x'); [done|].
    destruct (assignable k') eqn:Hk'; [|done].
    by intros [[= -> _]|Hin]%elem_of_cons; auto.
Qed.

Lemma allEntries_keys f props k x :
  (k, x) ∈ allEntries f props → assignable k = true.
Proof.
  induction props as [|[k' x'] rest IH]; simpl.
  - by intros ?%not_elem_of_nil.
  - destruct (assignable k') eqn:Hk'; [|done].
    by intros [[= -> _]|Hin]%elem_of_cons; auto.
Qed.

Section Objects.
Variable findBaseCodec : ZodType -> option BaseCodec.
Variable isDateSchema : ZodType -> bool.
Variable zodParse : ZodType -> Value -> bool.

Lemma schemaToConvex_object id shape props :
  findBaseCodec (Zod id (ZObject shape)) = None →
  schemaToConvex findBaseCodec zodParse (JObj props) (Zod id (ZObject shape)) =
    JObj (definedEntries
            (fun k x =>
               match shapeLookup shape k with
               | Some s => schemaToConvex findBaseCodec zodParse x s
               | None => basicToConvex x
               end) props).
Proof.
  intros Hnone. simpl. rewrite Hnone. f_equal.
  apply definedEntries_ext. intros k x.
  apply (viaShape_lookup (fun s v => schemaToConvex findBaseCodec zodParse v s)).
Qed.

Lemma fromConvexJS_object id shape props :
  findBaseCodec (Zod id (ZObject shape)) = None →
  fromConvexJS findBaseCodec isDateSchema zodParse (JObj props)
    (Zod id (ZObject shape)) =
    JObj (allEntries
            (fun k x =>
               match shapeLookup shape k with
               | Some s => fromConvexJS findBaseCodec isDateSchema zodParse x s
               | None => x
               end) props).
Proof.
  intros Hnone. simpl. rewrite Hnone. f_equal.
  apply allEntries_ext. intros k x.
  apply (viaShape_lookup
           (fun s v => fromConvexJS findBaseCodec isDateSchema zodParse v s)).
Qed.

(** C8 (amended): under an object schema without a registered override,
    encode and decode go through the properties of an object value one by
    one, each under the schema the shape gives for its key, and assign
    the result to the same key of a new object. A property whose key is
    not in the shape is never rejected: encode gives it the
    schema-agnostic conversion (dates become numbers, undefined-valued
    keys are dropped, as in [{a: 1, b: undefined}] to [{a: 1}]), decode
    leaves it as it is; so such a property comes back from a round trip
    unchanged when the conversion has nothing to change in it and its
    key is not [__proto__], the one key an assignment does not create:
    no result has a property of that name. *)
Theorem object_fieldwise id shape props :
  let schema := Zod id (ZObject shape) in
  findBaseCodec schema = None →
  schemaToConvex findBaseCodec zodParse (JObj props) schema =
    JObj (definedEntries
            (fun k x =>
               match shapeLookup shape k with
               | Some s => schemaToConvex findBaseCodec zodParse x s
               | None => basicToConvex x
               end) props) ∧
  fromConvexJS findBaseCodec isDateSchema zodParse (JObj props) schema =
    JObj (allEntries
            (fun k x =>
               match shapeLookup shape k with
               | Some s => fromConvexJS findBaseCodec isDateSchema zodParse x s
               | None => x
               end) props) ∧
  (∀ k x,
     (k, x) ∈ props → shapeLookup shape k = None →
     x ≠ JUndefined → basicToConvex x = x →
     assignable k = true →
     (k, x) ∈ entries
       (fromConvexJS findBaseCodec isDateSchema zodParse
          (schemaToConvex findBaseCodec zodParse (JObj props) schema)
          schema)) ∧
  (∀ x,
     (("__proto__", x) ∉ entries
        (schemaToConvex findBaseCodec zodParse (JObj props) schema)) ∧
     (("__proto__", x) ∉ entries
        (fromConvexJS findBaseCodec isDateSchema zodParse (JObj props)
           schema))) ∧
  toConvexJS findBaseCodec zodParse (OneArgument Examples.withUndefined)
    = JObj [("a", JNum (NumInt 1))].
Proof.
  intros schema Hnone. split_and!.
  - by apply schemaToConvex_object.
  - by apply fromConvexJS_object.
  - intros k x Hin Hextra Hdefined Hplain Hk.
    unfold schema.
    rewrite schemaToConvex_object, fromConvexJS_object by done. simpl.
    pose proof (definedEntries_elem
      (fun k x =>
         match shapeLookup shape k with
         | Some s => schemaToConvex findBaseCodec zodParse x s
         | None => basicToConvex x
         end) props k x Hin Hdefined Hk) as Hencoded.
    simpl in Hencoded. rewrite Hextra, Hplain in Hencoded.
    pose proof (allEntries_elem
      (fun k x =>
         match shapeLookup shape k with
         | Some s => fromConvexJS findBaseCodec isDateSchema zodParse x s
         | None => x
         end) _ k x Hencoded Hk) as Hdecoded.
    simpl in Hdecoded. by rewrite Hextra in Hdecoded.
  - intros x. unfold schema.
    rewrite schemaToConvex_object, fromConvexJS_object by done. simpl.
    split; intros Hin.
    + by apply definedEntries_keys in Hin.
    + by apply allEntries_keys in Hin.
  - reflexivity.
Qed.
End Objects.

(** C8, as the specification states it, fails on an extra field that
    holds a date: encode converts it to a number, decode has no schema
    for it and leaves the number, so the round trip changes the value.
    It fails on an extra field named [__proto__] as well: the assignment
    to that key of the new object creates no property, and the field is
    gone after encode. *)
Lemma extra_date_field_does_not_round_trip :
  (shapeLookup [("a", Zod 1 ZNumber)] "seen" = None ∧
   fromConvexJS Examples.noCodec Examples.datesOnly Examples.zodAccepts
     (schemaToConvex Examples.noCodec Examples.zodAccepts
        Examples.withExtraDate Examples.onlyA) Examples.onlyA
     = JObj [("a", JNum (NumInt 1)); ("seen", JNum (NumInt 1704067200000))] ∧
   fromConvexJS Examples.noCodec Examples.datesOnly Examples.zodAccepts
     (schemaToConvex Examples.noCodec Examples.zodAccepts
        Examples.withExtraDate Examples.onlyA) Examples.onlyA
     ≠ Examples.withExtraDate) ∧
  (shapeLookup [("a", Zod 1 ZNumber)] "__proto__" = None ∧
   basicToConvex (JStr "kept") = JStr "kept" ∧
   schemaToConvex Examples.noCodec Examples.zodAccepts
     Examples.withOwnProto Examples.onlyA = JObj [("a", JNum (NumInt 1))] ∧
   fromConvexJS Examples.noCodec Examples.datesOnly Examples.zodAccepts
     (schemaToConvex Examples.noCodec Examples.zodAccepts
        Examples.withOwnProto Examples.onlyA) Examples.onlyA
     = JObj [("a", JNum (NumInt 1))]).
Proof. split; split_and!; try reflexivity. discriminate. Qed.

Lemma object_fieldwise_witness :
  ("note", JStr "kept") ∈
    entries
      (fromConvexJS Examples.noCodec Examples.datesOnly Examples.zodAccepts
         (schemaToConvex Examples.noCodec Examples.zodAccepts
            Examples.withExtraString Examples.onlyA) Examples.onlyA).
Proof.
  destruct (object_fieldwise Examples.noCodec Examples.datesOnly
              Examples.zodAccepts 0%nat [("a", Zod 1 ZNumber)]
              [("a", JNum (NumInt 1)); ("note", JStr "kept")] eq_refl)
    as (_ & _ & Hextra & _).
  apply Hextra; [|reflexivity|discriminate|reflexivity|reflexivity].
  apply list_elem_of_further, list_elem_of_here.
Defined.

(** ** Round trips *)

Lemma forallb_true {A} (f : A -> bool) (l : list A) :
  forallb f l = true → Forall (fun x => f x = true) l.
Proof.
  induction l as [|x l IH]; simpl; [constructor|].
  intros [Hx Hl]%andb_true_iff. constructor; auto.
Qed.

Lemma kept_items items :
  kept (JArr items) = true → Forall (fun item => kept item = true) items.
Proof.
  unfold kept. simpl. induction items as [|x rest IH]; simpl; [constructor|].
  intros [[Hd Hrd]%andb_true_iff [Ha Hra]%andb_true_iff]%andb_true_iff.
  constructor; [by rewrite Hd, Ha|]. apply IH. by rewrite Hrd, Hra.
Qed.

Lemma kept_props props :
  kept (JObj props) = true →
  Forall (fun entry : string * Value =>
            isUndefined entry.2 = false ∧ assignable entry.1 = true ∧
            kept entry.2 = true) props.
Proof.
  unfold kept. simpl. induction props as [|[k x] rest IH]; simpl; [constructor|].
  intros [[[Hu Hd]%andb_true_iff Hrd]%andb_true_iff
          [[Hk Ha]%andb_true_iff Hra]%andb_true_iff]%andb_true_iff.
  constructor.
  - simpl. rewrite Hd, Ha, Hk. by destruct (isUndefined x).
  - apply IH. by rewrite Hrd, Hra.
Qed.

Lemma conforms_shape_lookup shape k x :
  match List.find (fun field : string * (Value -> bool) => String.eqb k field.1)
          (map (fun field : string * ZodType =>
                  match field with (k, s) => (k, conforms s) end) shape)
  with
  | Some field => field.2 x
  | None => false
  end = true →
  ∃ s, shapeLookup shape k = Some s ∧ s ∈ shape.*2 ∧ conforms s x = true.
Proof.
  unfold shapeLookup.
  induction shape as [|[k' s] rest IH]; simpl; [done|].
  destruct (String.eqb k k').
  - simpl. intros Hs. exists s. split_and!; [done| |done]. set_solver.
  - intros H. destruct (IH H) as (s' & ? & ? & ?). exists s'.
    split_and!; [done| |done]. set_solver.
Qed.

Section RoundTrip.
Variable findBaseCodec : ZodType -> option BaseCodec.
Variable isDateSchema : ZodType -> bool.
Variable zodParse : ZodType -> Value -> bool.

Hypothesis dates_sound :
  ∀ schema, isDateSchema schema = true → dateClassified schema = true.
Hypothesis codecs_invert : codecsInvert findBaseCodec.

Lemma schemaToConvex_nullish value schema :
  isNullish value = true →
  schemaToConvex findBaseCodec zodParse value schema = value.
Proof. intros H. destruct schema. simpl. by rewrite H. Qed.

Lemma fromConvexJS_nullish value schema :
  isNullish value = true →
  fromConvexJS findBaseCodec isDateSchema zodParse value schema = value.
Proof. intros H. destruct schema. simpl. by rewrite H. Qed.

Lemma schemaToConvex_codec value schema codec :
  isNullish value = false → findBaseCodec schema = Some codec →
  schemaToConvex findBaseCodec zodParse value schema
    = toConvex codec value schema.
Proof. intros Hv Hc. destruct schema. simpl. by rewrite Hv, Hc. Qed.

Lemma fromConvexJS_codec value schema codec :
  isNullish value = false → findBaseCodec schema = Some codec →
  fromConvexJS findBaseCodec isDateSchema zodParse value schema
    = fromConvex codec value schema.
Proof. intros Hv Hc. destruct schema. simpl. by rewrite Hv, Hc. Qed.

Lemma not_a_date_schema schema :
  dateClassified schema = false → isDateSchema schema = false.
Proof.
  intros Hnot. destruct (isDateSchema schema) eqn:His; [|done].
  apply dates_sound in His. congruence.
Qed.

Lemma asDateNumber_none value id def :
  dateClassified (Zod id def) = false →
  asDateNumber isDateSchema value (Zod id def) = None.
Proof.
  intros Hnot. unfold asDateNumber. destruct value; try done.
  destruct (isDateSchema (Zod id def)) eqn:His.
  - apply dates_sound in His. congruence.
  - simpl in *. by destruct def.
Qed.

Lemma roundTrips_wrapper id def inner :
  findBaseCodec (Zod id def) = None →
  match def with
  | ZOptional i | ZNullable i | ZDefault i _ | ZPrefault i _ => i = inner
  | _ => False
  end →
  ∀ value,
    isNullish value = false →
    fromConvexJS findBaseCodec isDateSchema zodParse
      (schemaToConvex findBaseCodec zodParse value inner) inner = value →
    fromConvexJS findBaseCodec isDateSchema zodParse
      (schemaToConvex findBaseCodec zodParse value (Zod id def)) (Zod id def)
      = value.
Proof.
  intros Hnone Hdef value Hnull Hinner.
  assert (schemaToConvex findBaseCodec zodParse value (Zod id def)
          = schemaToConvex findBaseCodec zodParse value inner) as ->.
  { simpl. rewrite Hnull, Hnone. by destruct def; try done; subst. }
  destruct (isNullish (schemaToConvex findBaseCodec zodParse value inner))
    eqn:Hw.
  - rewrite fromConvexJS_nullish in Hinner |- * by done. done.
  - simpl. rewrite Hw, Hnone. by destruct def; try done; subst.
Qed.

Lemma round_trip_array id element items :
  findBaseCodec (Zod id (ZArray element)) = None →
  Forall (fun item =>
            fromConvexJS findBaseCodec isDateSchema zodParse
              (schemaToConvex findBaseCodec zodParse item element) element
            = item) items →
  fromConvexJS findBaseCodec isDateSchema zodParse
    (schemaToConvex findBaseCodec zodParse (JArr items)
       (Zod id (ZArray element))) (Zod id (ZArray element)) = JArr items.
Proof.
  intros Hnone Hitems. simpl. rewrite !Hnone. simpl.
  unfold asDateNumber. simpl. f_equal.
  rewrite map_map. induction Hitems as [|item rest Hitem _ IH]; simpl; [done|].
  by rewrite Hitem, IH.
Qed.

Lemma round_trip_entries (encode decode : string -> Value -> Value) props :
  Forall (fun entry : string * Value =>
            isUndefined entry.2 = false ∧ assignable entry.1 = true ∧
            decode entry.1 (encode entry.1 entry.2) = entry.2) props →
  allEntries decode (definedEntries encode props) = props.
Proof.
  induction 1 as [|[k x] rest (Hu & Hk & Hx) _ IH]; simpl in *; [done|].
  rewrite Hu, Hk. simpl. rewrite Hk. by rewrite Hx, IH.
Qed.

Lemma symmetric_fields shape :
  (fix all (fields : list (string * ZodType)) : Prop :=
     match fields with
     | [] => True
     | (_, s) :: rest =>
         symmetric findBaseCodec isDateSchema zodParse s ∧ all rest
     end) shape →
  Forall (symmetric findBaseCodec isDateSchema zodParse) shape.*2.
Proof.
  induction shape as [|[k s] rest IH]; simpl; [constructor|].
  intros [Hs Hrest]. constructor; auto.
Qed.

Lemma symmetric_options options :
  (fix all (schemas : list ZodType) : Prop :=
     match schemas with
     | [] => True
     | s :: rest =>
         symmetric findBaseCodec isDateSchema zodParse s ∧ all rest
     end) options →
  Forall (symmetric findBaseCodec isDateSchema zodParse) options.
Proof.
  induction options as [|s rest IH]; simpl; [constructor|].
  intros [Hs Hrest]. constructor; auto.
Qed.

Lemma round_trip_object id shape props :
  findBaseCodec (Zod id (ZObject shape)) = None →
  Forall (roundTrips findBaseCodec isDateSchema zodParse) shape.*2 →
  Forall (symmetric findBaseCodec isDateSchema zodParse) shape.*2 →
  conforms (Zod id (ZObject shape)) (JObj props) = true →
  kept (JObj props) = true →
  fromConvexJS findBaseCodec isDateSchema zodParse
    (schemaToConvex findBaseCodec zodParse (JObj props)
       (Zod id (ZObject shape))) (Zod id (ZObject shape)) = JObj props.
Proof.
  intros Hnone IH Hsym Hconf Hkept.
  rewrite schemaToConvex_object, fromConvexJS_object by done. f_equal.
  apply kept_props in Hkept.
  apply round_trip_entries.
  simpl in Hconf. apply andb_true_iff in Hconf as [Hconf _].
  apply forallb_true in Hconf.
  rewrite Forall_forall in Hconf. rewrite Forall_forall in Hkept.
  rewrite Forall_forall in IH. rewrite Forall_forall in Hsym.
  rewrite Forall_forall. intros [k x] Hin. simpl.
  destruct (Hkept _ Hin) as (Hu & Hk & Hx). simpl in Hu, Hk, Hx.
  split_and!; [done..|].
  destruct (conforms_shape_lookup shape k x (Hconf _ Hin))
    as (s & -> & Hs & Hdescribes).
  apply IH; auto.
Qed.

Lemma round_trip_record id keyType valueType props :
  findBaseCodec (Zod id (ZRecord keyType (Some valueType))) = None →
  roundTrips findBaseCodec isDateSchema zodParse valueType →
  symmetric findBaseCodec isDateSchema zodParse valueType →
  conforms (Zod id (ZRecord keyType (Some valueType))) (JObj props) = true →
  kept (JObj props) = true →
  fromConvexJS findBaseCodec isDateSchema zodParse
    (schemaToConvex findBaseCodec zodParse (JObj props)
       (Zod id (ZRecord keyType (Some valueType))))
    (Zod id (ZRecord keyType (Some valueType))) = JObj props.
Proof.
  intros Hnone IH Hsym Hconf Hkept.
  simpl. rewrite !Hnone. simpl. f_equal.
  apply kept_props in Hkept.
  apply (round_trip_entries
           (fun _ x => schemaToConvex findBaseCodec zodParse x valueType)
           (fun _ x => fromConvexJS findBaseCodec isDateSchema zodParse
                         x valueType)).
  simpl in Hconf. apply forallb_true in Hconf.
  rewrite Forall_forall in Hconf. rewrite Forall_forall in Hkept.
  rewrite Forall_forall. intros [k x] Hin. simpl.
  destruct (Hkept _ Hin) as (Hu & Hk & Hx). simpl in Hu, Hk, Hx.
  split_and!; [done..|]. apply IH; auto. apply (Hconf _ Hin).
Qed.

Lemma firstOption_found (accepts : ZodType -> bool) before option after :
  Forall (fun o => accepts o = false) before →
  accepts option = true →
  firstOption accepts (before ++ option :: after) = Some option.
Proof.
  unfold firstOption. intros Hbefore Haccepts.
  induction Hbefore as [|o rest Ho _ IH]; simpl.
  - by rewrite Haccepts.
  - by rewrite Ho.
Qed.

(** The loops of the union case, for plain and discriminated unions *)
Lemma schemaToConvex_options id def options value :
  def = ZUnion options ∨ (∃ d, def = ZDiscriminatedUnion d options) →
  isNullish value = false →
  findBaseCodec (Zod id def) = None →
  schemaToConvex findBaseCodec zodParse value (Zod id def) =
    match firstOption (fun option => zodParse option value) options with
    | Some option => schemaToConvex findBaseCodec zodParse value option
    | None => basicToConvex value
    end.
Proof.
  intros Hdef Hvalue Hnone.
  destruct Hdef as [-> | [d ->]]; simpl; rewrite Hvalue, Hnone;
    unfold firstOption; clear Hnone;
    (induction options as [|option rest IH]; simpl; [done|]);
    by destruct (zodParse option value).
Qed.

Lemma fromConvexJS_options id def options value :
  def = ZUnion options ∨ (∃ d, def = ZDiscriminatedUnion d options) →
  isNullish value = false →
  findBaseCodec (Zod id def) = None →
  fromConvexJS findBaseCodec isDateSchema zodParse value (Zod id def) =
    match firstOption
            (fun option =>
               zodParse option
                 (fromConvexJS findBaseCodec isDateSchema zodParse value option))
            options with
    | Some option =>
        fromConvexJS findBaseCodec isDateSchema zodParse value option
    | None => value
    end.
Proof.
  intros Hdef Hvalue Hnone.
  assert (asDateNumber isDateSchema value (Zod id def) = None) as Hdate
    by (apply asDateNumber_none; by destruct Hdef as [-> | [d ->]]).
  destruct Hdef as [-> | [d ->]]; simpl; rewrite Hvalue, Hnone, Hdate;
    unfold firstOption; clear Hnone Hdate;
    (induction options as [|option rest IH]; simpl; [done|]);
    by destruct (zodParse option _).
Qed.

Lemma round_trip_union id def options value :
  def = ZUnion options ∨ (∃ d, def = ZDiscriminatedUnion d options) →
  findBaseCodec (Zod id def) = None →
  Forall (roundTrips findBaseCodec isDateSchema zodParse) options →
  Forall (symmetric findBaseCodec isDateSchema zodParse) options →
  unambiguous findBaseCodec isDateSchema zodParse options →
  isNullish value = false →
  existsb (fun option => conforms option value) options = true →
  kept value = true →
  fromConvexJS findBaseCodec isDateSchema zodParse
    (schemaToConvex findBaseCodec zodParse value (Zod id def))
    (Zod id def) = value.
Proof.
  intros Hdef Hnone IH Hsym Hunamb Hnull Hconf Hkept.
  destruct (Hunamb value Hnull Hconf Hkept)
    as (before & option & after & Hoptions & Hbefore & Haccepts
        & Hdescribes & Hrejected).
  rewrite (schemaToConvex_options _ _ options) by done.
  assert (firstOption (fun o => zodParse o value) options = Some option)
    as -> by (rewrite Hoptions; by apply firstOption_found).
  assert (option ∈ options) as Hin by (rewrite Hoptions; set_solver).
  rewrite Forall_forall in IH. rewrite Forall_forall in Hsym.
  assert (fromConvexJS findBaseCodec isDateSchema zodParse
            (schemaToConvex findBaseCodec zodParse value option) option
          = value) as Hback by (apply IH; auto).
  set (wire := schemaToConvex findBaseCodec zodParse value option) in *.
  destruct (isNullish wire) eqn:Hwire.
  { rewrite fromConvexJS_nullish in Hback |- * by done. done. }
  rewrite (fromConvexJS_options _ _ options) by done.
  assert (firstOption
            (fun o => zodParse o
                        (fromConvexJS findBaseCodec isDateSchema zodParse
                           wire o)) options = Some option) as ->; [|done].
  rewrite Hoptions. apply firstOption_found; [done|].
  by rewrite Hback.
Qed.

Lemma round_trip schema : roundTrips findBaseCodec isDateSchema zodParse schema.
Proof.
  induction schema as [id def IH] using ZodType_children_ind.
  intros value Hsym Hconf Hkept.
  destruct (isNullish value) eqn:Hnull.
  { by rewrite schemaToConvex_nullish, fromConvexJS_nullish. }
  destruct (findBaseCodec (Zod id def)) as [codec|] eqn:Hcodec.
  { destruct (codecs_invert _ _ _ Hcodec Hconf Hnull) as [Hwire Hback].
    rewrite (schemaToConvex_codec _ _ codec) by done.
    by rewrite (fromConvexJS_codec _ _ codec). }
  unfold symmetric in Hsym; fold symmetric in Hsym. rewrite Hcodec in Hsym.
  destruct def as [| | | | | | | | | | | | |element|shape|options|d options|l|es
                  |keyType valueType|items|g|i|i|i d|i d| | |t];
    try done.
  - (* string *)
    destruct value; try done. simpl. by rewrite !Hcodec.
  - (* number *)
    destruct value as [| | |n| | | | |]; try done.
    simpl. rewrite !Hcodec. simpl.
    by rewrite not_a_date_schema.
  - (* bigint *)
    destruct value; try done. simpl. by rewrite !Hcodec.
  - (* boolean *)
    destruct value; try done. simpl. by rewrite !Hcodec.
  - (* date *)
    destruct value as [| | | | | |t| |]; try done. simpl in Hconf.
    simpl. rewrite !Hcodec. simpl.
    unfold asDateNumber. simpl. by apply newDate_getTime.
  - (* null *)
    by destruct value.
  - (* nan *)
    destruct value as [| | |n| | | | |]; try done.
    simpl. rewrite !Hcodec. simpl.
    by rewrite not_a_date_schema.
  - (* array *)
    destruct value as [| | | | | | |items|]; try done.
    apply round_trip_array; [done|].
    simpl in IH, Hconf. rewrite Forall_singleton in IH.
    apply forallb_true in Hconf. apply kept_items in Hkept.
    rewrite Forall_forall in Hconf. rewrite Forall_forall in Hkept.
    rewrite Forall_forall. intros item Hitem. apply IH; auto.
  - (* object *)
    destruct value as [| | | | | | | |props]; try done.
    apply round_trip_object; try done. by apply symmetric_fields.
  - (* union *)
    destruct Hsym as [Hsym Hunamb].
    apply (round_trip_union _ _ options); try done; [by left|].
    by apply symmetric_options.
  - (* discriminated union *)
    destruct Hsym as [Hsym Hunamb].
    apply (round_trip_union _ _ options); try done; [right; by exists d|].
    by apply symmetric_options.
  - (* literal *)
    destruct l, value as [| |b'|n'| | | | |]; try done;
      simpl; rewrite !Hcodec; simpl; try done.
    by rewrite not_a_date_schema.
  - (* enum *)
    destruct value; try done. simpl. by rewrite !Hcodec.
  - (* record *)
    destruct valueType as [valueType|]; [|done].
    destruct value as [| | | | | | | |props]; try done.
    simpl in IH. apply Forall_app in IH as [_ IH].
    rewrite Forall_singleton in IH.
    by apply round_trip_record.
  - (* optional *)
    simpl in IH, Hconf. rewrite Forall_singleton in IH.
    apply (roundTrips_wrapper _ _ i); try done.
    apply IH; try done. by destruct value.
  - (* nullable *)
    simpl in IH, Hconf. rewrite Forall_singleton in IH.
    apply (roundTrips_wrapper _ _ i); try done.
    apply IH; try done. by destruct value.
  - (* default *)
    simpl in IH, Hconf. rewrite Forall_singleton in IH.
    apply (roundTrips_wrapper _ _ i); try done.
    apply IH; try done. by destruct value.
  - (* prefault *)
    simpl in IH, Hconf. rewrite Forall_singleton in IH.
    apply (roundTrips_wrapper _ _ i); try done.
    apply IH; try done. by destruct value.
Qed.
End RoundTrip.




(** ** Validation errors *)

Section ValidationErrors.
Context {Ctx : Type}.
Variable parse : ZodType -> Value -> Outcome Value.
Variable flattenSnapshot : list ZodIssue -> Value.
Variable findBaseCodec : ZodType -> option BaseCodec.
Variable isDateSchema : ZodType -> bool.

Lemma formatZodIssues_issues zodIssues context i :
  issues (formatZodIssues flattenSnapshot zodIssues context) !! i
    = formatIssue <$> zodIssues !! i.
Proof. simpl. apply list_lookup_fmap. Qed.

End ValidationErrors.


(** ** Picking *)

(** The mask built from an array of keys flags exactly those keys. *)
Lemma pickObject_lookup keys k :
  pickObject keys !! k = if decide (k ∈ keys) then Some true else None.
Proof.
  unfold pickObject.
  assert (∀ (acc : gmap string bool),
    foldl (fun acc k => <[k := true]> acc) acc keys !! k =
      if decide (k ∈ keys) then Some true else acc !! k) as Hfold.
  { induction keys as [|k' rest IH]; intros acc.
    - done.
    - simpl foldl. rewrite IH.
      destruct (decide (k ∈ rest)) as [Hrest|Hrest].
      + by rewrite decide_True by set_solver.
      + destruct (decide (k = k')) as [->|Hne].
        * rewrite lookup_insert_eq. by rewrite decide_True by set_solver.
        * rewrite lookup_insert_ne by done.
          by rewrite decide_False by set_solver. }
  rewrite Hfold. by destruct (decide (k ∈ keys)).
Qed.

Section Picking.

Variable isZid : ZodType -> bool.
Variable metadata : gmap nat Metadata.
Variable findBaseCodec : ZodType -> option BaseCodec.
Variable getters : gmap nat GetterOutcome.
Variable isDateSchema : ZodType -> bool.
Variable zodParse : ZodType -> Value -> bool.
Variable zodPick : ZodType -> gmap string bool -> Outcome ZodType.

(** [zodToConvex] ends on a schema. *)
Lemma zodToConvex_returns schema :
  ∃ outcome,
    zodToConvex isZid metadata findBaseCodec getters (InputSchema schema)
      = Some outcome ∧
    (∀ output, outcome = Return output →
       ∃ validator st,
         output = OutputValidator validator ∧
         zodToConvexSchema isZid metadata findBaseCodec getters (Some schema)
           = Some (Return validator, st)) ∧
    (∀ e, outcome = Throw e →
       ∃ st,
         zodToConvexSchema isZid metadata findBaseCodec getters (Some schema)
           = Some (Throw e, st)).
Proof.
  destruct (zodToConvexSchema_returns isZid metadata findBaseCodec getters
              (Some schema)) as ([validator|e] & st & Hrun & _);
    unfold zodToConvex; rewrite Hrun.
  - exists (Return (OutputValidator validator)).
    split_and!; [done| |done]. intros output [= <-]. eauto.
  - exists (Throw e). split_and!; [done..|]. intros e' [= <-]. eauto.
Qed.

(** C10 (amended): [convexCodec] calls [zodToConvex] on its schema at
    once and throws what it throws. [pick] on the codec it returns for a
    schema that is not an object schema throws the error "pick() can
    only be called on object schemas"; for an object schema it takes the
    keys as an array or as an object of flags, an array standing for the
    object that flags each of its keys, and, when Zod's [pick] and
    [zodToConvex] on the picked schema return, returns the codec built
    from the picked schema: the codec whose validator is what
    [zodToConvex] returns for the picked schema and whose encode and
    decode are [toConvexJS] and [fromConvexJS] under the picked schema;
    it ends, and throws what Zod's [pick] or [zodToConvex] on the picked
    schema throws. *)
Theorem pick_object_only schema codec keys :
  convexCodec isZid metadata findBaseCodec getters schema
    = Some (Return codec) →
  let picked := pick isZid metadata findBaseCodec getters zodPick codec keys in
  let flags :=
    match keys with
    | KeysArray keys => pickObject keys
    | KeysRecord flags => flags
    end in
  (zodToConvex isZid metadata findBaseCodec getters (InputSchema schema)
     = Some (Return (validator codec)) ∧
   (∀ value, encode findBaseCodec zodParse codec value
             = toConvexJS findBaseCodec zodParse (TwoArguments schema value)) ∧
   (∀ value, decode findBaseCodec isDateSchema zodParse codec value
             = fromConvexJS findBaseCodec isDateSchema zodParse value schema)) ∧
  (∃ outcome, picked = Some outcome) ∧
  ((∀ shape, zdef schema ≠ ZObject shape) →
   picked = Some (Throw (Error "pick() can only be called on object schemas"))) ∧
  (∀ keys' k, keys = KeysArray keys' →
     flags !! k = if decide (k ∈ keys') then Some true else None) ∧
  (∀ shape e,
     zdef schema = ZObject shape → zodPick schema flags = Throw e →
     picked = Some (Throw e)) ∧
  (∀ shape pickedSchema,
     zdef schema = ZObject shape →
     zodPick schema flags = Return pickedSchema →
     match zodToConvex isZid metadata findBaseCodec getters
             (InputSchema pickedSchema) with
     | Some (Return output) =>
         ∃ result,
           picked = Some (Return result) ∧
           validator result = output ∧
           (∀ value,
              encode findBaseCodec zodParse result value
              = toConvexJS findBaseCodec zodParse
                  (TwoArguments pickedSchema value)) ∧
           (∀ value,
              decode findBaseCodec isDateSchema zodParse result value
              = fromConvexJS findBaseCodec isDateSchema zodParse value
                  pickedSchema)
     | Some (Throw e) => picked = Some (Throw e)
     | None => False
     end).
Proof.
  intros Hcodec picked flags.
  assert (zodToConvex isZid metadata findBaseCodec getters (InputSchema schema)
            = Some (Return (validator codec)) ∧ codecSchema codec = schema)
    as [Hvalidator Hschema].
  { unfold convexCodec in Hcodec.
    destruct (zodToConvex _ _ _ _ _) as [[output|e]|]; [|done..].
    by injection Hcodec as <-. }
  assert (∀ pickedSchema,
    match zodToConvex isZid metadata findBaseCodec getters
            (InputSchema pickedSchema) with
    | Some (Return output) =>
        convexCodec isZid metadata findBaseCodec getters pickedSchema
        = Some (Return {| validator := output; codecSchema := pickedSchema |})
    | Some (Throw e) =>
        convexCodec isZid metadata findBaseCodec getters pickedSchema
        = Some (Throw e)
    | None => False
    end) as Hbuilt.
  { intros pickedSchema. unfold convexCodec.
    destruct (zodToConvex_returns pickedSchema) as (outcome & -> & _).
    by destruct outcome. }
  unfold picked, pick, encode, decode. rewrite Hschema. fold flags.
  split_and!.
  - done.
  - done.
  - done.
  - destruct (zdef schema); eauto.
    destruct (zodPick schema flags) as [pickedSchema|e]; [|eauto].
    specialize (Hbuilt pickedSchema).
    destruct (zodToConvex _ _ _ _ (InputSchema pickedSchema)) as [[output|e]|];
      [eauto..|done].
  - intros Hnot. destruct (zdef schema); try done. by destruct (Hnot shape).
  - intros keys' k ->. apply pickObject_lookup.
  - intros shape e -> Hpick. by rewrite Hpick.
  - intros shape pickedSchema -> Hpick. rewrite Hpick.
    specialize (Hbuilt pickedSchema).
    destruct (zodToConvex _ _ _ _ (InputSchema pickedSchema)) as [[output|e]|];
      [|done..].
    eexists. split; [exact Hbuilt|]. by split_and!.
Qed.

End Picking.

(** C10, as the specification states it, fails for [Nicknames]: the
    codec of the object schema is built, the record field meeting the
    lazy schema [Nick] in the visited set, where it maps to [v.any()];
    in the picked schema, which holds the record field alone, the lazy
    schema is met for the first time and maps to an optional validator,
    [v.record] rejects it, and [pick] throws. *)
Lemma pick_throws_on_a_shared_lazy_field :
  let codec :=
    {| validator :=
         OutputValidator
           (v.object [("nick", v.optional v.string);
                      ("nicks", requiredOf (KRecord v.string v.any))]);
       codecSchema := Examples.Nicknames |} in
  convexCodec Examples.noZid Examples.noMetadata Examples.noCodec
    Examples.lazyOptionalGetters Examples.Nicknames = Some (Return codec) ∧
  pick Examples.noZid Examples.noMetadata Examples.noCodec
    Examples.lazyOptionalGetters Examples.keepFlagged codec
    (KeysArray ["nicks"])
  = Some (Throw (Error "Record validator cannot have optional values")).
Proof. split; vm_compute; reflexivity. Qed.

Lemma pick_object_only_witness :
  pick Examples.noZid Examples.noMetadata Examples.noCodec Examples.noGetters
    Examples.keepFlagged
    {| validator := OutputValidator v.float64;
       codecSchema := Examples.dateSchema |}
    (KeysArray ["a"])
  = Some (Throw (Error "pick() can only be called on object schemas")) ∧
  ∃ result,
    pick Examples.noZid Examples.noMetadata Examples.noCodec
      Examples.noGetters Examples.keepFlagged
      {| validator :=
           OutputValidator
             (v.object [("a", v.float64); ("b", v.optional v.float64)]);
         codecSchema := Examples.optionalB |}
      (KeysArray ["b"])
    = Some (Return result) ∧
    validator result
    = OutputValidator (v.object [("b", v.optional v.float64)]).
Proof.
  split.
  - destruct (pick_object_only Examples.noZid Examples.noMetadata
                Examples.noCodec Examples.noGetters Examples.datesOnly
                Examples.zodAccepts Examples.keepFlagged
                Examples.dateSchema
                {| validator := OutputValidator v.float64;
                   codecSchema := Examples.dateSchema |}
                (KeysArray ["a"]) eq_refl) as (_ & _ & Hthrows & _).
    apply Hthrows. intros shape. discriminate.
  - destruct (pick_object_only Examples.noZid Examples.noMetadata
                Examples.noCodec Examples.noGetters Examples.datesOnly
                Examples.zodAccepts Examples.keepFlagged
                Examples.optionalB
                {| validator :=
                     OutputValidator
                       (v.object [("a", v.float64);
                                  ("b", v.optional v.float64)]);
                   codecSchema := Examples.optionalB |}
                (KeysArray ["b"]) eq_refl)
      as (_ & _ & _ & _ & _ & Hpicks).
    destruct (Hpicks [("a", Zod 1 ZNumber);
                      ("b", Zod 2 (ZOptional (Zod 3 ZNumber)))]
                (Zod 1 (ZObject [("b", Zod 2 (ZOptional (Zod 3 ZNumber)))]))
                eq_refl eq_refl) as (result & Hresult & Hvalidator & _).
    exists result. split; [exact Hresult | exact Hvalidator].
Defined.

(** * Further properties *)

(** ** Induction on values *)

Lemma Value_parts_ind (P : Value -> Prop) :
  P JUndefined → P JNull → (∀ b, P (JBool b)) → (∀ n, P (JNum n)) →
  (∀ s, P (JStr s)) → (∀ z, P (JBigInt z)) → (∀ t, P (JDate t)) →
  (∀ items, Forall P items → P (JArr items)) →
  (∀ props, Forall (fun entry : string * Value => P entry.2) props →
            P (JObj props)) →
  ∀ value, P value.
Proof.
  intros Hu Hn Hb Hnum Hs Hz Hd Ha Ho. fix IH 1.
  intros [| |b|n|s|z|t|items|props].
  - exact Hu.
  - exact Hn.
  - exact (Hb b).
  - exact (Hnum n).
  - exact (Hs s).
  - exact (Hz z).
  - exact (Hd t).
  - apply Ha. induction items as [|x rest IHrest]; constructor; [apply IH|done].
  - apply Ho. induction props as [|[k x] rest IHrest]; constructor;
      [apply IH|done].
Qed.

(** ** The schema-agnostic conversion *)

Lemma convexSafe_definedEntries f props :
  Forall (fun entry : string * Value =>
            isUndefined entry.2 = false → assignable entry.1 = true →
            convexSafe (f entry.1 entry.2) = true ∧
            isUndefined (f entry.1 entry.2) = false) props →
  convexSafe (JObj (definedEntries f props)) = true.
Proof.
  intros Hall. simpl. induction Hall as [|[k x] rest Hx _ IH]; [done|].
  simpl. destruct (isUndefined x) eqn:Hu; [done|].
  destruct (assignable k) eqn:Hk; [|done]. simpl in *.
  destruct (Hx Hu Hk) as [-> ->]. by rewrite IH.
Qed.

Lemma assignableKeys_definedEntries f props :
  Forall (fun entry : string * Value =>
            assignableKeys (f entry.1 entry.2) = true) props →
  assignableKeys (JObj (definedEntries f props)) = true.
Proof.
  intros Hall. simpl. induction Hall as [|[k x] rest Hx _ IH]; [done|].
  simpl. destruct (isUndefined x); [done|].
  destruct (assignable k) eqn:Hk; [|done]. simpl in *.
  by rewrite Hk, Hx, IH.
Qed.

Lemma basicToConvex_undefined value :
  isUndefined (basicToConvex value) = isUndefined value.
Proof. by destruct value. Qed.

Lemma basicToConvex_convexSafe value : convexSafe (basicToConvex value) = true.
Proof.
  induction value as [| | | | | | |items IH|props IH] using Value_parts_ind;
    try done.
  - simpl. induction IH as [|x rest Hx _ IHrest]; [done|].
    simpl. by rewrite Hx, IHrest.
  - simpl basicToConvex. apply convexSafe_definedEntries.
    eapply Forall_impl; [exact IH|]. intros [k x] Hx Hu _. simpl in *.
    by rewrite basicToConvex_undefined.
Qed.

Lemma basicToConvex_assignableKeys value :
  assignableKeys (basicToConvex value) = true.
Proof.
  induction value as [| | | | | | |items IH|props IH] using Value_parts_ind;
    try done.
  - simpl. induction IH as [|x rest Hx _ IHrest]; [done|].
    simpl. by rewrite Hx, IHrest.
  - simpl basicToConvex. by apply assignableKeys_definedEntries.
Qed.

Lemma basicToConvex_of_safe value :
  convexSafe value = true → assignableKeys value = true →
  basicToConvex value = value.
Proof.
  induction value as [| | | | | | |items IH|props IH] using Value_parts_ind;
    try done.
  - simpl. intros Hall Hkeys. f_equal.
    induction IH as [|x rest Hx _ IHrest]; [done|].
    simpl in *. apply andb_true_iff in Hall as [Hsafe Hrest].
    apply andb_true_iff in Hkeys as [Hkey Hkeys].
    by rewrite Hx, IHrest.
  - simpl. intros Hall Hkeys. f_equal.
    induction IH as [|[k x] rest Hx _ IHrest]; [done|].
    simpl in *. apply andb_true_iff in Hall as [Hhere Hrest].
    apply andb_true_iff in Hhere as [Hdef Hsafe].
    apply andb_true_iff in Hkeys as [Hkey Hkeys].
    apply andb_true_iff in Hkey as [Hk Hkey].
    apply negb_true_iff in Hdef. by rewrite Hdef, Hk, Hx, IHrest.
Qed.

(** X1: whatever the value, the schema-agnostic conversion gives a value
    with no [Date] in it and no object key whose value is [undefined]. *)
Theorem basicToConvex_is_convex_safe findBaseCodec zodParse value :
  convexSafe (basicToConvex value) = true ∧
  convexSafe (toConvexJS findBaseCodec zodParse (OneArgument value)) = true.
Proof. split; apply basicToConvex_convexSafe. Qed.

(** X2: the schema-agnostic conversion leaves a value unchanged exactly
    when the value holds no [Date], no undefined-valued object key and
    no object key named [__proto__]; so converting twice is converting
    once. *)
Theorem basicToConvex_fixed_points value :
  (basicToConvex value = value ↔
   convexSafe value = true ∧ assignableKeys value = true) ∧
  basicToConvex (basicToConvex value) = basicToConvex value.
Proof.
  split; [split|].
  - intros <-. split;
      [apply basicToConvex_convexSafe|apply basicToConvex_assignableKeys].
  - intros [Hsafe Hkeys]. by apply basicToConvex_of_safe.
  - apply basicToConvex_of_safe;
      [apply basicToConvex_convexSafe|apply basicToConvex_assignableKeys].
Qed.

(** ** What the encoder gives *)

Lemma shapeLookup_elem shape k s :
  shapeLookup shape k = Some s → s ∈ shape.*2.
Proof.
  unfold shapeLookup. induction shape as [|[k' s'] rest IH]; simpl; [done|].
  destruct (String.eqb k k'); simpl.
  - intros [= ->]. set_solver.
  - intros H. apply IH in H. set_solver.
Qed.

Section EncodeSafe.

Variable findBaseCodec : ZodType -> option BaseCodec.
Variable zodParse : ZodType -> Value -> bool.

Hypothesis codecs_safe : codecsSafe findBaseCodec zodParse.
Hypothesis parse_descends : parseDescends zodParse.

Lemma schemaToConvex_convexSafe schema :
  ∀ value,
    zodParse schema value = true →
    convexSafe (schemaToConvex findBaseCodec zodParse value schema) = true ∧
    (isUndefined value = false →
     isUndefined (schemaToConvex findBaseCodec zodParse value schema) = false).
Proof.
  destruct parse_descends as (Harray & Hobject & Hrecord & Hwrapper).
  induction schema as [id def IH] using ZodType_children_ind.
  intros value Hparse.
  destruct (isNullish value) eqn:Hn.
  { rewrite schemaToConvex_nullish by done. by destruct value. }
  destruct (findBaseCodec (Zod id def)) as [codec|] eqn:Hc.
  { rewrite (schemaToConvex_codec _ _ _ _ codec) by done.
    split; [|intros _]; by apply codecs_safe. }
  assert (∀ x : Value,
            convexSafe (basicToConvex x) = true ∧
            (isUndefined x = false → isUndefined (basicToConvex x) = false))
    as Hbasic.
  { intros x. split; [apply basicToConvex_convexSafe|].
    by rewrite basicToConvex_undefined. }
  assert (∀ options,
    Forall (fun s => ∀ x, zodParse s x = true →
       convexSafe (schemaToConvex findBaseCodec zodParse x s) = true ∧
       (isUndefined x = false →
        isUndefined (schemaToConvex findBaseCodec zodParse x s) = false))
      options →
    let tried :=
      (fix tryOptions (opts : list ZodType) : Value :=
         match opts with
         | [] => basicToConvex value
         | option :: rest =>
             if zodParse option value
             then schemaToConvex findBaseCodec zodParse value option
             else tryOptions rest
         end) options in
    convexSafe tried = true ∧
    (isUndefined value = false → isUndefined tried = false)) as Hloop.
  { intros options Hall. induction Hall as [|option rest Hoption _ IHrest].
    - apply Hbasic.
    - simpl. destruct (zodParse option value) eqn:Hp; [|apply IHrest].
      by apply Hoption. }
  simpl. rewrite Hn, Hc.
  destruct def as [| | | | | | | | | | | | |element|shape|options|d options|l|es
                  |keyType valueType|items|g|i|i|i d|i d| | |t];
    simpl in IH; try apply Hbasic.
  - (* date *)
    destruct value; try apply Hbasic. done.
  - (* array *)
    destruct (Harray _ _ _ Hparse) as (items & -> & Hitems).
    rewrite Forall_singleton in IH. split; [|done]. simpl.
    clear Hparse Hn Hloop.
    induction Hitems as [|x rest Hx _ IHrest]; [done|].
    simpl. rewrite IHrest, andb_true_r. by apply IH.
  - (* object *)
    destruct (isObjectLike value) eqn:Hobj; [|by destruct value].
    split; [|done]. apply convexSafe_definedEntries.
    rewrite Forall_forall. intros [k x] Hin Hu Hk. simpl in *.
    rewrite viaShape_lookup.
    destruct (shapeLookup shape k) as [s|] eqn:Hs;
      [|destruct (Hbasic x); auto].
    rewrite Forall_forall in IH.
    destruct (IH s (shapeLookup_elem _ _ _ Hs) x) as [Hsafe Hdefined].
    + by eapply Hobject.
    + auto.
  - (* union *)
    by apply Hloop.
  - (* discriminated union *)
    by apply Hloop.
  - (* record *)
    destruct (isObjectLike value) eqn:Hobj; [|by destruct value].
    split; [|done]. apply convexSafe_definedEntries.
    rewrite Forall_forall. intros [k x] Hin Hu Hk. simpl in *.
    destruct valueType as [valueType|]; [|destruct (Hbasic x); auto].
    assert (Forall (fun s => ∀ x, zodParse s x = true →
              convexSafe (schemaToConvex findBaseCodec zodParse x s) = true ∧
              (isUndefined x = false →
               isUndefined (schemaToConvex findBaseCodec zodParse x s)
               = false)) [valueType]) as IHv
      by (destruct keyType; simpl in IH; [by inversion IH|done]).
    rewrite Forall_singleton in IHv.
    destruct (IHv x) as [Hsafe Hdefined]; [by eapply Hrecord|auto].
  - (* optional *)
    rewrite Forall_singleton in IH. apply IH.
    by apply (Hwrapper id (ZOptional i) i value).
  - (* nullable *)
    rewrite Forall_singleton in IH. apply IH.
    by apply (Hwrapper id (ZNullable i) i value).
  - (* default *)
    rewrite Forall_singleton in IH. apply IH.
    by apply (Hwrapper id (ZDefault i d) i value).
  - (* prefault *)
    rewrite Forall_singleton in IH. apply IH.
    by apply (Hwrapper id (ZPrefault i d) i value).
Qed.

(** X3: when the registered base codecs give storable values for the
    values their schemas accept, and Zod's validation accepts a value
    only if it accepts its parts, every value that the validation of a
    schema accepts encodes under the schema to a value with no [Date] in
    it and no undefined-valued object key. *)
Theorem encoded_value_is_convex_safe schema value :
  zodParse schema value = true →
  convexSafe (toConvexJS findBaseCodec zodParse
                (TwoArguments schema value)) = true.
Proof. intros Hparse. by apply schemaToConvex_convexSafe. Qed.

End EncodeSafe.


(** Zod's validation, as the examples have it, accepts a value only if
    it accepts its parts. *)
Lemma zodAccepts_descends : parseDescends Examples.zodAccepts.
Proof.
  split_and!.
  - intros id element value Hparse. destruct value; try done.
    eexists. split; [done|]. by apply forallb_true.
  - intros id shape value k x s Hparse Hin Hk Hu Hs.
    destruct value as [| | | | | | | |props]; try done. simpl in Hparse, Hin.
    apply andb_true_iff in Hparse as [Hprops _].
    apply forallb_true in Hprops. rewrite Forall_forall in Hprops.
    specialize (Hprops _ Hin). simpl in Hprops. clear Hin.
    unfold shapeLookup in Hs.
    induction shape as [|[k' s'] rest IH]; simpl in *; [done|].
    destruct (String.eqb k k'); simpl in *; [by injection Hs as <-|auto].
  - intros id keyType valueType value k x Hparse Hin Hk Hu.
    destruct value as [| | | | | | | |props]; try done. simpl in Hparse, Hin.
    apply forallb_true in Hparse. rewrite Forall_forall in Hparse.
    apply (Hparse _ Hin).
  - intros id def inner value Hdef Hparse Hn.
    destruct def; try done; subst; simpl in Hparse; by destruct value.
Qed.

Lemma encoded_value_is_convex_safe_witness :
  convexSafe (toConvexJS Examples.noCodec Examples.zodAccepts
                (TwoArguments Examples.Event Examples.event)) = true.
Proof.
  apply (encoded_value_is_convex_safe Examples.noCodec Examples.zodAccepts).
  - intros schema codec value Hcodec. discriminate Hcodec.
  - exact zodAccepts_descends.
  - vm_compute. reflexivity.
Defined.

(** ** Primitive values *)

Section Primitives.
Variable findBaseCodec : ZodType -> option BaseCodec.
Variable isDateSchema : ZodType -> bool.
Variable zodParse : ZodType -> Value -> bool.

Hypothesis no_codec : ∀ schema, findBaseCodec schema = None.

Lemma schemaToConvex_primitive schema value :
  isPrimitive value = true →
  schemaToConvex findBaseCodec zodParse value schema = value.
Proof.
  intros Hp. induction schema as [id def IH] using ZodType_children_ind.
  simpl. rewrite no_codec.
  destruct (isNullish value) eqn:Hn; [done|].
  destruct def; simpl in IH;
    try (by destruct value);
    try (rewrite Forall_singleton in IH; by apply IH).
  all: induction IH as [|option rest Hoption _ IHrest];
    [by destruct value|by destruct (zodParse option value)].
Qed.

Lemma fromConvexJS_primitive schema value :
  isPrimitive value = true →
  fromConvexJS findBaseCodec isDateSchema zodParse value schema = value ∨
  ∃ n, value = JNum n ∧
       fromConvexJS findBaseCodec isDateSchema zodParse value schema
         = newDate n.
Proof.
  intros Hp. induction schema as [id def IH] using ZodType_children_ind.
  simpl. rewrite no_codec.
  destruct (isNullish value) eqn:Hn; [by left|].
  destruct def; simpl in IH;
    try (rewrite Forall_singleton in IH; by apply IH);
    try (destruct value; try done;
         unfold asDateNumber; simpl;
         try (destruct (isDateSchema _)); by eauto).
  all: destruct (asDateNumber isDateSchema value _) as [n|] eqn:Hdate.
  all: try (destruct value; try done; unfold asDateNumber in Hdate;
            simpl in Hdate; destruct (isDateSchema _); [|done];
            injection Hdate as ->; by eauto).
  all: clear Hdate; induction IH as [|option rest Hoption _ IHrest];
    [by left|by destruct (zodParse option _)].
Qed.

(** X4: with no base codec registered, the encoder returns a string, a
    boolean, a number or a bigint as it is, whatever the schema; the
    decoder returns a string, a boolean or a bigint as it is, and a
    number as it is or as the [Date] of that number. *)
Theorem primitives_pass_through schema value :
  isPrimitive value = true →
  toConvexJS findBaseCodec zodParse (TwoArguments schema value)
    = value ∧
  (isNumber value = false →
   fromConvexJS findBaseCodec isDateSchema zodParse value schema = value) ∧
  (∀ n, value = JNum n →
        fromConvexJS findBaseCodec isDateSchema zodParse value schema
          = JNum n ∨
        fromConvexJS findBaseCodec isDateSchema zodParse value schema
          = newDate n).
Proof.
  intros Hp. split_and!.
  - by apply schemaToConvex_primitive.
  - intros Hnum.
    destruct (fromConvexJS_primitive schema value Hp) as [Hsame|(n & -> & _)];
      done.
  - intros n ->.
    destruct (fromConvexJS_primitive schema (JNum n) Hp)
      as [Hsame|(n' & [= <-] & Hdate)]; auto.
Qed.

End Primitives.

Lemma primitives_pass_through_witness :
  toConvexJS Examples.noCodec Examples.zodAccepts
    (TwoArguments Examples.stringOrDate (JStr "2024-01-01")) =
    JStr "2024-01-01" ∧
  fromConvexJS Examples.noCodec Examples.datesOnly Examples.zodAccepts
    (JStr "2024-01-01") Examples.stringOrDate = JStr "2024-01-01".
Proof.
  destruct (primitives_pass_through Examples.noCodec Examples.datesOnly
              Examples.zodAccepts (fun _ => eq_refl) Examples.stringOrDate
              (JStr "2024-01-01") eq_refl) as (Hencode & Hdecode & _).
  split; [exact Hencode|exact (Hdecode eq_refl)].
Defined.

(** ** The mapper inside a larger traversal *)

Lemma return_framed {A} (E : gset nat) stA stB (outcome : Outcome A) :
  visited stB = visited stA ∪ E →
  framedRun E stA (Some (outcome, stA)) (Some (outcome, stB)).
Proof. intros HB o stA' [= <- <-]. split; [done|]. eauto. Qed.

Lemma next_framed {A B} (E : gset nat) stA (rA rB : Run A)
    (kA kB : A → Traversal → Run B) :
  framedRun E stA rA rB →
  (∀ a stA1 stB1,
     visited stA ⊆ visited stA1 →
     visited stB1 = visited stA1 ∪ E →
     framedRun E stA1 (kA a stA1) (kB a stB1)) →
  framedRun E stA (next rA kA) (next rB kB).
Proof.
  intros HA Hk outcome stA' Hrun.
  destruct rA as [[[a|e] stA1]|]; simpl in Hrun; [| |done].
  - destruct (HA _ _ eq_refl) as [Hsub HB].
    destruct (Hk a stA1
                {| visited := visited stA1 ∪ E; resolving := [];
                   resolutions := [] |} Hsub eq_refl _ _ Hrun) as [Hsub' _].
    split; [set_solver|]. intros HE.
    destruct HB as (stB1 & -> & Hv); [set_solver|]. simpl.
    by apply (Hk a stA1 stB1 Hsub Hv _ _ Hrun).
  - injection Hrun as <- <-. destruct (HA _ _ eq_refl) as [Hsub HB].
    split; [done|]. intros HE. destruct (HB HE) as (stB1 & -> & Hv).
    simpl. eauto.
Qed.

Lemma mapEntries_framed {K} rec rec' (fields : list (K * ZodType))
    stA stB (E : gset nat) :
  framed rec rec' →
  visited stB = visited stA ∪ E →
  framedRun E stA (mapEntries rec fields stA) (mapEntries rec' fields stB).
Proof.
  intros Hrec. revert stA stB.
  induction fields as [|[k s] rest IH]; intros stA stB HB; simpl.
  - by apply return_framed.
  - apply next_framed; [by apply Hrec|]. intros w stA1 stB1 _ HB1.
    apply next_framed; [by apply IH|]. intros ws stA2 stB2 _ HB2.
    by apply return_framed.
Qed.

Lemma mapSchemas_framed rec rec' schemas stA stB (E : gset nat) :
  framed rec rec' →
  visited stB = visited stA ∪ E →
  framedRun E stA (mapSchemas rec schemas stA) (mapSchemas rec' schemas stB).
Proof.
  intros Hrec HB. apply next_framed; [by apply mapEntries_framed|].
  intros ws stA1 stB1 _ HB1. by apply return_framed.
Qed.

Lemma convertRecordType_framed rec rec' keyType valueType stA stB
    (E : gset nat) :
  framed rec rec' →
  visited stB = visited stA ∪ E →
  framedRun E stA (convertRecordType rec keyType valueType stA)
                  (convertRecordType rec' keyType valueType stB).
Proof.
  intros Hrec HB. unfold convertRecordType.
  repeat case_match; try (by apply return_framed);
    (apply next_framed; [by apply Hrec|]);
    intros w stA1 stB1 _ HB1; by apply return_framed.
Qed.

Lemma convertNullableType_framed rec rec' inner stA stB (E : gset nat) :
  framed rec rec' →
  visited stB = visited stA ∪ E →
  framedRun E stA (convertNullableType rec inner stA)
                  (convertNullableType rec' inner stB).
Proof.
  intros Hrec HB. unfold convertNullableType.
  destruct (zdef inner); (apply next_framed; [by apply Hrec|]);
    intros w stA1 stB1 _ HB1; by apply return_framed.
Qed.

Section Frame.

Variable isZid : ZodType -> bool.
Variable metadata : gmap nat Metadata.
Variable findBaseCodec : ZodType -> option BaseCodec.
Variable getters : gmap nat GetterOutcome.

Lemma convertLazy_framed rec rec' head actual getter stA stB (E : gset nat) :
  framed rec rec' →
  visited stB = visited stA ∪ E →
  framedRun E stA
    (convertLazy (sameAtEveryCall getters) rec head actual getter stA)
    (convertLazy (sameAtEveryCall getters) rec' head actual getter stB).
Proof.
  intros Hrec HB. unfold convertLazy, sameAtEveryCall.
  destruct getter as [g|]; [|by apply return_framed].
  destruct (default GetterReturnsOther (getters !! g)) as [resolved| |];
    [|by intros o stA' [= <- <-]; split; [|eauto]..].
  intros outcome stA' Hrun.
  destruct (rec (Some resolved) (enterGetter head (zid actual) stA))
    as [[inner stA1]|] eqn:HA; [|done].
  destruct (Hrec _ (enterGetter head (zid actual) stA)
              (enterGetter head (zid actual) stB) E HB _ _ HA)
    as [Hsub Hframe].
  assert (stA' = leaveGetter stA1 ∧
          outcome = Return (match inner with
                            | Return validator => validator
                            | Throw _ => v.any
                            end, false)) as [-> ->]
    by (destruct inner; by injection Hrun as <- <-).
  split; [done|]. intros HE.
  destruct (Hframe HE) as (stB1 & -> & Hv).
  exists (leaveGetter stB1). by destruct inner.
Qed.

Lemma convertByType_framed rec rec' head actual stA stB (E : gset nat) :
  framed rec rec' →
  visited stB = visited stA ∪ E →
  framedRun E stA
    (convertByType metadata findBaseCodec (sameAtEveryCall getters) rec
       head actual stA)
    (convertByType metadata findBaseCodec (sameAtEveryCall getters) rec'
       head actual stB).
Proof.
  intros Hrec HB. unfold convertByType.
  destruct (zdef actual) as [| | | | | | | | | | | | |e|shape|options|d options
                             |l|es|k x|items|g|i|i|i d|i d| | |t];
    try (by apply return_framed).
  - apply next_framed; [by apply Hrec|].
    intros w stA1 stB1 _ HB1. by apply return_framed.
  - apply next_framed; [by apply mapEntries_framed|].
    intros w stA1 stB1 _ HB1. by apply return_framed.
  - apply next_framed.
    + apply next_framed; [by apply mapSchemas_framed|].
      intros w stA1 stB1 _ HB1. by apply return_framed.
    + intros w stA1 stB1 _ HB1. by apply return_framed.
  - apply next_framed.
    + apply next_framed; [by apply mapSchemas_framed|].
      intros w stA1 stB1 _ HB1. by apply return_framed.
    + intros w stA1 stB1 _ HB1. by apply return_framed.
  - destruct l; by apply return_framed.
  - apply next_framed; [by apply convertRecordType_framed|].
    intros w stA1 stB1 _ HB1. by apply return_framed.
  - destruct items; [by apply return_framed|].
    apply next_framed; [by apply mapEntries_framed|].
    intros w stA1 stB1 _ HB1. by apply return_framed.
  - by apply convertLazy_framed.
  - by apply convertNullableType_framed.
  - destruct (findBaseCodec actual); [by apply return_framed|].
    destruct (getMetadata metadata actual) as [[tn b [original|]]|];
      try (by apply return_framed).
    destruct (truthy b); [|by apply return_framed].
    apply next_framed; [by apply Hrec|].
    intros w stA1 stB1 _ HB1. by apply return_framed.
  - destruct (findBaseCodec actual); [by apply return_framed|].
    destruct (getMetadata metadata actual) as [[tn b [original|]]|];
      try (by apply return_framed).
    destruct (truthy b); [|by apply return_framed].
    apply next_framed; [by apply Hrec|].
    intros w stA1 stB1 _ HB1. by apply return_framed.
Qed.

Lemma convertNode_framed rec rec' :
  framed rec rec' →
  framed (convertNode isZid metadata findBaseCodec (sameAtEveryCall getters)
            rec)
         (convertNode isZid metadata findBaseCodec (sameAtEveryCall getters)
            rec').
Proof.
  intros Hrec [schema|] stA stB E HB; simpl; [|by apply return_framed].
  destruct (decide (zid schema ∈ visited stA)) as [Hin|Hnot].
  { rewrite decide_True by set_solver. by apply return_framed. }
  assert (∀ stB1,
    visited stB1 = visited (visit (zid schema) stA) ∪ E →
    framedRun E (visit (zid schema) stA)
      (let* (converted, st1) :=
         (if isZid (actualValidator (unwrap schema)) then
            Some (Return
                    (v.id (default "unknown"
                             match getMetadata metadata
                                     (actualValidator (unwrap schema)) with
                             | Some m =>
                                 if truthy (tableName m) then tableName m
                                 else None
                             | None => None
                             end), false), visit (zid schema) stA)
          else
            convertByType metadata findBaseCodec (sameAtEveryCall getters)
              rec (zid schema) (actualValidator (unwrap schema))
              (visit (zid schema) stA)) in
       let '(convexValidator, nullableOptional) := converted in
       Some (Return
               (if hasDefault (unwrap schema)
                then setZodDefault (defaultValue (unwrap schema))
                       (if isOptional (unwrap schema) || nullableOptional
                        then v.optional convexValidator else convexValidator)
                else if isOptional (unwrap schema) || nullableOptional
                     then v.optional convexValidator else convexValidator),
             st1))
      (let* (converted, st1) :=
         (if isZid (actualValidator (unwrap schema)) then
            Some (Return
                    (v.id (default "unknown"
                             match getMetadata metadata
                                     (actualValidator (unwrap schema)) with
                             | Some m =>
                                 if truthy (tableName m) then tableName m
                                 else None
                             | None => None
                             end), false), stB1)
          else
            convertByType metadata findBaseCodec (sameAtEveryCall getters)
              rec' (zid schema) (actualValidator (unwrap schema)) stB1) in
       let '(convexValidator, nullableOptional) := converted in
       Some (Return
               (if hasDefault (unwrap schema)
                then setZodDefault (defaultValue (unwrap schema))
                       (if isOptional (unwrap schema) || nullableOptional
                        then v.optional convexValidator else convexValidator)
                else if isOptional (unwrap schema) || nullableOptional
                     then v.optional convexValidator else convexValidator),
             st1))) as Hbody.
  { intros stB1 HB1. apply next_framed.
    - destruct (isZid _); [by apply return_framed|].
      by apply convertByType_framed.
    - intros [w opt] stA2 stB2 _ HB2. by apply return_framed. }
  intros outcome stA' Hrun.
  destruct (Hbody {| visited := visited (visit (zid schema) stA) ∪ E;
                     resolving := []; resolutions := [] |} eq_refl
              _ _ Hrun) as [Hsub _].
  simpl in Hsub. split; [set_solver|]. intros HE.
  rewrite decide_False by set_solver.
  apply (Hbody (visit (zid schema) stB)); [|done..].
  simpl. rewrite HB. set_solver.
Qed.

Lemma zodToConvexInternal_framed fuel fuel' :
  (fuel ≤ fuel')%nat →
  framed (zodToConvexInternal isZid metadata findBaseCodec
            (sameAtEveryCall getters) fuel)
         (zodToConvexInternal isZid metadata findBaseCodec
            (sameAtEveryCall getters) fuel').
Proof.
  revert fuel'. induction fuel as [|fuel IH]; intros fuel' Hle.
  - by intros schema stA stB E HB outcome stA'.
  - destruct fuel' as [|fuel']; [lia|].
    apply convertNode_framed, IH. lia.
Qed.

End Frame.

Lemma unshared_cons X sets :
  unshared (X :: sets) = true →
  Forall (fun Y => X ## Y) sets ∧ unshared sets = true.
Proof.
  simpl. intros [Hall Hrest]%andb_true_iff. split; [|done].
  apply forallb_true in Hall. eapply Forall_impl; [done|].
  intros Y HY. by apply bool_decide_eq_true in HY.
Qed.

Lemma forallb_intro {A} (f : A -> bool) (l : list A) :
  Forall (fun x => f x = true) l → forallb f l = true.
Proof. induction 1 as [|x rest Hx _ IH]; simpl; [done|]. by rewrite Hx, IH. Qed.

Lemma returned_inv {A} (r : Run A) outcome :
  returned r = Some outcome → ∃ st, r = Some (outcome, st).
Proof.
  unfold returned. destruct r as [[o st]|]; simpl; [|done].
  intros [= <-]. eauto.
Qed.

(** The items of a tuple, named [_0], [_1], ... *)
Lemma imap_entries_Forall2 {A B} (P : A → B → Prop) (f : nat → string)
    (items : list A) (entries : list (string * B)) :
  Forall2 (λ (field : string * A) (entry : string * B),
             entry.1 = field.1 ∧ P field.2 entry.2)
          (imap (fun index item => (f index, item)) items) entries →
  entries = imap (fun index value => (f index, value)) entries.*2 ∧
  Forall2 P items entries.*2.
Proof.
  revert f entries. induction items as [|item items IH]; intros f entries H.
  - inversion H. by split; [|constructor].
  - simpl in H. inversion H as [|? [k w] ? rest [Hk Hw] Hrest]; subst.
    simpl in *. destruct (IH (f ∘ S) rest Hrest) as [Heq Hall].
    split; [|by constructor]. subst k. f_equal. exact Heq.
Qed.

Section Independence.

Variable isZid : ZodType -> bool.
Variable metadata : gmap nat Metadata.
Variable findBaseCodec : ZodType -> option BaseCodec.
Variable getters : gmap nat GetterOutcome.

Lemma framed_any_fuel fuel1 fuel2 schema stA stB o1 stA' o2 stB'
    (E : gset nat) :
  zodToConvexInternal isZid metadata findBaseCodec (sameAtEveryCall getters)
    fuel1 schema stA = Some (o1, stA') →
  zodToConvexInternal isZid metadata findBaseCodec (sameAtEveryCall getters)
    fuel2 schema stB = Some (o2, stB') →
  visited stB = visited stA ∪ E →
  E ## visited stA' →
  o1 = o2 ∧ visited stB' = visited stA' ∪ E.
Proof.
  intros HA HB Hvisited HE.
  destruct (zodToConvexInternal_framed isZid metadata findBaseCodec getters
              fuel1 (fuel1 `max` fuel2) (Nat.le_max_l _ _) schema stA stB E
              Hvisited _ _ HA) as [_ Hframe].
  destruct (Hframe HE) as (stB1 & Hrun1 & Hv1).
  destruct (zodToConvexInternal_framed isZid metadata findBaseCodec getters
              fuel2 (fuel1 `max` fuel2) (Nat.le_max_r _ _) schema stB stB ∅
              (eq_sym (union_empty_r_L _)) _ _ HB) as [_ Hsame].
  destruct Hsame as (stB2 & Hrun2 & Hv2); [set_solver|].
  rewrite Hrun1 in Hrun2. injection Hrun2 as <- <-.
  split; [done|]. rewrite <- Hv1, Hv2. set_solver.
Qed.

Lemma alone_returns schema :
  ∃ outcome st,
    zodToConvexSchema isZid metadata findBaseCodec getters (Some schema)
      = Some (outcome, st) ∧
    footprint isZid metadata findBaseCodec getters schema = visited st.
Proof.
  destruct (zodToConvexSchema_returns isZid metadata findBaseCodec getters
              (Some schema)) as (outcome & st & Heq & _).
  exists outcome, st. split; [done|]. unfold footprint.
  by rewrite Heq.
Qed.

Lemma inside_a_traversal fuel schema st outcome st' :
  zodToConvexInternal isZid metadata findBaseCodec (sameAtEveryCall getters)
    fuel (Some schema) st = Some (outcome, st') →
  visited st ## footprint isZid metadata findBaseCodec getters schema →
  returned (zodToConvexSchema isZid metadata findBaseCodec getters
              (Some schema)) = Some outcome ∧
  visited st' =
    footprint isZid metadata findBaseCodec getters schema ∪ visited st.
Proof.
  intros Hrun Hdisjoint.
  destruct (alone_returns schema) as (o0 & stA & Halone & Hfoot).
  rewrite Halone, Hfoot in *. simpl.
  destruct (framed_any_fuel _ _ _ freshTraversal st _ _ _ _ (visited st)
              Halone Hrun) as [-> Hv]; [simpl; set_solver|done|].
  done.
Qed.

(** Fields that share no schema object are mapped, within one
    traversal, as each is on its own; the first that throws ends the
    traversal. *)
Lemma mapEntries_alone {K} fuel (fields : list (K * ZodType)) st outcome st' :
  mapEntries (zodToConvexInternal isZid metadata findBaseCodec
                (sameAtEveryCall getters) fuel) fields st
    = Some (outcome, st') →
  unshared (visited st ::
            (footprint isZid metadata findBaseCodec getters <$> fields.*2))
    = true →
  match outcome with
  | Return entries =>
      Forall2 (λ (field : K * ZodType) (entry : K * Validator),
                 entry.1 = field.1 ∧
                 returned (zodToConvexSchema isZid metadata findBaseCodec
                             getters (Some field.2)) = Some (Return entry.2))
              fields entries
  | Throw e =>
      ∃ before k s after,
        fields = (before ++ (k, s) :: after)%list ∧
        Forall (λ field : K * ZodType,
                  ∃ validator,
                    returned (zodToConvexSchema isZid metadata findBaseCodec
                                getters (Some field.2))
                    = Some (Return validator)) before ∧
        returned (zodToConvexSchema isZid metadata findBaseCodec getters
                    (Some s)) = Some (Throw e)
  end.
Proof.
  revert st outcome.
  induction fields as [|[k s] rest IH]; intros st outcome Hmap Hun.
  - simpl in Hmap. injection Hmap as <- <-. constructor.
  - simpl in Hmap. rewrite !fmap_cons in Hun.
    apply unshared_cons in Hun as [Hst Hun].
    apply Forall_cons in Hst as [Hs0 Hst].
    pose proof Hun as Hun'. apply unshared_cons in Hun' as [Hfoot Hun'].
    destruct (zodToConvexInternal _ _ _ _ fuel (Some s) st)
      as [[[w|e] st1]|] eqn:Hs; simpl in Hmap; [| |done].
    + destruct (inside_a_traversal _ _ _ _ _ Hs Hs0) as [Halone Hv].
      assert (unshared (visited st1 ::
                (footprint isZid metadata findBaseCodec getters <$> rest.*2))
              = true) as Hun1.
      { simpl. rewrite Hun', andb_true_r.
        apply forallb_intro, Forall_forall. intros Y HY.
        apply bool_decide_eq_true. rewrite Hv.
        rewrite Forall_forall in Hst. rewrite Forall_forall in Hfoot.
        specialize (Hst Y HY). specialize (Hfoot Y HY). set_solver. }
      destruct (mapEntries _ rest st1) as [[[ws|e] st2]|] eqn:Hrest;
        simpl in Hmap; [| |done]; injection Hmap as <- <-;
        specialize (IH _ _ Hrest Hun1).
      * by constructor.
      * destruct IH as (before & k' & s' & after & -> & Hbefore & Hthrows).
        exists ((k, s) :: before), k', s', after.
        split_and!; [done| |done]. constructor; [|done]. simpl. eauto.
    + injection Hmap as <- <-.
      destruct (inside_a_traversal _ _ _ _ _ Hs Hs0) as [Halone Hv].
      exists [], k, s, rest. by split_and!.
Qed.

(** X5: for getters that do the same at every call, mapping a schema in
    the middle of a traversal that has visited none of the schema
    objects its own traversal visits comes to what mapping it on its own
    comes to, the same validator or the same error, and adds exactly
    those schema objects to the visited set. *)
Theorem mapping_is_independent_of_the_traversal schema st fuel :
  visited st ## footprint isZid metadata findBaseCodec getters schema →
  (budget metadata getters (Some schema) ≤ fuel)%nat →
  ∃ outcome st',
    returned (zodToConvexSchema isZid metadata findBaseCodec getters
                (Some schema)) = Some outcome ∧
    zodToConvexInternal isZid metadata findBaseCodec (sameAtEveryCall getters)
      fuel (Some schema) st = Some (outcome, st') ∧
    visited st' =
      footprint isZid metadata findBaseCodec getters schema ∪ visited st.
Proof.
  intros Hdisjoint Hfuel.
  destruct (alone_returns schema) as (outcome & stA & Halone & Hfoot).
  pose proof Halone as Hrun. unfold zodToConvexSchema in Hrun.
  rewrite Hfoot in Hdisjoint.
  assert (visited st = visited freshTraversal ∪ visited st) as Hst0
    by (simpl; set_solver).
  destruct (zodToConvexInternal_framed isZid metadata findBaseCodec getters
              _ fuel Hfuel (Some schema) freshTraversal st (visited st)
              Hst0 _ _ Hrun) as [_ Hframe].
  destruct (Hframe Hdisjoint) as (st' & Hst & Hv).
  exists outcome, st'. rewrite Halone, Hfoot. split_and!; [done..|].
  rewrite Hv. set_solver.
Qed.

Lemma zodToConvexFields_object_returns id shape entries :
  Forall2 (λ (field : string * ZodType) (entry : string * Validator),
             entry.1 = field.1 ∧
             returned (zodToConvexSchema isZid metadata findBaseCodec
                         getters (Some field.2)) = Some (Return entry.2))
          shape entries →
  zodToConvexFields isZid metadata findBaseCodec getters
    (FieldsOfObject id shape) = Some (Return (assigned entries)).
Proof.
  unfold zodToConvexFields, fieldEntries.
  induction 1 as [|[k s] [k' w] shape entries [Hk Hw] _ IH]; [done|].
  simpl in *. subst k'. apply returned_inv in Hw as [st ->].
  rewrite IH. unfold assigned. simpl. by destruct (assignable k).
Qed.

Lemma zodToConvexFields_object_throws id before k s after e :
  Forall (λ field : string * ZodType,
            ∃ validator,
              returned (zodToConvexSchema isZid metadata findBaseCodec
                          getters (Some field.2))
              = Some (Return validator)) before →
  returned (zodToConvexSchema isZid metadata findBaseCodec getters (Some s))
    = Some (Throw e) →
  zodToConvexFields isZid metadata findBaseCodec getters
    (FieldsOfObject id (before ++ (k, s) :: after)) = Some (Throw e).
Proof.
  unfold zodToConvexFields, fieldEntries. intros Hbefore Hthrows.
  induction Hbefore as [|[k' s'] before [w Hw] _ IH]; simpl.
  - by apply returned_inv in Hthrows as [st ->].
  - simpl in Hw. apply returned_inv in Hw as [st ->]. by rewrite IH.
Qed.

Lemma visited_first id : visited (visit id freshTraversal) = {[id]}.
Proof. simpl. apply union_empty_r_L. Qed.

(** What [zodToConvexSchema] does on a schema without wrappers that is
    not a Convex id: the [switch], from a visited set that holds the
    schema alone *)
Lemma zodToConvexSchema_switch schema :
  unwrap schema =
    {| actualValidator := schema; isOptional := false;
       hasDefault := false; defaultValue := JUndefined |} →
  isZid schema = false →
  zodToConvexSchema isZid metadata findBaseCodec getters (Some schema) =
    let* (converted, st1) :=
      convertByType metadata findBaseCodec (sameAtEveryCall getters)
        (zodToConvexInternal isZid metadata findBaseCodec
           (sameAtEveryCall getters)
           (size (universe metadata getters (Some schema))))
        (zid schema) schema (visit (zid schema) freshTraversal) in
    Some (Return (if converted.2 then v.optional converted.1
                  else converted.1), st1).
Proof.
  intros Hunwrap Hzid. unfold zodToConvexSchema, budget. simpl.
  rewrite decide_False by set_solver. rewrite Hunwrap. simpl. rewrite Hzid.
  destruct (convertByType _ _ _ _ _ _ _) as [[[[w opt]|e] st1]|]; try done.
Qed.

(** X6: when the fields of an object schema share no schema object with
    one another or with the object itself (their traversals visit
    disjoint sets), the object maps to the object validator of the
    fields that [zodToConvexFields] gives, each field mapped as on its
    own, and throws what [zodToConvexFields] throws. *)
Theorem object_of_unshared_fields id shape :
  let object := Zod id (ZObject shape) in
  isZid object = false →
  unshared ({[id]} ::
            (footprint isZid metadata findBaseCodec getters <$> shape.*2))
    = true →
  ∃ outcome,
    zodToConvexFields isZid metadata findBaseCodec getters
      (FieldsOfObject id shape) = Some outcome ∧
    returned (zodToConvexSchema isZid metadata findBaseCodec getters
                (Some object))
    = Some match outcome with
           | Return fields => Return (v.object fields)
           | Throw e => Throw e
           end.
Proof.
  intros object Hzid Hun.
  destruct (zodToConvexSchema_returns isZid metadata findBaseCodec getters
              (Some object)) as (o & st & Hrun & _).
  rewrite Hrun. rewrite zodToConvexSchema_switch in Hrun by done.
  unfold convertByType in Hrun. simpl in Hrun.
  destruct (mapEntries _ shape _) as [[[ws|e] st1]|] eqn:Hmap;
    simpl in Hrun; [| |done]; injection Hrun as <- <-;
    apply mapEntries_alone in Hmap; try (by rewrite visited_first).
  - exists (Return (assigned ws)). split; [|done].
    by apply zodToConvexFields_object_returns.
  - destruct Hmap as (before & k & s & after & -> & Hbefore & Hthrows).
    exists (Throw e). split; [|done].
    by apply zodToConvexFields_object_throws.
Qed.

(** X7: an array schema that is not among the schema objects the
    traversal of its element visits maps to the array validator of the
    validator its element maps to on its own, and throws what the
    element throws. *)
Theorem array_of_element id element :
  let array := Zod id (ZArray element) in
  isZid array = false →
  id ∉ footprint isZid metadata findBaseCodec getters element →
  ∃ outcome,
    returned (zodToConvexSchema isZid metadata findBaseCodec getters
                (Some element)) = Some outcome ∧
    returned (zodToConvexSchema isZid metadata findBaseCodec getters
                (Some array))
    = Some match outcome with
           | Return elementValidator => Return (v.array elementValidator)
           | Throw e => Throw e
           end.
Proof.
  intros array Hzid Hid.
  destruct (zodToConvexSchema_returns isZid metadata findBaseCodec getters
              (Some array)) as (o & st & Hrun & _).
  rewrite Hrun. rewrite zodToConvexSchema_switch in Hrun by done.
  unfold convertByType in Hrun. simpl in Hrun.
  destruct (zodToConvexInternal _ _ _ _ _ (Some element) _)
    as [[[ew|e] st1]|] eqn:Hcall; simpl in Hrun; [| |done];
    injection Hrun as <- <-;
    (apply inside_a_traversal in Hcall as [Halone _];
       [|rewrite visited_first; set_solver]);
    eexists; by split.
Qed.

(** X8: a tuple schema whose items share no schema object with one
    another or with the tuple maps to an object validator with one field
    for each item, named [_0], [_1], ... in order, holding the validator
    the item maps to on its own; the empty tuple maps to the empty
    object validator; and the tuple throws what the first item that
    throws on its own throws. *)
Theorem tuple_of_unshared_items id items :
  let tuple := Zod id (ZTuple items) in
  isZid tuple = false →
  unshared ({[id]} ::
            (footprint isZid metadata findBaseCodec getters <$> items))
    = true →
  ∃ outcome,
    returned (zodToConvexSchema isZid metadata findBaseCodec getters
                (Some tuple)) = Some outcome ∧
    match outcome with
    | Return validator =>
        ∃ validators,
          validator =
            v.object
              (imap (fun index validator => ("_" +:+ pretty index, validator))
                    validators) ∧
          Forall2 (λ item validator,
                     returned (zodToConvexSchema isZid metadata findBaseCodec
                                 getters (Some item))
                     = Some (Return validator)) items validators
    | Throw e =>
        ∃ before item after,
          items = (before ++ item :: after)%list ∧
          Forall (λ item,
                    ∃ validator,
                      returned (zodToConvexSchema isZid metadata
                                  findBaseCodec getters (Some item))
                      = Some (Return validator)) before ∧
          returned (zodToConvexSchema isZid metadata findBaseCodec getters
                      (Some item)) = Some (Throw e)
    end.
Proof.
  intros tuple Hzid Hun.
  destruct (zodToConvexSchema_returns isZid metadata findBaseCodec getters
              (Some tuple)) as (o & st & Hrun & _).
  rewrite Hrun. rewrite zodToConvexSchema_switch in Hrun by done.
  unfold convertByType in Hrun. simpl in Hrun.
  destruct items as [|item items].
  { simpl in Hrun. injection Hrun as <- <-. eexists. split; [done|].
    exists []. split; [done|constructor]. }
  destruct (mapEntries _ _ _) as [[[ws|e] st1]|] eqn:Hmap;
    simpl in Hrun; [| |done]; injection Hrun as <- <-;
    apply mapEntries_alone in Hmap;
    try (by rewrite visited_first, imap_values);
    (eexists; split; [done|]).
  - apply (imap_entries_Forall2
             (λ item validator,
                returned (zodToConvexSchema isZid metadata findBaseCodec
                            getters (Some item)) = Some (Return validator)))
      in Hmap as [Heq Hall].
    exists ws.*2. split; [by rewrite <- Heq|done].
  - destruct Hmap as (before & k & s & after & Heq & Hbefore & Hthrows).
    exists before.*2, s, after.*2. split_and!; [|by apply Forall_fmap|done].
    rewrite <- (imap_values (fun index => "_" +:+ pretty index)
                  (item :: items)).
    rewrite Heq. by rewrite fmap_app, fmap_cons.
Qed.

(** X9: for getters that do the same at every call, a lazy schema that
    is not among the schema objects the traversal of the schema its
    getter returns visits maps to the validator that schema maps to on
    its own, and to [v.any()] when that schema throws on its own: the
    lazy case catches the error; a transform or pipe registered as a
    brand maps to the validator its original schema maps to on its own
    and, having no [try], throws what that schema throws. *)
Theorem lazy_and_brand_are_transparent id :
  (∀ g resolved,
     let lazy := Zod id (ZLazy (Some g)) in
     isZid lazy = false →
     getters !! g = Some (GetterReturns resolved) →
     id ∉ footprint isZid metadata findBaseCodec getters resolved →
     ∃ outcome,
       returned (zodToConvexSchema isZid metadata findBaseCodec getters
                   (Some resolved)) = Some outcome ∧
       returned (zodToConvexSchema isZid metadata findBaseCodec getters
                   (Some lazy))
       = Some (Return match outcome with
                      | Return validator => validator
                      | Throw _ => v.any
                      end)) ∧
  (∀ def m original,
     let branded := Zod id def in
     def = ZTransform ∨ def = ZPipe →
     isZid branded = false →
     findBaseCodec branded = None →
     metadata !! id = Some m →
     truthy (brand m) = true →
     originalSchema m = Some original →
     id ∉ footprint isZid metadata findBaseCodec getters original →
     returned (zodToConvexSchema isZid metadata findBaseCodec getters
                 (Some branded)) =
     returned (zodToConvexSchema isZid metadata findBaseCodec getters
                 (Some original))).
Proof.
  split.
  - intros g resolved lazy Hzid Hg Hid.
    destruct (zodToConvexSchema_returns isZid metadata findBaseCodec getters
                (Some lazy)) as (o & st & Hrun & _).
    rewrite Hrun. rewrite zodToConvexSchema_switch in Hrun by done.
    unfold convertByType, convertLazy, sameAtEveryCall in Hrun.
    simpl in Hrun. rewrite Hg in Hrun. simpl in Hrun.
    destruct (zodToConvexInternal _ _ _ _ _ (Some resolved) _)
      as [[[rw|e] st1]|] eqn:Hcall; simpl in Hrun; [| |done];
      injection Hrun as <- <-;
      (apply inside_a_traversal in Hcall as [Halone _];
         [|simpl; set_solver]);
      eexists; by split.
  - intros def m original branded Hdef Hzid Hcodec Hm Hbrand Horiginal Hid.
    destruct (zodToConvexSchema_returns isZid metadata findBaseCodec getters
                (Some branded)) as (o & st & Hrun & _).
    rewrite Hrun.
    rewrite zodToConvexSchema_switch in Hrun;
      [|by destruct Hdef as [-> | ->]|done].
    assert (convertByType metadata findBaseCodec (sameAtEveryCall getters)
              (zodToConvexInternal isZid metadata findBaseCodec
                 (sameAtEveryCall getters)
                 (size (universe metadata getters (Some branded))))
              (zid branded) branded (visit (zid branded) freshTraversal) =
            let* (validator, st1) :=
              zodToConvexInternal isZid metadata findBaseCodec
                (sameAtEveryCall getters)
                (size (universe metadata getters (Some branded)))
                (Some original) (visit id freshTraversal) in
            Some (Return (validator, false), st1)) as Hconvert.
    { unfold convertByType, getMetadata. unfold branded at 3 4. simpl.
      destruct Hdef as [-> | ->]; fold branded; rewrite Hcodec; simpl;
        rewrite Hm; destruct m as [t b o']; simpl in *; subst o';
        by rewrite Hbrand. }
    rewrite Hconvert in Hrun.
    destruct (zodToConvexInternal _ _ _ _ _ (Some original) _)
      as [[[ow|e] st1]|] eqn:Hcall; simpl in Hrun; [| |done];
      injection Hrun as <- <-;
      (apply inside_a_traversal in Hcall as [Halone _];
         [|rewrite visited_first; set_solver]);
      by rewrite Halone.
Qed.

End Independence.

Lemma mapping_is_independent_of_the_traversal_witness :
  ∃ outcome st',
    returned (zodToConvexSchema Examples.noZid Examples.noMetadata
                Examples.noCodec Examples.noGetters (Some Examples.Profile))
      = Some outcome ∧
    zodToConvexInternal Examples.noZid Examples.noMetadata Examples.noCodec
      (sameAtEveryCall Examples.noGetters) 20 (Some Examples.Profile)
      (visit 8 (visit 9 freshTraversal)) = Some (outcome, st') ∧
    visited st' =
      footprint Examples.noZid Examples.noMetadata Examples.noCodec
        Examples.noGetters Examples.Profile
      ∪ visited (visit 8 (visit 9 freshTraversal)).
Proof.
  apply (mapping_is_independent_of_the_traversal Examples.noZid
           Examples.noMetadata Examples.noCodec Examples.noGetters
           Examples.Profile (visit 8 (visit 9 freshTraversal)) 20).
  - apply (bool_decide_unpack _). vm_compute. exact I.
  - apply Nat.leb_le. vm_compute. reflexivity.
Defined.

Lemma object_of_unshared_fields_witness :
  ∃ outcome,
    zodToConvexFields Examples.noZid Examples.noMetadata Examples.noCodec
      Examples.noGetters
      (FieldsOfObject 0
         [("nick", Zod 1 (ZOptional (Zod 2 (ZNullable (Zod 3 ZString)))));
          ("alias", Zod 4 (ZNullable (Zod 5 (ZOptional (Zod 6 ZString)))));
          ("age", Zod 7 ZNumber)]) = Some outcome ∧
    returned (zodToConvexSchema Examples.noZid Examples.noMetadata
                Examples.noCodec Examples.noGetters (Some Examples.Profile))
    = Some match outcome with
           | Return fields => Return (v.object fields)
           | Throw e => Throw e
           end.
Proof.
  apply (object_of_unshared_fields Examples.noZid Examples.noMetadata
           Examples.noCodec Examples.noGetters 0%nat
           [("nick", Zod 1 (ZOptional (Zod 2 (ZNullable (Zod 3 ZString)))));
            ("alias", Zod 4 (ZNullable (Zod 5 (ZOptional (Zod 6 ZString)))));
            ("age", Zod 7 ZNumber)]).
  - reflexivity.
  - vm_compute. reflexivity.
Defined.

Lemma array_of_element_witness :
  ∃ outcome,
    returned (zodToConvexSchema Examples.noZid Examples.noMetadata
                Examples.noCodec Examples.treeGetters (Some Examples.Tree))
      = Some outcome ∧
    returned (zodToConvexSchema Examples.noZid Examples.noMetadata
                Examples.noCodec Examples.treeGetters
                (Some (Zod 5 (ZArray Examples.Tree))))
    = Some match outcome with
           | Return elementValidator => Return (v.array elementValidator)
           | Throw e => Throw e
           end.
Proof.
  apply (array_of_element Examples.noZid Examples.noMetadata Examples.noCodec
           Examples.treeGetters 5%nat Examples.Tree).
  - reflexivity.
  - apply (bool_decide_unpack _). vm_compute. exact I.
Defined.

Lemma tuple_of_unshared_items_witness :
  ∃ outcome,
    returned (zodToConvexSchema Examples.noZid Examples.noMetadata
                Examples.noCodec Examples.noGetters (Some Samples.pair))
      = Some outcome ∧
    match outcome with
    | Return validator =>
        ∃ validators,
          validator =
            v.object
              (imap (fun index validator => ("_" +:+ pretty index, validator))
                    validators) ∧
          Forall2 (λ item validator,
                     returned (zodToConvexSchema Examples.noZid
                                 Examples.noMetadata Examples.noCodec
                                 Examples.noGetters (Some item))
                     = Some (Return validator))
                  [Zod 1 ZString; Zod 2 (ZOptional (Zod 3 ZNumber))]
                  validators
    | Throw e =>
        ∃ before item after,
          [Zod 1 ZString; Zod 2 (ZOptional (Zod 3 ZNumber))]
            = (before ++ item :: after)%list ∧
          Forall (λ item,
                    ∃ validator,
                      returned (zodToConvexSchema Examples.noZid
                                  Examples.noMetadata Examples.noCodec
                                  Examples.noGetters (Some item))
                      = Some (Return validator)) before ∧
          returned (zodToConvexSchema Examples.noZid Examples.noMetadata
                      Examples.noCodec Examples.noGetters (Some item))
            = Some (Throw e)
    end.
Proof.
  apply (tuple_of_unshared_items Examples.noZid Examples.noMetadata
           Examples.noCodec Examples.noGetters 0%nat
           [Zod 1 ZString; Zod 2 (ZOptional (Zod 3 ZNumber))]).
  - reflexivity.
  - vm_compute. reflexivity.
Defined.

Lemma lazy_and_brand_are_transparent_witness :
  (∃ outcome,
     returned (zodToConvexSchema Examples.noZid Examples.noMetadata
                 Examples.noCodec Examples.treeGetters (Some Examples.Tree))
       = Some outcome ∧
     returned (zodToConvexSchema Examples.noZid Examples.noMetadata
                 Examples.noCodec Examples.treeGetters (Some Examples.Node))
     = Some (Return match outcome with
                    | Return validator => validator
                    | Throw _ => v.any
                    end)) ∧
  returned (zodToConvexSchema Examples.noZid Samples.brands
              Examples.noCodec Examples.noGetters (Some Samples.userId)) =
  returned (zodToConvexSchema Examples.noZid Samples.brands
              Examples.noCodec Examples.noGetters (Some (Zod 2 ZString))).
Proof.
  split.
  - apply (proj1 (lazy_and_brand_are_transparent Examples.noZid
                    Examples.noMetadata Examples.noCodec Examples.treeGetters
                    1%nat) 0%nat Examples.Tree).
    + reflexivity.
    + vm_compute. reflexivity.
    + apply (bool_decide_unpack _). vm_compute. exact I.
  - apply (proj2 (lazy_and_brand_are_transparent Examples.noZid
                    Samples.brands Examples.noCodec Examples.noGetters
                    1%nat) ZPipe
             {| tableName := None; brand := Some "UserId";
                originalSchema := Some (Zod 2 ZString) |} (Zod 2 ZString)).
    + by right.
    + reflexivity.
    + reflexivity.
    + vm_compute. reflexivity.
    + reflexivity.
    + reflexivity.
    + apply (bool_decide_unpack _). vm_compute. exact I.
Defined.

(** ** Schema objects met again *)

Section Revisits.

Variable isZid : ZodType -> bool.
Variable metadata : gmap nat Metadata.
Variable findBaseCodec : ZodType -> option BaseCodec.
Variable getters : gmap nat GetterOutcome.

Lemma zodToConvexInternal_visits fuel schema st outcome st' :
  zodToConvexInternal isZid metadata findBaseCodec (sameAtEveryCall getters)
    fuel (Some schema) st = Some (outcome, st') →
  zid schema ∈ visited st'.
Proof.
  destruct fuel as [|fuel]; [done|]. intros Hrun.
  destruct (decide (zid schema ∈ visited st)) as [Hin|Hnot].
  - rewrite zodToConvexInternal_visited in Hrun by done.
    by injection Hrun as <- <-.
  - assert (visited (visit (zid schema) st) ⊆ visited st') as Hsub.
    { simpl in Hrun. rewrite decide_False in Hrun by done.
      assert (∀ (r : Run (Validator * bool)) k,
                (∀ o st1, r = Some (o, st1) →
                          visited (visit (zid schema) st) ⊆ visited st1) →
                next r (fun converted st1 =>
                          Some (Return (k converted), st1))
                  = Some (outcome, st') →
                visited (visit (zid schema) st) ⊆ visited st') as Hnext.
      { intros r k Hr. destruct r as [[[a|e] st1]|]; simpl; [| |done];
          intros [= <- <-]; by eapply Hr. }
      destruct (isZid _).
      - simpl in Hrun. by injection Hrun as <- <-.
      - revert Hrun.
        match goal with
        | |- next ?r ?k = _ → _ =>
            destruct r as [[[[w opt]|e] st1]|] eqn:Hs; simpl; [| |done]
        end; intros [= <- <-];
          by destruct (convertByType_framed metadata findBaseCodec getters
                         _ _ _ _ _ _ ∅ (zodToConvexInternal_framed isZid
                            metadata findBaseCodec getters fuel fuel (le_n _))
                         (eq_sym (union_empty_r_L _)) _ _ Hs). }
    simpl in Hsub. set_solver.
Qed.

Lemma mapEntries_grows {K} fuel (fields : list (K * ZodType)) st outcome st' :
  mapEntries (zodToConvexInternal isZid metadata findBaseCodec
                (sameAtEveryCall getters) fuel) fields st
    = Some (outcome, st') →
  visited st ⊆ visited st'.
Proof.
  intros Hmap.
  by destruct (mapEntries_framed _ _ fields st st ∅
                 (zodToConvexInternal_framed isZid metadata findBaseCodec
                    getters fuel fuel (le_n _))
                 (eq_sym (union_empty_r_L _)) _ _ Hmap).
Qed.

Lemma mapEntries_visits {K} fuel (fields : list (K * ZodType)) st ws st' :
  mapEntries (zodToConvexInternal isZid metadata findBaseCodec
                (sameAtEveryCall getters) fuel) fields st
    = Some (Return ws, st') →
  ∀ s, s ∈ fields.*2 → zid s ∈ visited st'.
Proof.
  revert st ws. induction fields as [|[k s] rest IH]; intros st ws Hmap s' Hs'.
  - by apply not_elem_of_nil in Hs'.
  - simpl in Hmap.
    destruct (zodToConvexInternal _ _ _ _ fuel (Some s) st)
      as [[[w|e] st1]|] eqn:Hs; simpl in Hmap; [| |done]; [|done].
    destruct (mapEntries _ rest st1) as [[[ws'|e] st2]|] eqn:Hrest;
      simpl in Hmap; [| |done]; [|done].
    injection Hmap as <- <-.
    rewrite fmap_cons in Hs'. apply elem_of_cons in Hs' as [->|Hs'].
    + apply zodToConvexInternal_visits in Hs.
      apply mapEntries_grows in Hrest. set_solver.
    + by eapply IH.
Qed.

(** X10: in an object schema, a field whose schema object is the object
    itself or the schema object of an earlier field maps to [v.any()]:
    a schema object gets its validator where the traversal meets it
    first, and [v.any()] wherever it meets it again. The fields of the
    validator are those of [convexShape], which has one entry for each
    field of the shape, in order, less the one named [__proto__]. *)
Theorem field_met_again_maps_to_any id shape :
  let object := Zod id (ZObject shape) in
  isZid object = false →
  ∃ outcome st,
    zodToConvexSchema isZid metadata findBaseCodec getters (Some object)
      = Some (outcome, st) ∧
    ∀ validator,
      outcome = Return validator →
      ∃ convexShape,
        validator = v.object (assigned convexShape) ∧
        (∀ j k s,
           shape !! j = Some (k, s) → zid s = id →
           convexShape !! j = Some (k, v.any)) ∧
        (∀ i j k k' s s',
           (i < j)%nat →
           shape !! i = Some (k, s) → shape !! j = Some (k', s') →
           zid s' = zid s →
           convexShape !! j = Some (k', v.any)).
Proof.
  intros object Hzid.
  destruct (zodToConvexSchema_returns isZid metadata findBaseCodec getters
              (Some object)) as (o & st & Hrun & _).
  exists o, st. split; [done|]. intros validator ->.
  rewrite zodToConvexSchema_switch in Hrun by done.
  unfold convertByType in Hrun. simpl in Hrun.
  set (n := size (universe metadata getters (Some object))) in Hrun.
  destruct (mapEntries _ shape _) as [[[ws|e] st1]|] eqn:Hmap;
    simpl in Hrun; [| |done]; [|done].
  injection Hrun as <- <-.
  exists ws. split; [done|].
  assert (∀ j k s,
    shape !! j = Some (k, s) →
    ∃ before stj w stj',
      mapEntries (zodToConvexInternal isZid metadata findBaseCodec
                    (sameAtEveryCall getters) n)
        (take j shape) (visit id freshTraversal) = Some (Return before, stj) ∧
      zodToConvexInternal isZid metadata findBaseCodec
        (sameAtEveryCall getters) n (Some s) stj = Some (Return w, stj') ∧
      ws !! j = Some (k, w) ∧
      (zid s ∈ visited stj → w = v.any)) as Hfield.
  { intros j k s Hj.
    destruct (mapEntries_lookup _ _ _ _ _ _ _ _ Hmap Hj)
      as (before & stj & w & stj' & Hbefore & Hcall & Hw).
    exists before, stj, w, stj'. split_and!; [done..|].
    intros Hin. destruct n as [|n]; [done|].
    rewrite zodToConvexInternal_visited in Hcall by done.
    by injection Hcall as <- _. }
  split.
  - intros j k s Hj Hid.
    destruct (Hfield j k s Hj)
      as (before & stj & w & stj' & Hb & _ & Hw & Hany).
    rewrite Hw, Hany; [done|].
    apply mapEntries_grows in Hb.
    rewrite Hid. simpl in Hb. set_solver.
  - intros i j k k' s s' Hlt Hi Hj Hid.
    destruct (Hfield j k' s' Hj)
      as (before & stj & w & stj' & Hb & _ & Hw & Hany).
    rewrite Hw, Hany; [done|]. rewrite Hid.
    eapply mapEntries_visits; [done|].
    apply list_elem_of_fmap. exists (k, s). split; [done|].
    apply list_elem_of_lookup. exists i. by rewrite lookup_take_lt.
Qed.

End Revisits.

Lemma field_met_again_maps_to_any_witness :
  ∃ outcome st,
    zodToConvexSchema Examples.noZid Examples.noMetadata Examples.noCodec
      Examples.noGetters (Some Examples.Counters) = Some (outcome, st) ∧
    ∀ validator,
      outcome = Return validator →
      ∃ convexShape,
        validator = v.object (assigned convexShape) ∧
        convexShape !! 1%nat = Some ("misses", v.any).
Proof.
  destruct (field_met_again_maps_to_any Examples.noZid Examples.noMetadata
              Examples.noCodec Examples.noGetters 0%nat
              [("hits", Examples.count); ("misses", Examples.count)] eq_refl)
    as (outcome & st & Hrun & Hfields).
  exists outcome, st. split; [exact Hrun|]. intros validator Hreturn.
  destruct (Hfields validator Hreturn) as (convexShape & Hobject & _ & Hagain).
  exists convexShape. split; [exact Hobject|].
  apply (Hagain 0%nat 1%nat "hits" "misses" Examples.count Examples.count).
  - lia.
  - reflexivity.
  - reflexivity.
  - reflexivity.
Defined.

(** ** Plain objects of fields *)

(** X11: for getters that do the same at every call, [zodToConvexFields]
    ends: it returns one validator for each field, in order (less the
    field named [__proto__]), each the validator [zodToConvex] returns
    for that field's schema on its own, whatever the other fields are,
    and [v.any()] for a field that is undefined; or it throws what
    [zodToConvex] throws for the first field for which it throws.
    [zodToConvex] does the same on a plain object of fields. *)
Theorem zodToConvexFields_maps_each_field_alone isZid metadata findBaseCodec
    getters zod :
  ∃ outcome,
    zodToConvexFields isZid metadata findBaseCodec getters zod = Some outcome ∧
    (∀ fields,
       zod = FieldsOfShape fields →
       zodToConvex isZid metadata findBaseCodec getters (InputFields fields)
       = Some match outcome with
              | Return out => Return (OutputFields out)
              | Throw e => Throw e
              end) ∧
    match outcome with
    | Return out =>
        ∃ mapped,
          out = assigned mapped ∧
          Forall2
            (λ (field : string * option ZodType) (entry : string * Validator),
               entry.1 = field.1 ∧
               match field.2 with
               | Some schema =>
                   zodToConvex isZid metadata findBaseCodec getters
                     (InputSchema schema)
                   = Some (Return (OutputValidator entry.2))
               | None => entry.2 = v.any
               end)
            (fieldEntries zod) mapped
    | Throw e =>
        ∃ before k schema after,
          fieldEntries zod = (before ++ (k, Some schema) :: after)%list ∧
          zodToConvex isZid metadata findBaseCodec getters
            (InputSchema schema) = Some (Throw e) ∧
          Forall
            (λ field : string * option ZodType,
               ∀ schema, field.2 = Some schema →
                 ∃ validator,
                   zodToConvex isZid metadata findBaseCodec getters
                     (InputSchema schema)
                   = Some (Return (OutputValidator validator)))
            before
    end.
Proof.
  assert (∃ outcome,
    zodToConvexFields isZid metadata findBaseCodec getters zod = Some outcome ∧
    match outcome with
    | Return out =>
        ∃ mapped,
          out = assigned mapped ∧
          Forall2
            (λ (field : string * option ZodType) (entry : string * Validator),
               entry.1 = field.1 ∧
               match field.2 with
               | Some schema =>
                   zodToConvex isZid metadata findBaseCodec getters
                     (InputSchema schema)
                   = Some (Return (OutputValidator entry.2))
               | None => entry.2 = v.any
               end)
            (fieldEntries zod) mapped
    | Throw e =>
        ∃ before k schema after,
          fieldEntries zod = (before ++ (k, Some schema) :: after)%list ∧
          zodToConvex isZid metadata findBaseCodec getters
            (InputSchema schema) = Some (Throw e) ∧
          Forall
            (λ field : string * option ZodType,
               ∀ schema, field.2 = Some schema →
                 ∃ validator,
                   zodToConvex isZid metadata findBaseCodec getters
                     (InputSchema schema)
                   = Some (Return (OutputValidator validator)))
            before
    end) as (outcome & Hout & Heach).
  { unfold zodToConvexFields.
    induction (fieldEntries zod) as [|[k schema] rest (outcome & Hout & Hall)];
      simpl.
    - exists (Return []). split; [done|]. exists []. split; [done|constructor].
    - destruct (zodToConvexSchema_returns isZid metadata findBaseCodec getters
                  schema) as ([validator|e] & st & Heq & _); rewrite Heq.
      + rewrite Hout. destruct outcome as [result|e].
        * eexists. split; [done|].
          destruct Hall as (mapped & -> & Hmapped).
          exists ((k, validator) :: mapped). split; [done|].
          constructor; [|done]. simpl. split; [done|].
          destruct schema as [schema|]; simpl.
          -- by rewrite Heq.
          -- unfold zodToConvexSchema, budget in Heq. simpl in Heq.
             by injection Heq as <- _.
        * exists (Throw e). split; [done|].
          destruct Hall as (before & k' & s' & after & -> & Hthrows & Hbefore).
          exists ((k, schema) :: before), k', s', after.
          split_and!; [done..|]. constructor; [|done]. simpl.
          intros s [= ->]. exists validator. simpl. by rewrite Heq.
      + exists (Throw e). split; [done|].
        destruct schema as [schema|].
        * exists [], k, schema, rest. split_and!; [done| |constructor].
          simpl. by rewrite Heq.
        * unfold zodToConvexSchema, budget in Heq. simpl in Heq. done. }
  exists outcome. split_and!; [done| |done].
  intros fields ->. simpl. rewrite Hout. by destruct outcome.
Qed.

Lemma zodToConvexFields_maps_each_field_alone_witness :
  zodToConvexFields Examples.noZid Examples.noMetadata Examples.noCodec
    Examples.noGetters
    (FieldsOfShape [("first", Some Examples.name); ("note", None);
                    ("last", Some Examples.name)])
  = Some (Return [("first", v.optional v.string); ("note", v.any);
                  ("last", v.optional v.string)]).
Proof.
  destruct (zodToConvexFields_maps_each_field_alone Examples.noZid
              Examples.noMetadata Examples.noCodec Examples.noGetters
              (FieldsOfShape [("first", Some Examples.name); ("note", None);
                              ("last", Some Examples.name)]))
    as (outcome & Hout & _ & _).
  rewrite Hout. vm_compute in Hout. exact (eq_sym Hout).
Defined.

(** ** Looking for custom types *)

Lemma probed_self schema : schema ∈ probed schema.
Proof. destruct schema. simpl. apply list_elem_of_here. Qed.

Lemma probed_inner id def inner s :
  match def with
  | ZOptional i | ZNullable i | ZDefault i _ | ZPrefault i _ => i = inner
  | _ => False
  end →
  s ∈ probed inner → s ∈ probed (Zod id def).
Proof.
  intros Hdef Hs. simpl. apply list_elem_of_further.
  by destruct def; try done; subst.
Qed.

Lemma probed_option id def options option s :
  def = ZUnion options ∨ (∃ d, def = ZDiscriminatedUnion d options) →
  option ∈ options → s ∈ probed option → s ∈ probed (Zod id def).
Proof.
  intros Hdef Ho Hs.
  assert (probed (Zod id def) = Zod id def :: mjoin (map probed options))
    as -> by (by destruct Hdef as [-> | [d ->]]).
  apply list_elem_of_further.
  apply list_elem_of_join. exists (probed option). split; [done|].
  by apply list_elem_of_fmap_2.
Qed.

Section CustomTypes.
Variable typeName : ZodType -> option string.

(** A set of schemas in which a schema object is one schema *)
Variable D : list ZodType.
Hypothesis D_identified : identified D.

Lemma positivesRight_insert schema b cache :
  schema ∈ D →
  positivesRight typeName D cache →
  (b = true → holdsCustom typeName schema = true) →
  positivesRight typeName D (<[zid schema := b]> cache).
Proof.
  intros HD Hcache Hb s Hs.
  destruct (decide (zid s = zid schema)) as [Heq|Hne].
  - apply D_identified in Heq as ->; [|done..].
    rewrite lookup_insert_eq. intros [= ->]. auto.
  - rewrite lookup_insert_ne by done. by apply Hcache.
Qed.

(** The loop of [some] over the options of a union *)
Lemma some_has_no_false_positive options maxDepth currentDepth :
  Forall
    (λ schema,
       ∀ maxDepth currentDepth cache,
         (∀ s, s ∈ probed schema → s ∈ D) →
         positivesRight typeName D cache →
         ((containsCustom typeName maxDepth currentDepth schema cache).1
          = true → holdsCustom typeName schema = true) ∧
         positivesRight typeName D
           (containsCustom typeName maxDepth currentDepth schema cache).2)
    options →
  (∀ option s, option ∈ options → s ∈ probed option → s ∈ D) →
  ∀ cache,
    positivesRight typeName D cache →
    let answer :=
      (fix some (opts : list ZodType) (cache : gmap nat bool)
         : bool * gmap nat bool :=
         match opts with
         | [] => (false, cache)
         | opt :: rest =>
             let '(found, cache) :=
               containsCustom typeName maxDepth currentDepth opt cache in
             if found then (true, cache) else some rest cache
         end) options cache in
    (answer.1 = true → existsb (holdsCustom typeName) options = true) ∧
    positivesRight typeName D answer.2.
Proof.
  intros IH. induction IH as [|option rest Hoption _ IHrest];
    intros HD' cache Hcache.
  - by split.
  - specialize (Hoption maxDepth currentDepth cache).
    simpl. destruct (containsCustom typeName maxDepth currentDepth option cache)
      as [found cache1].
    destruct Hoption as [Hfound Hcache1]; [|done|].
    { intros s Hs. eapply HD'; [|done]. set_solver. }
    simpl in *. destruct found.
    + simpl. split; [|done]. intros _. by rewrite Hfound.
    + destruct (IHrest) with (cache := cache1) as [Hrest Hcache2]; [|done|].
      { intros o s Ho Hs. eapply HD'; [|done]. set_solver. }
      split; [|done]. intros Hr. rewrite (Hrest Hr). apply orb_true_r.
Qed.

(** X12: [containsCustom] never answers [true] for a schema that holds
    no custom type under its unions and wrappers, whatever the depths
    and whatever the cache holds, as long as the entries of the cache
    that say [true] are right; and it leaves the cache in that state. *)
Theorem containsCustom_has_no_false_positive schema :
  ∀ maxDepth currentDepth cache,
    (∀ s, s ∈ probed schema → s ∈ D) →
    positivesRight typeName D cache →
    ((containsCustom typeName maxDepth currentDepth schema cache).1 = true →
     holdsCustom typeName schema = true) ∧
    positivesRight typeName D
      (containsCustom typeName maxDepth currentDepth schema cache).2.
Proof.
  induction schema as [id def IH] using ZodType_children_ind.
  intros maxDepth currentDepth cache HD Hcache.
  pose proof (HD _ (probed_self _)) as Hself.
  simpl containsCustom.
  destruct (cache !! id) as [cached|] eqn:Hlookup.
  { split; [|done]. simpl fst. intros ->. by apply (Hcache (Zod id def)). }
  destruct (maxDepth <? currentDepth)%nat; [by split|].
  destruct (isCustom typeName (Zod id def)) eqn:Hcustom.
  { simpl. split.
    - intros _. by rewrite Hcustom.
    - apply (positivesRight_insert (Zod id def)); [done..|].
      intros _. simpl. by rewrite Hcustom. }
  match goal with
  | |- context [let '(result, cache) := ?body in _] =>
      assert (((body.1 = true →
                holdsCustom typeName (Zod id def) = true) ∧
               positivesRight typeName D body.2)) as Hbody;
      [|destruct body as [result cache1]; simpl in *; split; [tauto|];
        apply (positivesRight_insert (Zod id def)); tauto]
  end.
  simpl holdsCustom. rewrite Hcustom. simpl orb.
  destruct def; simpl in IH; try (by split);
    try (rewrite Forall_singleton in IH; apply IH; [|done];
         intros s Hs; apply HD; by eapply probed_inner).
  - apply some_has_no_false_positive; [done| |done].
    intros option s Ho Hs. apply HD.
    eapply (probed_option _ _ options); [by left|done..].
  - apply some_has_no_false_positive; [done| |done].
    intros option s Ho Hs. apply HD.
    eapply (probed_option _ _ options); [right; by eexists|done..].
Qed.

End CustomTypes.

Lemma identified_NoDup schemas : NoDup (zid <$> schemas) → identified schemas.
Proof.
  intros Hnodup s s' Hs Hs' Heq.
  apply list_elem_of_lookup in Hs as [i Hi].
  apply list_elem_of_lookup in Hs' as [j Hj].
  assert (i = j) as ->; [|congruence].
  eapply NoDup_lookup; [done| |].
  - by rewrite list_lookup_fmap, Hi.
  - by rewrite list_lookup_fmap, Hj, Heq.
Qed.

(** X13: the depth limit is remembered. A wrapper probed at the depth
    limit, with no cache entry for it or for the schema under it, is
    answered [false] and cached as [false] even when the schema under it
    is a custom type; from then on [containsCustom] answers [false] for
    that wrapper at every depth. *)
Theorem depth_limit_is_cached typeName id inner maxDepth cache :
  let wrapper := Zod id (ZOptional inner) in
  isCustom typeName wrapper = false →
  cache !! id = None →
  cache !! zid inner = None →
  containsCustom typeName maxDepth maxDepth wrapper cache
    = (false, <[id := false]> cache) ∧
  (∀ currentDepth,
     containsCustom typeName maxDepth currentDepth wrapper
       (<[id := false]> cache) = (false, <[id := false]> cache)) ∧
  (isCustom typeName inner = true → holdsCustom typeName wrapper = true).
Proof.
  intros wrapper Hcustom Hid Hinner. split_and!.
  - simpl. rewrite Hid, Nat.ltb_irrefl. fold wrapper. rewrite Hcustom.
    destruct inner as [id' def']. simpl in *. rewrite Hinner.
    assert ((maxDepth <? S maxDepth)%nat = true) as ->
      by (apply Nat.ltb_lt; lia).
    done.
  - intros currentDepth. simpl. by rewrite lookup_insert_eq.
  - intros Hinner'. simpl holdsCustom. fold wrapper. rewrite Hcustom.
    destruct inner as [id' def']. simpl. by rewrite Hinner'.
Qed.

Lemma containsCustom_has_no_false_positive_witness :
  positivesRight Samples.noTypeName (probed Samples.maybeCustom)
    (containsCustom Samples.noTypeName 50 0 Samples.maybeCustom ∅).2.
Proof.
  assert (NoDup (zid <$> probed Samples.maybeCustom)) as Hids.
  { apply (bool_decide_unpack _). vm_compute. exact I. }
  destruct (containsCustom_has_no_false_positive Samples.noTypeName
              (probed Samples.maybeCustom) (identified_NoDup _ Hids)
              Samples.maybeCustom 50 0 ∅) as [_ Hcache].
  - intros s Hs. exact Hs.
  - intros s _ Hlookup. rewrite lookup_empty in Hlookup. discriminate Hlookup.
  - exact Hcache.
Defined.

Lemma depth_limit_is_cached_witness :
  containsCustom Samples.noTypeName 50 50
    (Zod 1 (ZOptional (Zod 3 (ZOther "custom")))) ∅
    = (false, {[ 1%nat := false ]}) ∧
  containsCustom Samples.noTypeName 50 0
    (Zod 1 (ZOptional (Zod 3 (ZOther "custom")))) {[ 1%nat := false ]}
    = (false, {[ 1%nat := false ]}).
Proof.
  destruct (depth_limit_is_cached Samples.noTypeName 1
              (Zod 3 (ZOther "custom")) 50 ∅) as (Hanswer & Hlater & _).
  - reflexivity.
  - reflexivity.
  - reflexivity.
  - split; [exact Hanswer|exact (Hlater 0%nat)].
Defined.

(** ** The handler wrapper *)

Section HandlerWrapper.
Context {Ctx : Type}.
Variable parse : ZodType -> Value -> Outcome Value.
Variable flattenSnapshot : list ZodIssue -> Value.
Variable findBaseCodec : ZodType -> option BaseCodec.
Variable isDateSchema : ZodType -> bool.

(** X14: what the handler throws, the wrapper throws unchanged, a
    [ZodError] included; what [parse] throws on the arguments or on the
    result, if it is no [ZodError], the wrapper throws unchanged; and
    when the arguments are rejected the outcome depends neither on the
    handler nor on the return schema: the handler is not called. *)
Theorem wrapper_rethrows zodSchema returns
    (handler : Ctx -> Value -> Outcome Value) ctx argsObject :
  let decoded :=
    fromConvexJS findBaseCodec isDateSchema (parses parse) argsObject
      zodSchema in
  let run returns handler :=
    zQueryHandler parse flattenSnapshot findBaseCodec isDateSchema
      zodSchema returns handler ctx argsObject in
  (∀ parsed e,
     parse zodSchema decoded = Return parsed →
     handler ctx parsed = Throw e →
     run returns handler = Throw e) ∧
  (∀ e,
     parse zodSchema decoded = Throw e →
     (∀ zodIssues, e ≠ ZodError zodIssues) →
     run returns handler = Throw e) ∧
  (∀ parsed raw returnsSchema e,
     parse zodSchema decoded = Return parsed →
     handler ctx parsed = Return raw →
     returns = Some returnsSchema →
     parse returnsSchema raw = Throw e →
     (∀ zodIssues, e ≠ ZodError zodIssues) →
     run returns handler = Throw e) ∧
  (∀ e returns' (handler' : Ctx -> Value -> Outcome Value),
     parse zodSchema decoded = Throw e →
     run returns' handler' = run returns handler).
Proof.
  intros decoded run. unfold run, zQueryHandler. fold decoded. split_and!.
  - by intros parsed e -> ->.
  - intros e -> Hother. destruct e; try done. by destruct (Hother zodIssues).
  - intros parsed raw returnsSchema e -> -> -> -> Hother.
    destruct e; try done. by destruct (Hother zodIssues).
  - by intros e returns' handler' ->.
Qed.

(** X15: whatever the wrapper returns holds no [Date] and no
    undefined-valued object key: without a return schema whatever the
    handler returned; with one, when the registered base codecs give
    storable values for the values their schemas accept, Zod's
    validation accepts a value only if it accepts its parts, and the
    return schema accepts what its [parse] returns. *)
Theorem wrapper_result_is_convex_safe zodSchema returns
    (handler : Ctx -> Value -> Outcome Value) ctx argsObject result :
  zQueryHandler parse flattenSnapshot findBaseCodec isDateSchema
    zodSchema returns handler ctx argsObject = Return result →
  (returns = None → convexSafe result = true) ∧
  (codecsSafe findBaseCodec (parses parse) →
   parseDescends (parses parse) →
   (∀ returnsSchema raw validated,
      returns = Some returnsSchema →
      parse returnsSchema raw = Return validated →
      parses parse returnsSchema validated = true) →
   convexSafe result = true).
Proof.
  unfold zQueryHandler.
  destruct (parse zodSchema _) as [parsed|e]; [|done].
  destruct (handler ctx parsed) as [raw|e]; [|done].
  destruct returns as [returnsSchema|].
  - destruct (parse returnsSchema raw) as [validated|e] eqn:Hparse; [|done].
    intros [= <-]. split; [done|]. intros Hcodecs Hdescends Hagain.
    apply schemaToConvex_convexSafe; [done..|]. by eapply Hagain.
  - intros [= <-]. split; intros; apply basicToConvex_convexSafe.
Qed.

End HandlerWrapper.

Lemma wrapper_rethrows_witness :
  zQueryHandler Examples.stringsOnly Examples.noFlatten Examples.noCodec
    Examples.datesOnly (Zod 0 ZString) None Samples.failing ()
    (JStr "question") = Throw (Error "not found").
Proof.
  apply (proj1 (wrapper_rethrows Examples.stringsOnly Examples.noFlatten
                  Examples.noCodec Examples.datesOnly (Zod 0 ZString) None
                  Samples.failing () (JStr "question"))
           (JStr "question") (Error "not found")).
  - reflexivity.
  - reflexivity.
Defined.

Lemma wrapper_result_is_convex_safe_witness :
  convexSafe
    (toConvexJS Examples.noCodec (parses Samples.parseDescribed)
       (TwoArguments Examples.Event Examples.event)) = true.
Proof.
  assert (∀ schema value,
            parses Samples.parseDescribed schema value
            = Examples.zodAccepts schema value) as Hparses.
  { intros schema value. unfold parses, Samples.parseDescribed.
    destruct (Examples.zodAccepts schema value); reflexivity. }
  destruct (wrapper_result_is_convex_safe Samples.parseDescribed
              Examples.noFlatten Examples.noCodec Examples.datesOnly
              (Zod 0 ZString) (Some Examples.Event) Samples.eventOf ()
              (JStr "go")
              (toConvexJS Examples.noCodec (parses Samples.parseDescribed)
                 (TwoArguments Examples.Event Examples.event)))
    as [_ Hsafe].
  - vm_compute. reflexivity.
  - apply Hsafe.
    + intros schema codec value Hcodec. discriminate Hcodec.
    + destruct zodAccepts_descends as (Harray & Hobject & Hrecord & Hwrapper).
      split_and!.
      * intros id element value. rewrite Hparses. intros Haccepts.
        destruct (Harray id element value Haccepts) as (items & Hvalue & Hall).
        exists items. split; [exact Hvalue|].
        eapply Forall_impl; [exact Hall|]. intros item Hitem.
        rewrite Hparses. exact Hitem.
      * intros id shape value k x s. rewrite !Hparses. apply Hobject.
      * intros id keyType valueType value k x. rewrite !Hparses.
        apply Hrecord.
      * intros id def inner value Hdef. rewrite !Hparses.
        apply Hwrapper. exact Hdef.
    + intros returnsSchema raw validated _.
      unfold Samples.parseDescribed, parses.
      destruct (Examples.zodAccepts returnsSchema raw) eqn:Haccepts;
        [|discriminate].
      intros Hvalidated. injection Hvalidated as <-.
      rewrite Haccepts. reflexivity.
Defined.

(** ** Picking *)

Section PickingProps.

Context {V : Type}.
Variable inherited : string -> option V.
Variable isObjectOrNull : V -> bool.

Lemma assign_lookup key (value : V) result k :
  utils.own (utils.assign isObjectOrNull key value result) !! k =
    if decide (k = key ∧ key ≠ "__proto__") then Some value
    else utils.own result !! k.
Proof.
  unfold utils.assign. destruct (String.eqb_spec key "__proto__") as [->|Hne].
  - rewrite decide_False by naive_solver. by destruct (isObjectOrNull value).
  - simpl. destruct (decide (k = key)) as [->|Hk].
    + rewrite decide_True by done. apply lookup_insert_eq.
    + rewrite decide_False by naive_solver. by apply lookup_insert_ne.
Qed.

Lemma assign_prototype key (value : V) result :
  utils.prototype (utils.assign isObjectOrNull key value result) =
    if decide (key = "__proto__") then
      if isObjectOrNull value then Some value else utils.prototype result
    else utils.prototype result.
Proof.
  unfold utils.assign. destruct (String.eqb_spec key "__proto__") as [->|Hne].
  - rewrite decide_True by done. by destruct (isObjectOrNull value).
  - by rewrite decide_False.
Qed.

Lemma pickKeys_lookup (obj : gmap string V) keys key :
  utils.own (utils.pickKeys inherited isObjectOrNull obj keys) !! key =
    if decide (key ∈ keys ∧ key ≠ "__proto__")
    then utils.read inherited obj key else None.
Proof.
  unfold utils.pickKeys.
  assert (∀ acc : utils.Picked V,
    utils.own
      (foldl (fun result key =>
                match utils.read inherited obj key with
                | Some value => utils.assign isObjectOrNull key value result
                | None => result
                end) acc keys) !! key =
    if decide (key ∈ keys ∧ key ≠ "__proto__")
    then match utils.read inherited obj key with
         | Some value => Some value
         | None => utils.own acc !! key
         end
    else utils.own acc !! key) as Hfold.
  { induction keys as [|k rest IH]; intros acc.
    - simpl foldl. case_decide as Hkey; [|done].
      destruct Hkey as [Hin _]. by apply not_elem_of_nil in Hin.
    - simpl foldl. rewrite IH.
      destruct (decide (key ∈ rest ∧ key ≠ "__proto__")) as [[Hin Hne]|Hnot].
      + rewrite decide_True by set_solver.
        destruct (utils.read inherited obj key) eqn:Hread; [done|].
        destruct (utils.read inherited obj k) eqn:Hk; [|done].
        rewrite assign_lookup. case_decide as Heq; [|done].
        destruct Heq as [-> _]. congruence.
      + destruct (utils.read inherited obj k) as [value|] eqn:Hk.
        * rewrite assign_lookup.
          destruct (decide (key = k ∧ k ≠ "__proto__")) as [[-> Hne]|Hne].
          -- rewrite decide_True by set_solver. by rewrite Hk.
          -- rewrite decide_False; [done|]. set_solver.
        * destruct (decide (key = k)) as [->|Hne].
          -- rewrite Hk. by case_decide.
          -- rewrite decide_False; [done|]. set_solver. }
  rewrite Hfold. simpl. rewrite lookup_empty.
  by destruct (utils.read inherited obj key).
Qed.

Lemma pickKeys_prototype (obj : gmap string V) keys :
  utils.prototype (utils.pickKeys inherited isObjectOrNull obj keys) =
    if decide ("__proto__" ∈ keys) then
      match utils.read inherited obj "__proto__" with
      | Some value => if isObjectOrNull value then Some value else None
      | None => None
      end
    else None.
Proof.
  unfold utils.pickKeys.
  assert (∀ acc : utils.Picked V,
    utils.prototype
      (foldl (fun result key =>
                match utils.read inherited obj key with
                | Some value => utils.assign isObjectOrNull key value result
                | None => result
                end) acc keys) =
    if decide ("__proto__" ∈ keys) then
      match utils.read inherited obj "__proto__" with
      | Some value =>
          if isObjectOrNull value then Some value else utils.prototype acc
      | None => utils.prototype acc
      end
    else utils.prototype acc) as Hfold.
  { induction keys as [|k rest IH]; intros acc.
    - simpl foldl. by rewrite decide_False by set_solver.
    - simpl foldl. rewrite IH.
      destruct (decide (k = "__proto__")) as [->|Hne].
      + rewrite (decide_True (P := "__proto__" ∈ "__proto__" :: rest))
          by set_solver.
        destruct (utils.read inherited obj "__proto__") as [value|];
          [|by case_decide].
        rewrite assign_prototype.
        rewrite (decide_True (P := "__proto__" = "__proto__")) by done.
        destruct (isObjectOrNull value); by case_decide.
      + assert (utils.prototype
                  match utils.read inherited obj k with
                  | Some value => utils.assign isObjectOrNull k value acc
                  | None => acc
                  end = utils.prototype acc) as ->.
        { destruct (utils.read inherited obj k); [|done].
          by rewrite assign_prototype, decide_False. }
        destruct (decide ("__proto__" ∈ rest)) as [Hin|Hnot].
        * by rewrite decide_True by set_solver.
        * by rewrite decide_False by set_solver. }
  rewrite Hfold. simpl. case_decide; [|done].
  destruct (utils.read inherited obj "__proto__") as [value|]; [|done].
  by destruct (isObjectOrNull value).
Qed.


Lemma toKeys_selects mask key : key ∈ utils.toKeys mask ↔ selects mask key.
Proof.
  destruct mask as [keys|flags]; simpl; [done|].
  rewrite list_elem_of_fmap. split.
  - intros ([k b] & -> & Hin). apply elem_of_map_to_list in Hin.
    apply map_lookup_filter_Some in Hin as [Hlookup Hb]. simpl in *.
    by subst.
  - intros Hflag. exists (key, true). split; [done|].
    apply elem_of_map_to_list, map_lookup_filter_Some. by split.
Qed.

Variable getObjectShape : ZodType -> gmap string V.

(** X17: [pickShape] gives the fields of the shape that the mask names,
    by its array or by a truthy flag, each as the shape has it; a name
    the shape lacks is skipped without an error, a name flagged falsy or
    not named gives no field, and a missing shape gives the empty
    object. *)
Theorem pickShape_keeps_the_selected_fields schemaOrShape mask :
  let shape :=
    match schemaOrShape with
    | utils.OfSchema schema => getObjectShape schema
    | utils.OfShape shape => shape
    | utils.NoShape => ∅
    end in
  let out :=
    utils.own (utils.pickShape inherited isObjectOrNull getObjectShape
                 schemaOrShape mask) in
  (∀ key, selects mask key → key ≠ "__proto__" →
          out !! key = utils.read inherited shape key) ∧
  (∀ key, ¬ selects mask key → out !! key = None) ∧
  (∀ key, utils.read inherited shape key = None → out !! key = None).
Proof.
  intros shape out. unfold out, utils.pickShape. fold shape. split_and!.
  - intros key Hsel Hne. rewrite pickKeys_lookup, decide_True; [done|].
    by rewrite toKeys_selects.
  - intros key Hnot. rewrite pickKeys_lookup, decide_False; [done|].
    rewrite toKeys_selects. naive_solver.
  - intros key Hnone. rewrite pickKeys_lookup. by case_decide.
Qed.

(** X18: [safeOmit] builds its schema from the fields of the object's
    shape that the mask does not name, each as the shape has it, and
    [safePick] from those it names; so the two share no field, and each
    field of the shape is in one of them. *)
Theorem safePick_and_safeOmit_split_the_shape schema mask :
  let shape := getObjectShape schema in
  ∃ picked omitted,
    (∀ (Schema : Type) (zObject : utils.Picked V -> Schema),
       utils.safePick inherited isObjectOrNull getObjectShape zObject
         schema mask = zObject picked ∧
       utils.safeOmit inherited isObjectOrNull getObjectShape zObject
         schema mask = zObject omitted) ∧
    (∀ key value,
       utils.own omitted !! key = Some value ↔
       shape !! key = Some value ∧ ¬ selects mask key ∧ key ≠ "__proto__") ∧
    (∀ key, is_Some (utils.own picked !! key) →
            utils.own omitted !! key = None) ∧
    (∀ key value,
       shape !! key = Some value → key ≠ "__proto__" →
       utils.own picked !! key = Some value ∨
       utils.own omitted !! key = Some value).
Proof.
  intros shape.
  set (keep := filter (fun k => k ∉ utils.toKeys mask)
                      (map_to_list shape).*1).
  assert (∀ key, key ∈ keep ↔ is_Some (shape !! key) ∧ ¬ selects mask key)
    as Hkeep.
  { intros key. unfold keep. rewrite list_elem_of_filter.
    rewrite toKeys_selects, list_elem_of_fmap. split.
    - intros [Hnot ([k x] & -> & Hin)]. apply elem_of_map_to_list in Hin.
      split; [by eexists|done].
    - intros [[x Hx] Hnot]. split; [done|]. exists (key, x).
      split; [done|by apply elem_of_map_to_list]. }
  exists (utils.pickShape inherited isObjectOrNull getObjectShape
            (utils.OfSchema schema) mask),
         (utils.pickShape inherited isObjectOrNull getObjectShape
            (utils.OfSchema schema) (KeysArray keep)).
  assert (∀ key value,
    utils.own (utils.pickShape inherited isObjectOrNull getObjectShape
                 (utils.OfSchema schema) (KeysArray keep)) !! key
      = Some value ↔
    shape !! key = Some value ∧ ¬ selects mask key ∧ key ≠ "__proto__")
    as Homitted.
  { intros key value. unfold utils.pickShape. fold shape. simpl utils.toKeys.
    rewrite pickKeys_lookup. case_decide as Hkey.
    - destruct Hkey as [[[x Hx] Hnot]%Hkeep Hne].
      unfold utils.read. rewrite Hx. naive_solver.
    - split; [done|]. intros (Hx & Hnot & Hne). destruct Hkey.
      split; [|done]. apply Hkeep. split; [by eexists|done]. }
  split_and!.
  - done.
  - done.
  - intros key [value Hpicked].
    destruct (utils.own (utils.pickShape inherited isObjectOrNull
                           getObjectShape (utils.OfSchema schema)
                           (KeysArray keep)) !! key) as [value'|] eqn:Ho;
      [|done].
    apply Homitted in Ho as (_ & Hnot & _).
    unfold utils.pickShape in Hpicked. rewrite pickKeys_lookup in Hpicked.
    case_decide as Hkey; [|done]. destruct Hkey as [Hin _].
    by apply toKeys_selects in Hin.
  - intros key value Hx Hne.
    destruct (decide (key ∈ utils.toKeys mask)) as [Hin|Hnot].
    + left. unfold utils.pickShape. fold shape.
      rewrite pickKeys_lookup, decide_True by done.
      unfold utils.read. by rewrite Hx.
    + right. apply Homitted. split_and!; [done| |done].
      by rewrite <- toKeys_selects.
Qed.

End PickingProps.


Lemma pickShape_keeps_the_selected_fields_witness :
  utils.own
    (utils.pickShape Samples.plain Samples.schemaObject Samples.shapeOf
       (utils.OfSchema Samples.User)
       (KeysRecord {[ "name" := true; "age" := false; "phone" := true ]}))
    !! "name"
  = utils.read Samples.plain (Samples.shapeOf Samples.User) "name".
Proof.
  apply (proj1 (pickShape_keeps_the_selected_fields Samples.plain
                  Samples.schemaObject Samples.shapeOf
                  (utils.OfSchema Samples.User)
                  (KeysRecord
                     {[ "name" := true; "age" := false; "phone" := true ]}))
           "name").
  - vm_compute. reflexivity.
  - discriminate.
Defined.

Lemma safePick_and_safeOmit_split_the_shape_witness :
  ∃ picked omitted : utils.Picked ZodType,
    utils.safePick Samples.plain Samples.schemaObject Samples.shapeOf
      (fun shape => shape) Samples.User (KeysArray ["email"]) = picked ∧
    utils.safeOmit Samples.plain Samples.schemaObject Samples.shapeOf
      (fun shape => shape) Samples.User (KeysArray ["email"]) = omitted ∧
    (utils.own picked !! "age" = Some (Zod 3 ZNumber) ∨
     utils.own omitted !! "age" = Some (Zod 3 ZNumber)).
Proof.
  destruct (safePick_and_safeOmit_split_the_shape Samples.plain
              Samples.schemaObject Samples.shapeOf Samples.User
              (KeysArray ["email"]))
    as (picked & omitted & Hbuilt & _ & _ & Hsplit).
  exists picked, omitted.
  destruct (Hbuilt (utils.Picked ZodType) (fun shape => shape))
    as [Hpicked Homitted].
  split_and!; [exact Hpicked|exact Homitted|].
  apply Hsplit.
  - vm_compute. reflexivity.
  - discriminate.
Defined.

(** ** Date fields as numbers *)

(** X19: [mapDateFieldToNumber] returns the field itself unless the field
    is a date, an optional or nullable date, or a date with a default;
    for those it returns a number, an optional or nullable number, and an
    optional number, none of which is a date schema; so applying it again
    changes nothing. *)
Theorem mapDateFieldToNumber_maps_shallow_dates fresh field :
  (shallowDate field = false →
   utils.mapDateFieldToNumber fresh field = field) ∧
  (shallowDate field = true →
   dateClassified (utils.mapDateFieldToNumber fresh field) = false ∧
   zdef (utils.mapDateFieldToNumber fresh field) =
     match zdef field with
     | ZNullable _ => ZNullable (Zod fresh ZNumber)
     | ZDate => ZNumber
     | _ => ZOptional (Zod fresh ZNumber)
     end) ∧
  (∀ fresh',
     utils.mapDateFieldToNumber fresh'
       (utils.mapDateFieldToNumber fresh field)
     = utils.mapDateFieldToNumber fresh field).
Proof.
  destruct field as [id def]. unfold utils.mapDateFieldToNumber, shallowDate.
  split_and!.
  - destruct def; simpl; try done;
      by destruct (zdef innerType).
  - destruct def; simpl; try done;
      by destruct (zdef innerType).
  - intros fresh'. destruct def; simpl; try done;
      destruct innerType as [id' def']; destruct def'; simpl; try done.
Qed.

Section DateFields.
Variable findBaseCodec : ZodType -> option BaseCodec.
Variable zodParse : ZodType -> Value -> bool.

(** X20: for a date field, an optional or nullable one and one with a
    default, with no base codec registered for it, what the encoder
    gives for a value the field describes is a value the field that
    [mapDateFieldToNumber] returns describes. *)
Theorem encoded_dates_fit_the_mapped_field fresh field value :
  shallowDate field = true →
  unregistered findBaseCodec field = true →
  conforms field value = true →
  conforms (utils.mapDateFieldToNumber fresh field)
    (toConvexJS findBaseCodec zodParse (TwoArguments field value))
    = true.
Proof.
  destruct field as [id def]. unfold utils.mapDateFieldToNumber, shallowDate.
  intros Hdate Hcodec Hconforms.
  destruct def; try discriminate Hdate; simpl in Hdate.
  1: { apply andb_true_iff in Hcodec as [Hhere%bool_decide_eq_true _].
       simpl. rewrite Hhere.
       by destruct value as [| | | | | |[ms|]| |]. }
  all: destruct innerType as [id' def']; destruct def';
    try discriminate Hdate.
  all: simpl in Hcodec.
  all: apply andb_true_iff in Hcodec as [Hhere%bool_decide_eq_true Hinner].
  all: apply andb_true_iff in Hinner as [Hinner%bool_decide_eq_true _].
  all: simpl; rewrite Hhere.
  all: destruct value as [| | | | | |[ms|]| |]; try discriminate Hconforms;
    try done; simpl; by rewrite Hinner.
Qed.

End DateFields.

Lemma mapDateFieldToNumber_maps_shallow_dates_witness :
  utils.mapDateFieldToNumber 5 Examples.Event = Examples.Event ∧
  dateClassified (utils.mapDateFieldToNumber 5 Samples.createdAt) = false.
Proof.
  destruct (mapDateFieldToNumber_maps_shallow_dates 5 Examples.Event)
    as (Hsame & _ & _).
  destruct (mapDateFieldToNumber_maps_shallow_dates 5 Samples.createdAt)
    as (_ & Hdate & _).
  split.
  - apply Hsame. reflexivity.
  - apply Hdate. reflexivity.
Defined.

Lemma encoded_dates_fit_the_mapped_field_witness :
  conforms (utils.mapDateFieldToNumber 5 Samples.createdAt)
    (toConvexJS Examples.noCodec Examples.zodAccepts
       (TwoArguments Samples.createdAt Examples.newYear2024)) = true.
Proof.
  apply (encoded_dates_fit_the_mapped_field Examples.noCodec
           Examples.zodAccepts 5 Samples.createdAt Examples.newYear2024).
  - reflexivity.
  - vm_compute. reflexivity.
  - vm_compute. reflexivity.
Defined.

(** ** From stored values and back *)

Lemma stored_shape_lookup shape k x :
  match List.find (fun field : string * (Value -> bool) => String.eqb k field.1)
          (map (fun field : string * ZodType =>
                  match field with (k, s) => (k, stored s) end) shape)
  with
  | Some field => field.2 x
  | None => storable x
  end = true →
  match shapeLookup shape k with
  | Some s => s ∈ shape.*2 ∧ stored s x = true
  | None => storable x = true
  end.
Proof.
  unfold shapeLookup.
  induction shape as [|[k' s] rest IH]; simpl; [done|].
  destruct (String.eqb k k').
  - simpl. intros Hs. split; [set_solver|done].
  - intros H. specialize (IH H).
    destruct (List.find _ rest) as [[k'' s'']|]; simpl in *; [|done].
    destruct IH. split; [set_solver|done].
Qed.

Section RoundTripBack.
Variable findBaseCodec : ZodType -> option BaseCodec.
Variable isDateSchema : ZodType -> bool.
Variable zodParse : ZodType -> Value -> bool.

Hypothesis dates_sound :
  ∀ schema, isDateSchema schema = true → dateClassified schema = true.

Lemma wireSymmetric_here schema :
  wireSymmetric findBaseCodec isDateSchema zodParse schema →
  findBaseCodec schema = None.
Proof. destruct schema. by intros [? _]. Qed.

Lemma wireSymmetric_fields shape :
  (fix all (fields : list (string * ZodType)) : Prop :=
     match fields with
     | [] => True
     | (_, s) :: rest =>
         wireSymmetric findBaseCodec isDateSchema zodParse s ∧ all rest
     end) shape →
  Forall (wireSymmetric findBaseCodec isDateSchema zodParse) shape.*2.
Proof.
  induction shape as [|[k s] rest IH]; simpl; [constructor|].
  intros [Hs Hrest]. constructor; auto.
Qed.

Lemma wireSymmetric_options options :
  (fix all (schemas : list ZodType) : Prop :=
     match schemas with
     | [] => True
     | s :: rest =>
         wireSymmetric findBaseCodec isDateSchema zodParse s ∧ all rest
     end) options →
  Forall (wireSymmetric findBaseCodec isDateSchema zodParse) options.
Proof.
  induction options as [|s rest IH]; simpl; [constructor|].
  intros [Hs Hrest]. constructor; auto.
Qed.

(** Decoding gives [undefined] for [undefined] only. *)
Lemma fromConvexJS_defined schema :
  ∀ wire,
    wireSymmetric findBaseCodec isDateSchema zodParse schema →
    isUndefined wire = false →
    isUndefined (fromConvexJS findBaseCodec isDateSchema zodParse wire schema)
      = false.
Proof.
  induction schema as [id def IH] using ZodType_children_ind.
  intros wire Hsym Hwire.
  destruct (isNullish wire) eqn:Hn.
  { by rewrite fromConvexJS_nullish. }
  pose proof (wireSymmetric_here _ Hsym) as Hcodec.
  destruct Hsym as [_ Hsym].
  simpl. rewrite Hn, Hcodec.
  destruct def; simpl in IH;
    try (rewrite Forall_singleton in IH; by apply IH);
    try (destruct (asDateNumber isDateSchema wire _) as [[]|];
         try done; simpl; by repeat case_match).
  all: destruct (asDateNumber isDateSchema wire _) as [[]|];
    try done; try (simpl; by repeat case_match).
  all: destruct Hsym as [Hsym _]; apply wireSymmetric_options in Hsym.
  all: clear Hcodec; induction IH as [|option rest Hoption _ IHrest];
    [done|].
  all: apply Forall_cons in Hsym as [Hs Hsym].
  all: destruct (zodParse option _); [by apply Hoption|by apply IHrest].
Qed.

Lemma isDateSchema_leaf id def :
  dateClassified (Zod id def) = false → isDateSchema (Zod id def) = false.
Proof.
  intros Hnot. destruct (isDateSchema (Zod id def)) eqn:His; [|done].
  apply dates_sound in His. congruence.
Qed.

Lemma decode_leaf id def wire :
  findBaseCodec (Zod id def) = None →
  dateClassified (Zod id def) = false →
  match def with
  | ZArray _ | ZObject _ | ZUnion _ | ZDiscriminatedUnion _ _ | ZRecord _ _
  | ZOptional _ | ZNullable _ | ZDefault _ _ | ZPrefault _ _ => False
  | _ => True
  end →
  fromConvexJS findBaseCodec isDateSchema zodParse wire (Zod id def) = wire.
Proof.
  intros Hcodec Hdate Hleaf. simpl. rewrite Hcodec.
  destruct (isNullish wire); [done|].
  assert (asDateNumber isDateSchema wire (Zod id def) = None) as Hnone.
  { unfold asDateNumber. destruct wire; try done.
    rewrite (isDateSchema_leaf _ _ Hdate). by destruct def. }
  destruct def; try done; by rewrite Hnone.
Qed.

Lemma encode_leaf id def wire :
  findBaseCodec (Zod id def) = None →
  storable wire = true →
  match def with
  | ZArray _ | ZObject _ | ZUnion _ | ZDiscriminatedUnion _ _ | ZRecord _ _
  | ZOptional _ | ZNullable _ | ZDefault _ _ | ZPrefault _ _ => False
  | _ => True
  end →
  schemaToConvex findBaseCodec zodParse wire (Zod id def) = wire.
Proof.
  intros Hcodec [Hsafe Hkeys]%andb_true_iff Hleaf. simpl. rewrite Hcodec.
  destruct (isNullish wire); [done|].
  destruct def; try done; try (by apply basicToConvex_of_safe).
  destruct wire; try done; by apply basicToConvex_of_safe.
Qed.

Lemma back_entries (decode encode : string -> Value -> Value) props :
  Forall (fun entry : string * Value =>
            assignable entry.1 = true ∧
            isUndefined entry.2 = false ∧
            isUndefined (decode entry.1 entry.2) = false ∧
            encode entry.1 (decode entry.1 entry.2) = entry.2) props →
  definedEntries encode (allEntries decode props) = props.
Proof.
  induction 1 as [|[k x] rest (Hk & Hx & Hd & Hback) _ IH]; [done|].
  simpl in *. rewrite Hk. simpl. by rewrite Hd, Hk, Hback, IH.
Qed.

Lemma back_wrapper id def inner wire :
  findBaseCodec (Zod id def) = None →
  match def with
  | ZOptional i | ZNullable i | ZDefault i _ | ZPrefault i _ => i = inner
  | _ => False
  end →
  isNullish wire = false →
  schemaToConvex findBaseCodec zodParse
    (fromConvexJS findBaseCodec isDateSchema zodParse wire inner) inner
    = wire →
  schemaToConvex findBaseCodec zodParse
    (fromConvexJS findBaseCodec isDateSchema zodParse wire (Zod id def))
    (Zod id def) = wire.
Proof.
  intros Hcodec Hdef Hnull Hinner.
  assert (fromConvexJS findBaseCodec isDateSchema zodParse wire (Zod id def)
          = fromConvexJS findBaseCodec isDateSchema zodParse wire inner) as ->.
  { simpl. rewrite Hnull, Hcodec. by destruct def; try done; subst. }
  destruct (isNullish (fromConvexJS findBaseCodec isDateSchema zodParse
                         wire inner)) eqn:Hd.
  - rewrite schemaToConvex_nullish in Hinner |- * by done. done.
  - simpl. rewrite Hd, Hcodec. by destruct def; try done; subst.
Qed.

Lemma back_union id def options wire :
  def = ZUnion options ∨ (∃ d, def = ZDiscriminatedUnion d options) →
  findBaseCodec (Zod id def) = None →
  Forall (fun option =>
            stored option wire = true →
            schemaToConvex findBaseCodec zodParse
              (fromConvexJS findBaseCodec isDateSchema zodParse wire option)
              option = wire) options →
  wireUnambiguous findBaseCodec isDateSchema zodParse options →
  isNullish wire = false →
  existsb (fun option => stored option wire) options = true →
  schemaToConvex findBaseCodec zodParse
    (fromConvexJS findBaseCodec isDateSchema zodParse wire (Zod id def))
    (Zod id def) = wire.
Proof.
  intros Hdef Hcodec IH Hunamb Hnull Hstored.
  destruct (firstOption (fun o => stored o wire) options) as [option|]
    eqn:Hfirst.
  2:{ apply firstOption_none in Hfirst.
      apply existsb_exists in Hstored as (o & Hin & Ho).
      rewrite Forall_forall in Hfirst.
      apply list_elem_of_In in Hin. specialize (Hfirst _ Hin). congruence. }
  destruct (firstOption_first _ _ _ Hfirst)
    as (before & after & Hoptions & Hbefore & Hoption).
  destruct (Hunamb wire before option after Hoptions Hnull Hbefore Hoption)
    as (Haccepts & Hdecode & Hencode).
  assert (option ∈ options) as Hin by (rewrite Hoptions; set_solver).
  rewrite Forall_forall in IH. specialize (IH _ Hin Hoption).
  rewrite (fromConvexJS_options findBaseCodec isDateSchema zodParse
             dates_sound _ _ options) by done.
  assert (firstOption
            (fun o => zodParse o
                        (fromConvexJS findBaseCodec isDateSchema zodParse
                           wire o)) options = Some option) as ->
    by (rewrite Hoptions; by apply firstOption_found).
  set (decoded := fromConvexJS findBaseCodec isDateSchema zodParse
                    wire option) in *.
  destruct (isNullish decoded) eqn:Hd.
  { rewrite schemaToConvex_nullish in IH |- * by done. done. }
  rewrite (schemaToConvex_options findBaseCodec zodParse _ _ options)
    by done.
  assert (firstOption (fun o => zodParse o decoded) options = Some option)
    as -> by (rewrite Hoptions; by apply firstOption_found).
  done.
Qed.

(** X21: when the registry classifies as dates none but date schemas
    and their wrappers, then for a schema of primitives, dates,
    literals, enums, arrays, objects, records, unions unambiguous for
    the stored values, and optional, nullable and default wrappers, with
    no base codec registered, encoding the decoding of a stored value
    gives the stored value back: a date stored as an integer time value
    within the range of [Date], an object with no undefined-valued key
    and no key named [__proto__], keys outside the shape included. *)
Theorem stored_value_round_trip schema :
  ∀ wire,
    wireSymmetric findBaseCodec isDateSchema zodParse schema →
    stored schema wire = true →
    toConvexJS findBaseCodec zodParse
      (TwoArguments schema
         (fromConvexJS findBaseCodec isDateSchema zodParse wire schema))
    = wire.
Proof.
  simpl toConvexJS.
  induction schema as [id def IH] using ZodType_children_ind.
  intros wire Hsym Hstored.
  destruct (isNullish wire) eqn:Hnull.
  { by rewrite fromConvexJS_nullish, schemaToConvex_nullish. }
  pose proof (wireSymmetric_here _ Hsym) as Hcodec.
  pose proof (fromConvexJS_defined _ wire Hsym) as Hdefined.
  destruct Hsym as [_ Hsym].
  destruct def as [| | | | | | | | | | | | |element|shape|options|d options|l|es
                  |keyType valueType|items|g|i|i|i d|i d| | |t];
    try done.
  - (* string *)
    destruct wire; try done.
    by rewrite decode_leaf, encode_leaf.
  - (* number *)
    destruct wire as [| | |[]| | | | |]; try done;
      by rewrite decode_leaf, encode_leaf.
  - (* bigint *)
    destruct wire; try done. by rewrite decode_leaf, encode_leaf.
  - (* boolean *)
    destruct wire; try done. by rewrite decode_leaf, encode_leaf.
  - (* date *)
    destruct wire as [| | |[ms| | |]| | | | |]; try done.
    simpl in Hstored. simpl. rewrite !Hcodec. simpl.
    unfold asDateNumber. simpl. by rewrite Hstored.
  - (* null *)
    by destruct wire.
  - (* nan *)
    destruct wire as [| | |[]| | | | |]; try done.
    by rewrite decode_leaf, encode_leaf.
  - (* any *)
    by rewrite decode_leaf, encode_leaf.
  - (* unknown *)
    by rewrite decode_leaf, encode_leaf.
  - (* array *)
    destruct wire as [| | | | | | |items|]; try done.
    simpl in IH, Hstored. rewrite Forall_singleton in IH.
    apply forallb_true in Hstored.
    simpl. rewrite !Hcodec. simpl. rewrite ?Hcodec. f_equal.
    rewrite map_map. clear Hnull Hdefined.
    induction Hstored as [|x rest Hx _ IHrest]; [done|].
    simpl. by rewrite IH, IHrest.
  - (* object *)
    destruct wire as [| | | | | | | |props]; try done.
    rewrite fromConvexJS_object by done.
    rewrite schemaToConvex_object by done. f_equal.
    apply wireSymmetric_fields in Hsym.
    simpl in Hstored, IH. apply forallb_true in Hstored.
    apply back_entries.
    eapply Forall_impl; [exact Hstored|].
    intros [k x] [[Hk Hx]%andb_true_iff Hfield]%andb_true_iff. simpl in *.
    apply negb_true_iff in Hx. split; [done|]. split; [done|].
    apply stored_shape_lookup in Hfield.
    destruct (shapeLookup shape k) as [s|] eqn:Hlookup.
    + destruct Hfield as [Hs Hfield].
      rewrite Forall_forall in IH. rewrite Forall_forall in Hsym.
      split; [|by apply IH; auto].
      apply fromConvexJS_defined; auto.
    + split; [done|].
      apply andb_true_iff in Hfield as [Hsafe Hkeys].
      by apply basicToConvex_of_safe.
  - (* union *)
    destruct Hsym as [Hsym Hunamb]. apply wireSymmetric_options in Hsym.
    apply (back_union _ _ options); try done; [by left|]. simpl in IH.
    rewrite Forall_forall in IH. rewrite Forall_forall in Hsym.
    rewrite Forall_forall. intros option Hin Hoption. apply IH; auto.
  - (* discriminated union *)
    destruct Hsym as [Hsym Hunamb]. apply wireSymmetric_options in Hsym.
    apply (back_union _ _ options); try done; [right; by eexists|].
    simpl in IH.
    rewrite Forall_forall in IH. rewrite Forall_forall in Hsym.
    rewrite Forall_forall. intros option Hin Hoption. apply IH; auto.
  - (* literal *)
    assert (storable wire = true) by (by destruct l, wire).
    by rewrite decode_leaf, encode_leaf.
  - (* enum *)
    destruct wire; try done. by rewrite decode_leaf, encode_leaf.
  - (* record *)
    destruct valueType as [valueType|]; [|done].
    destruct wire as [| | | | | | | |props]; try done.
    simpl in IH. apply Forall_app in IH as [_ IH].
    rewrite Forall_singleton in IH.
    simpl in Hstored. apply forallb_true in Hstored.
    simpl. rewrite !Hcodec. simpl. rewrite ?Hcodec. f_equal.
    apply (back_entries
             (fun _ x => fromConvexJS findBaseCodec isDateSchema zodParse
                           x valueType)
             (fun _ x => schemaToConvex findBaseCodec zodParse x valueType)).
    eapply Forall_impl; [exact Hstored|].
    intros [k x] [[Hk Hx]%andb_true_iff Hfield]%andb_true_iff. simpl in *.
    apply negb_true_iff in Hx. split_and!; [done..| |by apply IH].
    by apply fromConvexJS_defined.
  - (* optional *)
    simpl in IH, Hstored. rewrite Forall_singleton in IH.
    apply (back_wrapper _ _ i); try done.
    apply IH; try done. by destruct wire.
  - (* nullable *)
    simpl in IH, Hstored. rewrite Forall_singleton in IH.
    apply (back_wrapper _ _ i); try done.
    apply IH; try done. by destruct wire.
  - (* default *)
    simpl in IH, Hstored. rewrite Forall_singleton in IH.
    apply (back_wrapper _ _ i); try done.
    apply IH; try done. by destruct wire.
  - (* prefault *)
    simpl in IH, Hstored. rewrite Forall_singleton in IH.
    apply (back_wrapper _ _ i); try done.
    apply IH; try done. by destruct wire.
Qed.

End RoundTripBack.

Lemma stored_value_round_trip_witness :
  toConvexJS Examples.noCodec Examples.zodAccepts
    (TwoArguments Examples.Event
       (fromConvexJS Examples.noCodec Examples.datesOnly Examples.zodAccepts
          Samples.storedEvent Examples.Event))
  = Samples.storedEvent.
Proof.
  apply (stored_value_round_trip Examples.noCodec Examples.datesOnly
           Examples.zodAccepts).
  - intros schema Hdate. exact Hdate.
  - simpl. split_and!; try exact I; try reflexivity.
    intros wire before option after Hoptions Hnull Hbefore Hstored.
    destruct before as [|o1 [|o2 before]]; simpl in Hoptions.
    + injection Hoptions as <- _.
      destruct wire; try discriminate Hstored.
      split_and!; [reflexivity|constructor|constructor].
    + injection Hoptions as <- <- _.
      destruct wire; try discriminate Hstored.
      split_and!; [reflexivity|repeat constructor|repeat constructor].
    + injection Hoptions as _ _ Hrest.
      destruct before; discriminate Hrest.
  - vm_compute. reflexivity.
Defined.

(** ** Numbers under a date schema *)

(** X22: under [z.date()] with no base codec registered, decoding a
    number and encoding the result gives the number back exactly when it
    is an integer within the range of [Date]; a fraction comes back
    truncated, and a number outside the range, an infinity and NaN come
    back as NaN. *)
Theorem numbers_through_a_date findBaseCodec isDateSchema zodParse id n :
  findBaseCodec (Zod id ZDate) = None →
  toConvexJS findBaseCodec zodParse
    (TwoArguments (Zod id ZDate)
       (fromConvexJS findBaseCodec isDateSchema zodParse (JNum n)
          (Zod id ZDate)))
  = JNum match n with
         | NumInt ms => if Z.abs ms <=? maxTime then NumInt ms else NumNaN
         | NumFrac trunc _ =>
             if Z.abs trunc <? maxTime then NumInt trunc else NumNaN
         | NumInf _ | NumNaN => NumNaN
         end.
Proof.
  intros Hcodec. simpl. rewrite Hcodec. unfold asDateNumber. simpl.
  destruct n as [ms|trunc frac|negative|]; simpl; rewrite ?Hcodec.
  - by destruct (Z.abs ms <=? maxTime).
  - by destruct (Z.abs trunc <? maxTime).
  - done.
  - done.
Qed.

Lemma numbers_through_a_date_witness :
  toConvexJS Examples.noCodec Examples.zodAccepts
    (TwoArguments Examples.dateSchema
       (fromConvexJS Examples.noCodec Examples.datesOnly Examples.zodAccepts
          (JNum (NumInt 8640000000000001)) Examples.dateSchema))
  = JNum NumNaN.
Proof.
  apply (numbers_through_a_date Examples.noCodec Examples.datesOnly
           Examples.zodAccepts 0 (NumInt 8640000000000001)).
  reflexivity.
Defined.

